(** * skrl parallel trainer: lock-step multi-process orchestration

    A shallow embedding of [skrl/trainers/torch/parallel.py]: the worker
    dispatch loop [fn_processor] and the coordinator methods
    [ParallelTrainer.__init__], [ParallelTrainer.train] and
    [ParallelTrainer.eval].

    Processes are modelled by explicit state passing.  Every worker owns a
    command pipe, a data queue, its scope and its cached tensors; the
    coordinator owns the environment.  The barrier is a generation counter:
    a process that calls [barrier.wait()] arrives at the next generation,
    and the coordinator's wait returns once every worker has arrived at it
    too.  Workers only touch their own pipe, queue and agent, so the model
    runs each of them when the coordinator blocks on the barrier. *)

From stdpp Require Import gmap strings list fin_maps.

Open Scope string_scope.
Open Scope list_scope.
Open Scope nat_scope.

(** ** Python values carried by messages and configuration dicts *)

Inductive pyval :=
| VNone
| VBool (b : bool)
| VInt (z : Z)
| VStr (s : string).

Global Instance pyval_eq_dec : EqDecision pyval.
Proof. solve_decision. Defined.

(** ** Configuration dicts in the object store

    A dict is an object: the module-level
    [PARALLEL_TRAINER_DEFAULT_CONFIG] lives at [default_loc], and the
    [cfg] argument of [__init__] is a reference that may alias it. *)
Abbreviation dict := (gmap string pyval).
Abbreviation store := (gmap nat dict).

Definition PARALLEL_TRAINER_DEFAULT_CONFIG : dict :=
  <["timesteps" := VInt 100000]> (<["headless" := VBool false]> ∅).

Definition default_loc : nat := 0.

(** [copy.deepcopy(d)] of a dict of scalars: a new object with the same
    items. *)
Definition deepcopy (h : store) (l : nat) : option (store * nat) :=
  d ← h !! l;
  let l' := fresh (dom h) in
  Some (<[l' := d]> h, l').

(** [dst.update(src)]: every key of [src] is bound in [dst] to the value
    it has in [src]; the other keys of [dst] stay. *)
Definition update (h : store) (dst src : nat) : option store :=
  d ← h !! dst;
  s ← h !! src;
  Some (<[dst := s ∪ d]> h).

(** Lines 119-121 of [ParallelTrainer.__init__]: the dict handed to the
    base class as [cfg]. *)
Definition init_cfg (h : store) (cfg : nat) : option (store * nat) :=
  '(h1, _cfg) ← deepcopy h default_loc;
  h2 ← update h1 _cfg cfg;
  Some (h2, _cfg).

(** Faults that end a process. *)
Inductive fault :=
| KeyError          (* msg[k] with k absent *)
| AttributeError    (* method looked up on None *)
| TypeError         (* subscript of something that is not a tensor *)
| IndexError        (* args[3][process_index] out of range *)
| RuntimeError.     (* torch.vstack of an empty list *)

(** A command message is a Python dict. *)
Abbreviation msg := (gmap string pyval).

Definition mk_msg (task : string) (timestep timesteps : nat) : msg :=
  <["task" := VStr task]>
    (<["timestep" := VInt (Z.of_nat timestep)]>
       (<["timesteps" := VInt (Z.of_nat timesteps)]> ∅)).

Definition mk_task (task : string) : msg := {["task" := VStr task]}.

(** The seven task strings [fn_processor] compares against. *)
Definition known_tasks : list pyval :=
  [VStr "terminate"; VStr "init"; VStr "pre_interaction"; VStr "act";
   VStr "record_transition"; VStr "post_interaction";
   VStr "eval-record_transition-post_interaction"].

(** ** A state-and-failure monad for processes

    A computation threads the process state and stops at the first fault
    or at the first call that never returns. *)
Inductive stop :=
| Fault (f : fault)
| Starved      (* [queue.get()] on a queue nobody will fill *)
| Deadlock     (* [barrier.wait()] that some participant never reaches *)
| Hang.        (* [process.join()] on a process that never exits *)

Definition M (St X : Type) : Type := St -> (stop + X) * St.

Definition ret {St X} (x : X) : M St X := fun s => (inr x, s).
Definition bind {St X Y} (m : M St X) (k : X -> M St Y) : M St Y :=
  fun s => match m s with
           | (inr x, s') => k x s'
           | (inl e, s') => (inl e, s')
           end.
Definition raise {St X} (e : stop) : M St X := fun s => (inl e, s).
Definition modify {St} (f : St -> St) : M St unit := fun s => (inr tt, f s).
Definition gets {St X} (f : St -> X) : M St X := fun s => (inr (f s), s).

Notation "'let*' x := m 'in' k" := (bind m (fun x => k))
  (at level 10, x name, m at level 100, k at level 200).
Notation "m ;; k" := (bind m (fun _ => k))
  (at level 100, k at level 200, right associativity).

(** [for x in xs: body(x)] *)
Fixpoint for_each {St X} (xs : list X) (body : X -> M St unit) : M St unit :=
  match xs with
  | [] => ret tt
  | x :: xs' => body x ;; for_each xs' body
  end.

(** [for x in xs: a = body(x, a)], for a local variable [a] the body
    rebinds. *)
Fixpoint for_acc {St X A} (xs : list X) (body : X -> A -> M St A) (a : A)
  : M St A :=
  match xs with
  | [] => ret a
  | x :: xs' => let* a' := body x a in for_acc xs' body a'
  end.

(** [[f(x) for x in xs]] *)
Fixpoint collect {St X Y} (xs : list X) (f : X -> M St Y) : M St (list Y) :=
  match xs with
  | [] => ret []
  | x :: xs' => let* y := f x in let* ys := collect xs' f in ret (y :: ys)
  end.

(** [range(a, b)] *)
Definition range (a b : nat) : list nat := seq a (b - a).

(** The tasks commanded inside the loop of [train] and of [eval]. *)
Definition train_tasks : list string :=
  ["pre_interaction"; "act"; "record_transition"; "post_interaction"].

Definition eval_tasks : list string :=
  ["act"; "eval-record_transition-post_interaction"].

(** A value of the dict [agent.models]: [None], or a model, whose
    [share_memory()] returns or raises [RuntimeError]. *)
Inductive model :=
| NoModel
| Model (shares : bool).

Global Instance model_eq_dec : EqDecision model.
Proof. solve_decision. Defined.

Section Trainer.

(** A tensor is the list of its rows along the batch dimension. *)
Context {row Info : Type}.
Abbreviation tensor := (list row).

(** [t[a:b]] for non-negative bounds. *)
Definition slice (a b : nat) (t : tensor) : tensor := drop a (take b t).

(** A tensor object held in a variable of the coordinator: the identity
    of its storage and its rows.  Rebinding the variable may change the
    identity; [copy_] changes the rows only. *)
Definition tobj : Type := nat * tensor.

(** [torch.vstack]. *)
Definition vstack (ts : list tensor) : tensor := concat ts.

(** ** The agent interface consumed by the trainer

    [super_record_transition] and [super_post_interaction] are the methods
    that [super(type(agent), agent)] resolves to.  [act] returns element
    [0] of the tuple the Python method returns.  [has_memory] tells
    whether [agent.memory] is not [None], and [models] lists
    [agent.models.values()]. *)
Class Agent (Ag : Type) := {
  init : Ag -> Ag;
  pre_interaction : Ag -> pyval -> pyval -> Ag;
  act : Ag -> tensor -> pyval -> pyval -> tensor * Ag;
  record_transition :
    Ag -> option tensor -> option tensor -> tensor -> tensor -> tensor ->
    Info -> pyval -> pyval -> Ag;
  post_interaction : Ag -> pyval -> pyval -> Ag;
  super_record_transition :
    Ag -> option tensor -> option tensor -> tensor -> tensor -> tensor ->
    Info -> pyval -> pyval -> Ag;
  super_post_interaction : Ag -> pyval -> pyval -> Ag;
  has_memory : Ag -> bool;
  models : Ag -> list model
}.

Context {Ag : Type} `{Agent Ag}.

(** Objects travelling through a data queue. *)
Inductive obj :=
| OAgent (a : Ag)
| OTensor (t : tensor)
| OInfos (i : Info).

(** ** Worker processes *)

(** What a worker does, in program order. *)
Inductive wevent :=
| Recv (m : msg)
| CallInit
| CallPre (ts tss : pyval)
| CallAct (st : tensor) (ts tss : pyval)
| CallRecord (st ac : option tensor) (rw ns dn : tensor) (inf : Info)
             (ts tss : pyval)
| CallPost (ts tss : pyval)
| CallSuperRecord (st ac : option tensor) (rw ns dn : tensor) (inf : Info)
                  (ts tss : pyval)
| CallSuperPost (ts tss : pyval)
| Put (o : obj)
| Barrier.

Inductive status :=
| Running
| Exited                (* left the loop; the process is over *)
| Stopped (e : stop).   (* died of a fault, or is stuck for good *)

Record worker := Worker {
  pipe : list msg;              (* sent by the coordinator, not yet received *)
  queue : list obj;
  scope : nat * nat;
  agent : option Ag;
  _states : option tensor;
  _actions : option tensor;
  waits : nat;                  (* barrier generations arrived at *)
  log : list wevent;
  stat : status
}.

Definition set_pipe (p : list msg) (w : worker) : worker :=
  Worker p (queue w) (scope w) (agent w) (_states w) (_actions w)
         (waits w) (log w) (stat w).
Definition set_queue (q : list obj) (w : worker) : worker :=
  Worker (pipe w) q (scope w) (agent w) (_states w) (_actions w)
         (waits w) (log w) (stat w).
Definition set_agent (a : option Ag) (w : worker) : worker :=
  Worker (pipe w) (queue w) (scope w) a (_states w) (_actions w)
         (waits w) (log w) (stat w).
Definition set_states (s : option tensor) (w : worker) : worker :=
  Worker (pipe w) (queue w) (scope w) (agent w) s (_actions w)
         (waits w) (log w) (stat w).
Definition set_actions (a : option tensor) (w : worker) : worker :=
  Worker (pipe w) (queue w) (scope w) (agent w) (_states w) a
         (waits w) (log w) (stat w).
Definition set_stat (s : status) (w : worker) : worker :=
  Worker (pipe w) (queue w) (scope w) (agent w) (_states w) (_actions w)
         (waits w) (log w) s.
Definition emit (e : wevent) (w : worker) : worker :=
  Worker (pipe w) (queue w) (scope w) (agent w) (_states w) (_actions w)
         (waits w) (log w ++ [e]) (stat w).

Definition W : Type -> Type := M worker.
Definition wraise {X} (f : fault) : W X := raise (Fault f).

Definition wemit (e : wevent) : W unit := fun w => (inr tt, emit e w).

(** [barrier.wait()] *)
Definition barrier_wait : W unit :=
  fun w => (inr tt,
            Worker (pipe w) (queue w) (scope w) (agent w) (_states w)
                   (_actions w) (S (waits w)) (log w ++ [Barrier]) (stat w)).

(** [queue.get()] *)
Definition queue_get : W obj :=
  fun w => match queue w with
           | o :: q => (inr o, set_queue q w)
           | [] => (inl Starved, w)
           end.

(** [queue.put(o)] *)
Definition queue_put (o : obj) : W unit :=
  fun w => (inr tt, emit (Put o) (set_queue (queue w ++ [o]) w)).

(** [queue.get()[scope[0]:scope[1]]] *)
Definition get_slice : W tensor :=
  let* o := queue_get in
  fun w => match o with
           | OTensor t => (inr (slice (fst (scope w)) (snd (scope w)) t), w)
           | _ => (inl (Fault TypeError), w)
           end.

(** [queue.get()] for the [infos] argument: the object is passed on whole.
    The agent interface is typed, so anything else on the queue is a
    [TypeError] here. *)
Definition get_infos : W Info :=
  let* o := queue_get in
  match o with
  | OInfos i => ret i
  | _ => wraise TypeError
  end.

(** [msg[k]] *)
Definition getitem (m : msg) (k : string) : W pyval :=
  match m !! k with
  | Some v => ret v
  | None => wraise KeyError
  end.

(** Looking up a method on [agent]. *)
Definition the_agent : W Ag :=
  fun w => match agent w with
           | Some a => (inr a, w)
           | None => (inl (Fault AttributeError), w)
           end.


(** ** The dispatch loop of [fn_processor] *)

Inductive ctl :=
| Break       (* leave the [while True] loop *)
| Again.      (* next iteration *)

(** The branches of the loop body, lines 45-96. *)

(** Lines 45-49. *)
Definition on_init : W ctl :=
  let* o := queue_get in
  match o with
  | OAgent a =>
      modify (set_agent (Some (init a))) ;;
      wemit CallInit ;;
      barrier_wait ;;
      ret Again
  | _ => wraise AttributeError
  end.

(** Lines 52-54. *)
Definition on_pre_interaction (m : msg) : W ctl :=
  let* a := the_agent in
  let* ts := getitem m "timestep" in
  let* tss := getitem m "timesteps" in
  modify (set_agent (Some (pre_interaction a ts tss))) ;;
  wemit (CallPre ts tss) ;;
  barrier_wait ;;
  ret Again.

(** Lines 57-64.  [_states] is kept as the rows the slice has when it is
    taken; the worker reads it again only under [record_transition] of the
    same timestep, before the coordinator writes to [states]. *)
Definition on_act (m : msg) : W ctl :=
  let* st := get_slice in
  modify (set_states (Some st)) ;;
  let* a := the_agent in
  let* ts := getitem m "timestep" in
  let* tss := getitem m "timesteps" in
  wemit (CallAct st ts tss) ;;
  modify (set_agent (Some (snd (act a st ts tss)))) ;;
  modify (set_actions (Some (fst (act a st ts tss)))) ;;
  queue_put (OTensor (fst (act a st ts tss))) ;;
  barrier_wait ;;
  ret Again.

(** Lines 67-77: the keyword arguments are evaluated in the order
    written, after [agent.record_transition] has been looked up. *)
Definition on_record_transition (m : msg) : W ctl :=
  let* a := the_agent in
  let* st := gets _states in
  let* ac := gets _actions in
  let* rw := get_slice in
  let* ns := get_slice in
  let* dn := get_slice in
  let* inf := get_infos in
  let* ts := getitem m "timestep" in
  let* tss := getitem m "timesteps" in
  modify (set_agent (Some (record_transition a st ac rw ns dn inf ts tss))) ;;
  wemit (CallRecord st ac rw ns dn inf ts tss) ;;
  barrier_wait ;;
  ret Again.

(** Lines 80-82. *)
Definition on_post_interaction (m : msg) : W ctl :=
  let* a := the_agent in
  let* ts := getitem m "timestep" in
  let* tss := getitem m "timesteps" in
  modify (set_agent (Some (post_interaction a ts tss))) ;;
  wemit (CallPost ts tss) ;;
  barrier_wait ;;
  ret Again.

(** Lines 85-96: both calls go through [super(type(agent), agent)]. *)
Definition on_eval_record_post (m : msg) : W ctl :=
  let* a := the_agent in
  let* st := gets _states in
  let* ac := gets _actions in
  let* rw := get_slice in
  let* ns := get_slice in
  let* dn := get_slice in
  let* inf := get_infos in
  let* ts := getitem m "timestep" in
  let* tss := getitem m "timesteps" in
  modify (set_agent
            (Some (super_record_transition a st ac rw ns dn inf ts tss))) ;;
  wemit (CallSuperRecord st ac rw ns dn inf ts tss) ;;
  let* a' := the_agent in
  let* ts' := getitem m "timestep" in
  let* tss' := getitem m "timesteps" in
  modify (set_agent (Some (super_post_interaction a' ts' tss'))) ;;
  wemit (CallSuperPost ts' tss') ;;
  barrier_wait ;;
  ret Again.

(** One iteration of the loop body, after [msg = pipe.recv()]: the
    [if]/[elif] chain on [task], lines 38-96. *)
Definition dispatch (m : msg) : W ctl :=
  let* task := getitem m "task" in
  if decide (task = VStr "terminate") then ret Break
  else if decide (task = VStr "init") then on_init
  else if decide (task = VStr "pre_interaction") then on_pre_interaction m
  else if decide (task = VStr "act") then on_act m
  else if decide (task = VStr "record_transition") then on_record_transition m
  else if decide (task = VStr "post_interaction") then on_post_interaction m
  else if decide (task = VStr "eval-record_transition-post_interaction")
       then on_eval_record_post m
  else ret Again.

(** [msg = pipe.recv()] followed by the loop body; [p] is what stays in
    the pipe. *)
Definition recv_one (m : msg) (p : list msg) (w : worker) : worker :=
  match dispatch m (emit (Recv m) (set_pipe p w)) with
  | (inr Break, w') => set_stat Exited w'
  | (inr Again, w') => w'
  | (inl e, w') => set_stat (Stopped e) w'
  end.

(** The [while True] loop, run until the worker has arrived at barrier
    generation [g], has left the loop, has stopped, or blocks in
    [pipe.recv()] on an empty pipe. *)
Fixpoint serve (g : nat) (p : list msg) (w : worker) : worker :=
  match stat w with
  | Running =>
      if decide (g <= waits w) then set_pipe p w
      else match p with
           | [] => set_pipe [] w
           | m :: p' => serve g p' (recv_one m p' w)
           end
  | _ => set_pipe p w
  end.

Definition run_until (g : nat) (w : worker) : worker := serve g (pipe w) w.

(** Lines 22-34 of [fn_processor]: unpack the arguments of worker
    [process_index] and wait for the main process. *)
Definition fn_processor_start (process_index : nat)
    (scopes : list (nat * nat)) : worker :=
  match scopes !! process_index with
  | Some sc =>
      snd (barrier_wait (Worker [] [] sc None None None 0 [] Running))
  | None =>
      Worker [] [] (0, 0) None None None 0 [] (Stopped (Fault IndexError))
  end.

(** ** The environment interface and the coordinator *)

Class Environment (E : Type) := {
  reset : E -> tobj * E;
  step : E -> tensor -> (tensor * tensor * tensor * Info) * E;
  render : E -> E;
  close : E -> E
}.

Context {E : Type} `{Environment E}.

(** [t.any()]: some element of the tensor is true; [nonzero r] tells
    whether row [r] holds one. *)
Variable nonzero : row -> bool.
Definition any (t : tensor) : bool := existsb nonzero t.

(** [single_agent_train] and [single_agent_eval] belong to the base class
    [Trainer]; they work on the environment and the agents only. *)
Variable single_agent_train : E * list Ag -> E * list Ag.
Variable single_agent_eval : E * list Ag -> E * list Ag.

(** What the coordinator does, in program order. *)
Inductive cevent :=
| AgentsInit
| SingleAgentTrain
| SingleAgentEval
| MkBarrier (parties : nat)
| MkPipe
| MkQueue
| ShareMemory            (* [agent.memory.share_memory()] *)
| ShareModel             (* [model.share_memory()] *)
| Spawn (i : nat)
| Wait
| Send (i : nat) (m : msg)
| QPut (i : nat) (o : obj)
| QGet (i : nat)
| EnvReset
| EnvStep (actions : tensor)
| EnvRender
| CopyInPlace            (* [states.copy_(next_states)] *)
| Join (i : nat)
| EnvClose.

(** The fields of [self] the two methods read, and the processes. *)
Record coord := Coord {
  env : E;
  agents : list Ag;
  agents_scope : list (nat * nat);
  num_agents : nat;
  timesteps : nat;
  initial_timestep : nat;
  headless : bool;
  workers : list worker;
  gen : nat;                    (* barrier generations the coordinator passed *)
  trace : list cevent
}.

Definition set_env (e : E) (c : coord) : coord :=
  Coord e (agents c) (agents_scope c) (num_agents c) (timesteps c)
        (initial_timestep c) (headless c) (workers c) (gen c) (trace c).
Definition set_agents (a : list Ag) (c : coord) : coord :=
  Coord (env c) a (agents_scope c) (num_agents c) (timesteps c)
        (initial_timestep c) (headless c) (workers c) (gen c) (trace c).
Definition set_workers (ws : list worker) (c : coord) : coord :=
  Coord (env c) (agents c) (agents_scope c) (num_agents c) (timesteps c)
        (initial_timestep c) (headless c) ws (gen c) (trace c).
Definition set_gen (g : nat) (c : coord) : coord :=
  Coord (env c) (agents c) (agents_scope c) (num_agents c) (timesteps c)
        (initial_timestep c) (headless c) (workers c) g (trace c).
Definition note (e : cevent) (c : coord) : coord :=
  Coord (env c) (agents c) (agents_scope c) (num_agents c) (timesteps c)
        (initial_timestep c) (headless c) (workers c) (gen c) (trace c ++ [e]).

Definition C : Type -> Type := M coord.

Definition cnote (e : cevent) : C unit := modify (note e).

(** [barrier.wait()] in the main process: every worker runs up to the
    same generation; one that cannot get there leaves everybody stuck. *)
Definition cbarrier_wait : C unit :=
  cnote Wait ;;
  let* g := gets gen in
  let* ws := gets workers in
  let ws' := map (run_until (S g)) ws in
  modify (set_workers ws') ;;
  if forallb (fun w => bool_decide (S g <= waits w)) ws' then modify (set_gen (S g))
  else raise Deadlock.

(** [producer_pipes[i].send(m)] *)
Definition send (i : nat) (m : msg) : C unit :=
  cnote (Send i m) ;;
  modify (fun c => set_workers
                     (alter (fun w => set_pipe (pipe w ++ [m]) w) i (workers c)) c).

(** [queues[i].put(o)] *)
Definition cput (i : nat) (o : obj) : C unit :=
  cnote (QPut i o) ;;
  modify (fun c => set_workers
                     (alter (fun w => set_queue (queue w ++ [o]) w) i (workers c)) c).

(** [queues[i].get()], called after the barrier: nothing more will arrive. *)
Definition cget (i : nat) : C obj :=
  cnote (QGet i) ;;
  let* ws := gets workers in
  match ws !! i with
  | Some w =>
      match queue w with
      | o :: q =>
          modify (set_workers (<[i := set_queue q w]> ws)) ;;
          ret o
      | [] => raise Starved
      end
  | None => raise (Fault IndexError)
  end.

(** [processes[i].join()]: returns once the process is over.  A worker
    that is still in its loop then, waiting for a message or at the
    barrier, is never released. *)
Definition join (i : nat) : C unit :=
  cnote (Join i) ;;
  let* ws := gets workers in
  match ws !! i with
  | Some w =>
      let w' := run_until (S (waits w)) w in
      modify (set_workers (<[i := w']> ws)) ;;
      match stat w' with
      | Exited | Stopped (Fault _) => ret tt
      | _ => raise Hang
      end
  | None => raise (Fault IndexError)
  end.

(** [torch.vstack([queue.get() for queue in queues])] *)
Fixpoint tensors (os : list obj) : option (list tensor) :=
  match os with
  | [] => Some []
  | OTensor t :: os' => cons t <$> tensors os'
  | _ :: _ => None
  end.

Definition gather (n : nat) : C tensor :=
  let* os := collect (range 0 n) cget in
  match os with
  | [] => raise (Fault RuntimeError)
  | _ => match tensors os with
         | Some ts => ret (vstack ts)
         | None => raise (Fault TypeError)
         end
  end.

Definition env_reset : C tobj :=
  cnote EnvReset ;;
  let* e := gets env in
  modify (set_env (snd (reset e))) ;;
  ret (fst (reset e)).

Definition env_step (actions : tensor)
  : C (tensor * tensor * tensor * Info) :=
  cnote (EnvStep actions) ;;
  let* e := gets env in
  modify (set_env (snd (step e actions))) ;;
  ret (fst (step e actions)).

Definition env_render : C unit :=
  cnote EnvRender ;; modify (fun c => set_env (render (env c)) c).

Definition env_close : C unit :=
  cnote EnvClose ;; modify (fun c => set_env (close (env c)) c).

(** [agent.memory.share_memory()] under [if agent.memory is not None],
    lines 159-160 and 283-284.  The call changes no content. *)
Definition share_memory_of (a : Ag) : C unit :=
  if has_memory a then cnote ShareMemory else ret tt.

(** Lines 158-165 of [train]: every value of [agent.models] is asked to
    share its memory inside [try: ... except RuntimeError: pass].  On
    [None] the attribute lookup raises [AttributeError], which nothing
    catches. *)
Definition share_memory_train : C unit :=
  let* ags := gets agents in
  for_each ags (fun a =>
    share_memory_of a ;;
    for_each (models a) (fun mo =>
      match mo with
      | NoModel => raise (Fault AttributeError)
      | Model _ => cnote ShareModel
      end)).

(** Lines 282-290 of [eval]: the same loop with the guard
    [if model is not None] around the [try]. *)
Definition share_memory_eval : C unit :=
  let* ags := gets agents in
  for_each ags (fun a =>
    share_memory_of a ;;
    for_each (models a) (fun mo =>
      match mo with
      | NoModel => ret tt
      | Model _ => cnote ShareModel
      end)).

(** Lines 144-180 of [train] and 268-305 of [eval]: barrier, channels,
    the [share_memory] loop [share] of the method, processes, and the
    hand-over of the agents. *)
Definition bootstrap (share : C unit) : C unit :=
  let* n := gets num_agents in
  cnote (MkBarrier (n + 1)) ;;
  for_each (range 0 n) (fun _ => cnote MkPipe ;; cnote MkQueue) ;;
  share ;;
  let* scopes := gets agents_scope in
  for_each (range 0 n) (fun i =>
    cnote (Spawn i) ;;
    modify (fun c => set_workers (workers c ++ [fn_processor_start i scopes]) c)) ;;
  cbarrier_wait ;;
  let* ags := gets agents in
  for_each (zip (range 0 n) ags) (fun ia =>
    send (fst ia) (mk_task "init") ;;
    cput (fst ia) (OAgent (snd ia))) ;;
  cbarrier_wait.

(** Lines 232-239 and 349-355: [dones.any()] decides between a reset and
    the in-place copy.  [states = self.env.reset()] rebinds the variable
    to the object [reset] returns; [states.copy_(next_states)] keeps the
    object and overwrites its rows. *)
Definition reset_check (dones next_states : tensor) (states : tobj)
  : C tobj :=
  if any dones then env_reset
  else cnote CopyInPlace ;; ret (fst states, next_states).

(** Lines 241-250 and 357-366. *)
Definition teardown : C unit :=
  let* n := gets num_agents in
  for_each (range 0 n) (fun i => send i (mk_task "terminate")) ;;
  for_each (range 0 n) join ;;
  env_close.

(** The [act] phase, lines 195-201 and 315-321. *)
Definition compute_actions (timestep : nat) (states : tensor) : C tensor :=
  let* n := gets num_agents in
  let* tss := gets timesteps in
  for_each (range 0 n) (fun i =>
    send i (mk_msg "act" timestep tss) ;;
    cput i (OTensor states)) ;;
  cbarrier_wait ;;
  gather n.

(** Sending the transition under command [task], lines 219-225 and
    339-347. *)
Definition send_transition (task : string) (timestep : nat)
    (rewards next_states dones : tensor) (infos : Info) : C unit :=
  let* n := gets num_agents in
  let* tss := gets timesteps in
  for_each (range 0 n) (fun i =>
    send i (mk_msg task timestep tss) ;;
    cput i (OTensor rewards) ;;
    cput i (OTensor next_states) ;;
    cput i (OTensor dones) ;;
    cput i (OInfos infos)) ;;
  cbarrier_wait.

(** Sending a command without data, lines 190-192 and 228-230. *)
Definition broadcast (task : string) (timestep : nat) : C unit :=
  let* n := gets num_agents in
  let* tss := gets timesteps in
  for_each (range 0 n) (fun i => send i (mk_msg task timestep tss)) ;;
  cbarrier_wait.

(** One iteration of the loop of [train], lines 189-239. *)
Definition train_step (timestep : nat) (states : tobj) : C tobj :=
  broadcast "pre_interaction" timestep ;;
  let* actions := compute_actions timestep (snd states) in
  let* r := env_step actions in
  let '(next_states, rewards, dones, infos) := r in
  let* hl := gets headless in
  (if hl then ret tt else env_render) ;;
  send_transition "record_transition" timestep rewards next_states dones infos ;;
  broadcast "post_interaction" timestep ;;
  reset_check dones next_states states.

(** One iteration of the loop of [eval], lines 314-355. *)
Definition eval_step (timestep : nat) (states : tobj) : C tobj :=
  let* actions := compute_actions timestep (snd states) in
  let* r := env_step actions in
  let '(next_states, rewards, dones, infos) := r in
  let* hl := gets headless in
  (if hl then ret tt else env_render) ;;
  send_transition "eval-record_transition-post_interaction" timestep
                  rewards next_states dones infos ;;
  reset_check dones next_states states.

(** [self.agents.init()] on the single agent. *)
Definition agents_init : C unit :=
  cnote AgentsInit ;; modify (fun c => set_agents (map init (agents c)) c).

Definition call_single (e : cevent) (f : E * list Ag -> E * list Ag)
  : C unit :=
  cnote e ;;
  modify (fun c => let r := f (env c, agents c) in
                   set_agents (snd r) (set_env (fst r) c)).

(** [ParallelTrainer.train] *)
Definition train : C unit :=
  let* n := gets num_agents in
  if decide (n = 1) then
    agents_init ;;
    call_single SingleAgentTrain single_agent_train
  else
    bootstrap share_memory_train ;;
    let* states := env_reset in
    let* t0 := gets initial_timestep in
    let* t1 := gets timesteps in
    for_acc (range t0 t1) train_step states ;;
    teardown.

(** [ParallelTrainer.eval] *)
Definition eval : C unit :=
  let* n := gets num_agents in
  if decide (n = 1) then
    agents_init ;;
    call_single SingleAgentEval single_agent_eval
  else
    bootstrap share_memory_eval ;;
    let* states := env_reset in
    let* t0 := gets initial_timestep in
    let* t1 := gets timesteps in
    for_acc (range t0 t1) eval_step states ;;
    teardown.

(** ** Vocabulary for the properties *)

(** A worker between two phases: in its loop, blocked in [pipe.recv()],
    arrived at generation [g], nothing left in its queue, holding an
    agent. *)
Definition ready (g : nat) (w : worker) : Prop :=
  stat w = Running /\ waits w = g /\ pipe w = [] /\ queue w = [] /\
  is_Some (agent w).

Definition nat_val (k : nat) : pyval := VInt (Z.of_nat k).

(** What one command does to a ready worker.  [on_agent w k] is [k a] for
    the agent [a] the worker holds. *)
Definition on_agent (w : worker) (k : Ag -> worker) : worker :=
  match agent w with
  | Some a => k a
  | None => w
  end.

Definition after_init (a : Ag) (w : worker) : worker :=
  Worker [] [] (scope w) (Some (init a)) (_states w) (_actions w)
         (S (waits w))
         (log w ++ [Recv (mk_task "init"); CallInit; Barrier]) Running.

Definition after_pre (ts tss : nat) (w : worker) : worker :=
  on_agent w (fun a =>
    Worker [] [] (scope w)
           (Some (pre_interaction a (nat_val ts) (nat_val tss)))
           (_states w) (_actions w) (S (waits w))
           (log w ++ [Recv (mk_msg "pre_interaction" ts tss);
                      CallPre (nat_val ts) (nat_val tss); Barrier])
           Running).

(** The slice of [states] a worker acts on, and the actions it returns. *)
Definition own (w : worker) (t : tensor) : tensor :=
  slice (fst (scope w)) (snd (scope w)) t.

Definition actions_of (ts tss : nat) (states : tensor) (w : worker) : tensor :=
  match agent w with
  | Some a => fst (act a (own w states) (nat_val ts) (nat_val tss))
  | None => []
  end.

(** After [act], before the coordinator has taken the actions. *)
Definition after_act (ts tss : nat) (states : tensor) (w : worker) : worker :=
  on_agent w (fun a =>
    let r := act a (own w states) (nat_val ts) (nat_val tss) in
    Worker [] [OTensor (fst r)] (scope w) (Some (snd r))
           (Some (own w states)) (Some (fst r)) (S (waits w))
           (log w ++ [Recv (mk_msg "act" ts tss);
                      CallAct (own w states) (nat_val ts) (nat_val tss);
                      Put (OTensor (fst r)); Barrier])
           Running).

Definition after_record (ts tss : nat) (rw ns dn : tensor) (inf : Info)
    (w : worker) : worker :=
  on_agent w (fun a =>
    Worker [] [] (scope w)
           (Some (record_transition a (_states w) (_actions w)
                    (own w rw) (own w ns) (own w dn) inf
                    (nat_val ts) (nat_val tss)))
           (_states w) (_actions w) (S (waits w))
           (log w ++ [Recv (mk_msg "record_transition" ts tss);
                      CallRecord (_states w) (_actions w)
                                 (own w rw) (own w ns) (own w dn) inf
                                 (nat_val ts) (nat_val tss);
                      Barrier])
           Running).

Definition after_post (ts tss : nat) (w : worker) : worker :=
  on_agent w (fun a =>
    Worker [] [] (scope w)
           (Some (post_interaction a (nat_val ts) (nat_val tss)))
           (_states w) (_actions w) (S (waits w))
           (log w ++ [Recv (mk_msg "post_interaction" ts tss);
                      CallPost (nat_val ts) (nat_val tss); Barrier])
           Running).

Definition after_eval (ts tss : nat) (rw ns dn : tensor) (inf : Info)
    (w : worker) : worker :=
  on_agent w (fun a =>
    Worker [] [] (scope w)
           (Some (super_post_interaction
                    (super_record_transition a (_states w) (_actions w)
                       (own w rw) (own w ns) (own w dn) inf
                       (nat_val ts) (nat_val tss))
                    (nat_val ts) (nat_val tss)))
           (_states w) (_actions w) (S (waits w))
           (log w ++ [Recv (mk_msg "eval-record_transition-post_interaction"
                                   ts tss);
                      CallSuperRecord (_states w) (_actions w)
                                      (own w rw) (own w ns) (own w dn) inf
                                      (nat_val ts) (nat_val tss);
                      CallSuperPost (nat_val ts) (nat_val tss);
                      Barrier])
           Running).

Definition after_terminate (w : worker) : worker :=
  Worker [] (queue w) (scope w) (agent w) (_states w) (_actions w) (waits w)
         (log w ++ [Recv (mk_task "terminate")]) Exited.

(** What the coordinator puts in front of worker [i]. *)
Definition push (m : msg) (os : list obj) (w : worker) : worker :=
  set_queue (queue w ++ os) (set_pipe (pipe w ++ [m]) w).

Definition take_one (w : worker) : worker := set_queue (tail (queue w)) w.

(** The coordinator's events of one command phase: command and data for
    worker 0, then for worker 1, and so on. *)
Definition sends (n : nat) (m : msg) (os : list obj) : list cevent :=
  flat_map (fun i => Send i m :: map (QPut i) os) (range 0 n).

(** A worker that has just started (lines 22-34): arrived at the first
    barrier generation, no agent yet. *)
Definition started (sc : nat * nat) : worker :=
  Worker [] [] sc None None None 1 [Barrier] Running.

(** The [share_memory] calls of lines 158-165 and 282-290 when no call
    fails: one per agent with a memory, one per model that is not
    [None]. *)
Definition model_events (mo : model) : list cevent :=
  match mo with NoModel => [] | Model _ => [ShareModel] end.

Definition share_events (ags : list Ag) : list cevent :=
  flat_map (fun a =>
              (if has_memory a then [ShareMemory] else [])
              ++ flat_map model_events (models a))
           ags.

(** No value of any [agent.models] is [None]. *)
Definition every_model_set (ags : list Ag) : Prop :=
  Forall (fun a => NoModel ∉ models a) ags.

(** The workers and the coordinator's events after lines 144-180. *)
Definition boot_workers (n : nat) (scs : list (nat * nat)) (ags : list Ag)
  : list worker :=
  zip_with (fun sc a => after_init a (started sc)) (take n scs) ags.

Definition boot_events (n : nat) (ags : list Ag) : list cevent :=
  [MkBarrier (n + 1)]
  ++ flat_map (fun _ => [MkPipe; MkQueue]) (range 0 n)
  ++ share_events ags
  ++ map Spawn (range 0 n) ++ [Wait]
  ++ flat_map (fun ia => [Send (fst ia) (mk_task "init");
                          QPut (fst ia) (OAgent (snd ia))])
              (zip (range 0 n) ags)
  ++ [Wait].

(** The coordinator's events of lines 241-250. *)
Definition teardown_events (n : nat) : list cevent :=
  sends n (mk_task "terminate") [] ++ map Join (range 0 n) ++ [EnvClose].

(** One timestep of [train] and of [eval], seen from a worker and from
    the coordinator. *)
Definition train_worker (ts tss : nat) (states rw ns dn : tensor) (inf : Info)
    (w : worker) : worker :=
  after_post ts tss
    (after_record ts tss rw ns dn inf
       (take_one (after_act ts tss states (after_pre ts tss w)))).

Definition eval_worker (ts tss : nat) (states rw ns dn : tensor) (inf : Info)
    (w : worker) : worker :=
  after_eval ts tss rw ns dn inf (take_one (after_act ts tss states w)).

Definition train_actions (ts tss : nat) (states : tensor) (ws : list worker)
  : tensor :=
  vstack (map (actions_of ts tss states) (map (after_pre ts tss) ws)).

Definition eval_actions (ts tss : nat) (states : tensor) (ws : list worker)
  : tensor :=
  vstack (map (actions_of ts tss states) ws).

Definition reset_events (dn : tensor) : list cevent :=
  if any dn then [EnvReset] else [CopyInPlace].

Definition render_events (hl : bool) : list cevent :=
  if hl then [] else [EnvRender].

Definition act_events (n ts tss : nat) (states actions : tensor) : list cevent :=
  sends n (mk_msg "act" ts tss) [OTensor states] ++ [Wait]
  ++ map QGet (range 0 n) ++ [EnvStep actions].

Definition train_events (n ts tss : nat) (hl : bool)
    (states actions rw ns dn : tensor) (inf : Info) : list cevent :=
  sends n (mk_msg "pre_interaction" ts tss) [] ++ [Wait]
  ++ act_events n ts tss states actions
  ++ render_events hl
  ++ sends n (mk_msg "record_transition" ts tss)
           [OTensor rw; OTensor ns; OTensor dn; OInfos inf] ++ [Wait]
  ++ sends n (mk_msg "post_interaction" ts tss) [] ++ [Wait]
  ++ reset_events dn.

Definition eval_events (n ts tss : nat) (hl : bool)
    (states actions rw ns dn : tensor) (inf : Info) : list cevent :=
  act_events n ts tss states actions
  ++ render_events hl
  ++ sends n (mk_msg "eval-record_transition-post_interaction" ts tss)
           [OTensor rw; OTensor ns; OTensor dn; OInfos inf] ++ [Wait]
  ++ reset_events dn.

(** The log of one timestep of [train] in a worker: four commands, each
    handled up to its barrier before the next is received. *)
Definition train_block (ts tss : nat) (st ac rw ns dn : tensor) (inf : Info)
  : list wevent :=
  [Recv (mk_msg "pre_interaction" ts tss);
   CallPre (nat_val ts) (nat_val tss); Barrier;
   Recv (mk_msg "act" ts tss);
   CallAct st (nat_val ts) (nat_val tss); Put (OTensor ac); Barrier;
   Recv (mk_msg "record_transition" ts tss);
   CallRecord (Some st) (Some ac) rw ns dn inf (nat_val ts) (nat_val tss);
   Barrier;
   Recv (mk_msg "post_interaction" ts tss);
   CallPost (nat_val ts) (nat_val tss); Barrier].

(** The same for [eval]: two commands. *)
Definition eval_block (ts tss : nat) (st ac rw ns dn : tensor) (inf : Info)
  : list wevent :=
  [Recv (mk_msg "act" ts tss);
   CallAct st (nat_val ts) (nat_val tss); Put (OTensor ac); Barrier;
   Recv (mk_msg "eval-record_transition-post_interaction" ts tss);
   CallSuperRecord (Some st) (Some ac) rw ns dn inf (nat_val ts) (nat_val tss);
   CallSuperPost (nat_val ts) (nat_val tss);
   Barrier].

Definition is_train_block (tss ts : nat) (evs : list wevent) : Prop :=
  exists st ac rw ns dn inf, evs = train_block ts tss st ac rw ns dn inf.

Definition is_eval_block (tss ts : nat) (evs : list wevent) : Prop :=
  exists st ac rw ns dn inf, evs = eval_block ts tss st ac rw ns dn inf.

Definition is_train_events (n tss : nat) (hl : bool) (ts : nat)
    (evs : list cevent) : Prop :=
  exists states actions rw ns dn inf,
    evs = train_events n ts tss hl states actions rw ns dn inf.

Definition is_eval_events (n tss : nat) (hl : bool) (ts : nat)
    (evs : list cevent) : Prop :=
  exists states actions rw ns dn inf,
    evs = eval_events n ts tss hl states actions rw ns dn inf.

(** The commands a worker has received, oldest first. *)
Definition received (l : list wevent) : list msg :=
  flat_map (fun ev => match ev with Recv m => [m] | _ => [] end) l.

(** The commands of timestep [ts] of [train], in the order they are sent. *)
Definition train_commands (tss ts : nat) : list msg :=
  [mk_msg "pre_interaction" ts tss; mk_msg "act" ts tss;
   mk_msg "record_transition" ts tss; mk_msg "post_interaction" ts tss].

Definition eval_commands (tss ts : nat) : list msg :=
  [mk_msg "act" ts tss;
   mk_msg "eval-record_transition-post_interaction" ts tss].

(** The scopes, in worker order, cut [from, to) into consecutive ranges. *)
Fixpoint contiguous (from : nat) (scs : list (nat * nat)) (to : nat) : Prop :=
  match scs with
  | [] => from = to
  | sc :: scs' =>
      fst sc = from /\ fst sc <= snd sc /\ contiguous (snd sc) scs' to
  end.

(** [actions] has one row per row of [states], and row [i] is the row the
    worker whose scope holds [i] computed for it. *)
Definition rows_by_scope (f : worker -> tensor) (ws : list worker)
    (states actions : tensor) : Prop :=
  length actions = length states /\
  forall i, i < length states ->
    exists k w, ws !! k = Some w /\
                fst (scope w) <= i < snd (scope w) /\
                actions !! i = f w !! (i - fst (scope w)).

Definition is_step (ev : cevent) : bool :=
  match ev with EnvStep _ => true | _ => false end.


(** Counting events. *)
Definition is_close (ev : cevent) : bool :=
  match ev with EnvClose => true | _ => false end.

Definition is_reset (ev : cevent) : bool :=
  match ev with EnvReset => true | _ => false end.

Definition count {X} (p : X -> bool) (l : list X) : nat :=
  length (List.filter p l).

(** The events of the timestep loop: commands with one of the given
    tasks, queue traffic, barrier waits, and calls to [step], [render],
    [reset] and [copy_]. *)
Definition loop_event (tasks : list string) (ev : cevent) : Prop :=
  match ev with
  | Send _ m => exists task ts tss, m = mk_msg task ts tss /\ In task tasks
  | QPut _ _ | QGet _ | Wait | EnvStep _ | EnvRender | EnvReset
  | CopyInPlace => True
  | _ => False
  end.

(** The environment after the call an event of the coordinator stands
    for; the other events leave it as it is. *)
Definition env_call (e : E) (ev : cevent) : E :=
  match ev with
  | EnvReset => snd (reset e)
  | EnvStep actions => snd (step e actions)
  | EnvRender => render e
  | EnvClose => close e
  | _ => e
  end.

(** The environment after the calls of a trace, in order. *)
Definition replay (evs : list cevent) (e : E) : E := fold_left env_call evs e.

(** [tracked c c']: from [c] to [c'] the trace has grown by some events,
    and the environment of [c'] is what their calls make of the
    environment of [c].  [tracks m]: every run of [m] is tracked, whether
    it returns or stops. *)
Definition tracked (c c' : coord) : Prop :=
  exists d, trace c' = trace c ++ d /\ env c' = replay d (env c).

Definition tracks {X} (m : C X) : Prop := forall c, tracked c (snd (m c)).

(** The agent after the call an event of a worker stands for; [CallInit]
    is [init] on the agent the worker was handed. *)
Definition agent_call (a : Ag) (ev : wevent) : Ag :=
  match ev with
  | CallInit => init a
  | CallPre ts tss => pre_interaction a ts tss
  | CallAct st ts tss => snd (act a st ts tss)
  | CallRecord st ac rw ns dn inf ts tss =>
      record_transition a st ac rw ns dn inf ts tss
  | CallPost ts tss => post_interaction a ts tss
  | CallSuperRecord st ac rw ns dn inf ts tss =>
      super_record_transition a st ac rw ns dn inf ts tss
  | CallSuperPost ts tss => super_post_interaction a ts tss
  | _ => a
  end.

(** The agent after the calls of a log, in order. *)
Definition replay_calls (l : list wevent) (a : Ag) : Ag :=
  fold_left agent_call l a.

(** The end of a run that started with the environment [e]: the last
    events are the [terminate] commands, the joins and one [close], and
    the environment is what [close] returns on the environment that the
    calls before them left; every worker has left its loop on receiving
    [terminate], having waited on the barrier exactly as often as the
    coordinator. *)
Definition torn_down (n : nat) (e : E) (r : (stop + unit) * coord) : Prop :=
  fst r = inr tt /\
  (exists before, trace (snd r) = before ++ teardown_events n /\
                  env (snd r) = close (replay before e)) /\
  count is_close (trace (snd r)) = 1 /\
  length (workers (snd r)) = n /\
  Forall (fun w => stat w = Exited /\ waits w = gen (snd r) /\
                   exists l, log w = l ++ [Recv (mk_task "terminate")])
         (workers (snd r)).

(** The number of [reset] calls in each iteration of the timestep loop,
    for the loop body [stepf], replaying the loop from the state after
    start-up and the first [reset]. *)
Fixpoint resets_by_timestep (stepf : nat -> tobj -> C tobj)
    (tsl : list nat) (states : tobj) (c : coord) : list nat :=
  match tsl with
  | [] => []
  | t :: tsl' =>
      match stepf t states c with
      | (inr states', c') =>
          (count is_reset (trace c') - count is_reset (trace c))
            :: resets_by_timestep stepf tsl' states' c'
      | (inl _, _) => []
      end
  end.

Definition loop_resets (share : C unit) (stepf : nat -> tobj -> C tobj)
    (c : coord) : list nat :=
  match (bootstrap share ;; env_reset) c with
  | (inr states, c0) =>
      resets_by_timestep stepf (range (initial_timestep c) (timesteps c))
                         states c0
  | (inl _, _) => []
  end.

(** The end of a timestep that began with the object [states] and whose
    [step] returned [dn] for [dones] and [ns] for [next_states], in
    environment [e2].  When some element of [dn] is true, [reset] is
    called and the object it returns becomes [states].  Otherwise [reset]
    is not called and [states] is the same object as before, now holding
    the rows of [ns].  No other [reset] happens in the timestep. *)
Definition reset_checked (tr : list cevent) (states : tobj) (dn ns : tensor)
    (e2 : E) (r : (stop + tobj) * coord) : Prop :=
  exists before,
    trace (snd r) = tr ++ before ++ reset_events dn /\
    count is_reset before = 0 /\
    if any dn
    then reset_events dn = [EnvReset] /\
         fst r = inr (fst (reset e2)) /\ env (snd r) = snd (reset e2)
    else reset_events dn = [CopyInPlace] /\
         fst r = inr (fst states, ns) /\ env (snd r) = e2.

End Trainer.

Arguments tobj : clear implicits.
Arguments Agent : clear implicits.
Arguments Environment : clear implicits.
Arguments worker : clear implicits.
Arguments coord : clear implicits.
Arguments obj : clear implicits.
Arguments wevent : clear implicits.
Arguments cevent : clear implicits.

(** [grown Q g w w']: worker [w'] is worker [w] some commands later:
    ready at generation [g], same scope, its log longer by events
    satisfying [Q], its agent the one the calls among them leave. *)
Definition grown {row Info Ag : Type} `{Agent row Info Ag}
    (Q : list (wevent row Info Ag) -> Prop)
    (g : nat) (w w' : worker row Info Ag) : Prop :=
  ready g w' /\ scope w' = scope w /\
  exists dl, log w' = log w ++ dl /\ Q dl /\
             agent w' = replay_calls dl <$> agent w.

(** [chain P [t1; ...; tk] evs]: [evs] is a block satisfying [P t1], then
    one satisfying [P t2], and so on, and nothing else. *)
Fixpoint chain {X} (P : nat -> list X -> Prop) (tsl : list nat)
    (evs : list X) : Prop :=
  match tsl with
  | [] => evs = []
  | t :: tsl' => exists b rest, P t b /\ evs = b ++ rest /\ chain P tsl' rest
  end.


(** ** A small concrete system: rows are numbers *)
Module Stub.

(** The agent counts the calls it receives by kind:
    learning calls and base-class calls. *)
Record stub_agent := StubAgent { learnt : nat; based : nat; offset : nat }.

#[export] Instance stub_agent_ops : Agent nat unit stub_agent := {|
  init a := a;
  pre_interaction a _ _ := a;
  act a st _ _ := (map (fun r => r + offset a) st, a);
  record_transition a _ _ _ _ _ _ _ _ :=
    StubAgent (S (learnt a)) (based a) (offset a);
  post_interaction a _ _ := StubAgent (S (learnt a)) (based a) (offset a);
  super_record_transition a _ _ _ _ _ _ _ _ :=
    StubAgent (learnt a) (S (based a)) (offset a);
  super_post_interaction a _ _ := StubAgent (learnt a) (S (based a)) (offset a);
  has_memory _ := true;
  models _ := [Model true; Model false]
|}.

(** The environment counts [step] and [reset] calls; [dones] is all-true
    at the step call numbered [done_at] (from 0) and all-false otherwise.
    Every [reset] returns a new tensor object. *)
Record stub_env := StubEnv {
  batch : nat; done_at : nat; steps : nat; resets : nat; closes : nat
}.

#[export] Instance stub_env_ops : Environment nat unit stub_env := {|
  reset e := ((S (resets e), seq 0 (batch e)),
              StubEnv (batch e) (done_at e) (steps e) (S (resets e)) (closes e));
  step e actions :=
    ((actions, replicate (batch e) 1,
      replicate (batch e) (if decide (steps e = done_at e) then 1 else 0), tt),
     StubEnv (batch e) (done_at e) (S (steps e)) (resets e) (closes e));
  render e := e;
  close e := StubEnv (batch e) (done_at e) (steps e) (resets e) (S (closes e))
|}.

Definition nonzero (r : nat) : bool := negb (r =? 0).

Definition sys (n : nat) (scopes : list (nat * nat)) (b ts : nat)
  : coord nat unit stub_agent stub_env :=
  Coord (StubEnv b 3 0 0 0)
        (map (fun i => StubAgent 0 0 (100 * S i)) (seq 0 n))
        scopes n ts 0 true [] 0 [].

Definition scopes3 : list (nat * nat) := [(0, 2); (2, 4); (4, 6)].

(** Three workers on a batch of 30, five timesteps, [dones] all-true at
    timestep 3 only. *)
Definition scenario : coord nat unit stub_agent stub_env :=
  sys 3 [(0, 10); (10, 20); (20, 30)] 30 5.

(** Three workers on a batch of 6, after start-up. *)
Definition agents3 : list stub_agent :=
  map (fun i => StubAgent 0 0 (100 * S i)) (seq 0 3).

Definition workers3 : list (worker nat unit stub_agent) :=
  boot_workers 3 scopes3 agents3.

Definition states6 : list nat := [10; 11; 12; 13; 14; 15].

(** The coordinator entering timestep 3, the environment having done
    three steps. *)
Definition at_timestep3 : coord nat unit stub_agent stub_env :=
  Coord (StubEnv 6 3 3 1 0) agents3 scopes3 3 5 0 true workers3 2 [].

(** The same one timestep earlier. *)
Definition at_timestep2 : coord nat unit stub_agent stub_env :=
  Coord (StubEnv 6 3 2 1 0) agents3 scopes3 3 5 0 true workers3 2 [].

(** The store holding the default configuration and a user dict. *)
Definition store2 : store :=
  <[1 := {["timesteps" := VInt 5]}]>
    (<[default_loc := PARALLEL_TRAINER_DEFAULT_CONFIG]> ∅).

Definition idle_worker : worker nat unit stub_agent :=
  Worker [] [] (0, 2) (Some (StubAgent 0 0 100)) None None 1 [] Running.

End Stub.

(** ** An environment in which no episode ends *)
Module Calm.

(** [dones] is all-false at every step; the environment counts the calls
    of [reset] and [step]. *)
Record calm_env := CalmEnv { size : nat; calls : nat }.

#[export] Instance calm_env_ops : Environment nat unit calm_env := {|
  reset e := ((S (calls e), seq 0 (size e)), CalmEnv (size e) (S (calls e)));
  step e actions :=
    ((actions, replicate (size e) 1, replicate (size e) 0, tt),
     CalmEnv (size e) (S (calls e)));
  render e := e;
  close e := e
|}.

End Calm.

(** ** Agents as objects of a class hierarchy

    [super(type(agent), agent).m] looks [m] up in the classes that follow
    [type(agent)] in its method resolution order; [agent.m] looks it up
    from [type(agent)] on.  The base class [Agent], which is not under
    src/, ends the order and defines both methods the evaluation command
    calls. *)
Module Hierarchy.

Definition record_method (row Info St : Type) : Type :=
  St -> option (list row) -> option (list row) ->
  list row -> list row -> list row -> Info -> pyval -> pyval -> St.

Definition post_method (St : Type) : Type := St -> pyval -> pyval -> St.

(** What a class defines itself of [record_transition] and
    [post_interaction]; [None] where it inherits the method. *)
Record klass (row Info St : Type) := Klass {
  def_record_transition : option (record_method row Info St);
  def_post_interaction : option (post_method St)
}.
Arguments Klass {row Info St}.
Arguments def_record_transition {row Info St}.
Arguments def_post_interaction {row Info St}.

(** An agent object: its attributes; [type(agent)]; the classes after it
    in the method resolution order, up to and not including the base
    class; the two methods of the base class; the other methods the
    trainer calls; whether [agent.memory] is set; the values of
    [agent.models]. *)
Record pyagent (row Info St : Type) := PyAgent {
  attrs : St;
  own_class : klass row Info St;
  ancestors : list (klass row Info St);
  base_record_transition : record_method row Info St;
  base_post_interaction : post_method St;
  m_init : St -> St;
  m_pre_interaction : St -> pyval -> pyval -> St;
  m_act : St -> list row -> pyval -> pyval -> list row * St;
  memory_set : bool;
  model_values : list model
}.
Arguments PyAgent {row Info St}.
Arguments attrs {row Info St}.
Arguments own_class {row Info St}.
Arguments ancestors {row Info St}.
Arguments base_record_transition {row Info St}.
Arguments base_post_interaction {row Info St}.
Arguments m_init {row Info St}.
Arguments m_pre_interaction {row Info St}.
Arguments m_act {row Info St}.
Arguments memory_set {row Info St}.
Arguments model_values {row Info St}.

(** The object with its attributes replaced. *)
Definition with_attrs {row Info St} (a : pyagent row Info St) (s : St)
  : pyagent row Info St :=
  PyAgent s (own_class a) (ancestors a) (base_record_transition a)
          (base_post_interaction a) (m_init a) (m_pre_interaction a) (m_act a)
          (memory_set a) (model_values a).

(** Method lookup along a resolution order that ends in the base class. *)
Fixpoint find_record {row Info St} (mro : list (klass row Info St))
    (base : record_method row Info St) : record_method row Info St :=
  match mro with
  | [] => base
  | k :: mro' =>
      match def_record_transition k with
      | Some f => f
      | None => find_record mro' base
      end
  end.

Fixpoint find_post {row Info St} (mro : list (klass row Info St))
    (base : post_method St) : post_method St :=
  match mro with
  | [] => base
  | k :: mro' =>
      match def_post_interaction k with
      | Some f => f
      | None => find_post mro' base
      end
  end.

#[export] Instance pyagent_ops {row Info St}
  : Agent row Info (pyagent row Info St) := {|
  init a := with_attrs a (m_init a (attrs a));
  pre_interaction a ts tss := with_attrs a (m_pre_interaction a (attrs a) ts tss);
  act a st ts tss :=
    (fst (m_act a (attrs a) st ts tss),
     with_attrs a (snd (m_act a (attrs a) st ts tss)));
  record_transition a st ac rw ns dn inf ts tss :=
    with_attrs a (find_record (own_class a :: ancestors a)
                              (base_record_transition a)
                              (attrs a) st ac rw ns dn inf ts tss);
  post_interaction a ts tss :=
    with_attrs a (find_post (own_class a :: ancestors a)
                            (base_post_interaction a) (attrs a) ts tss);
  super_record_transition a st ac rw ns dn inf ts tss :=
    with_attrs a (find_record (ancestors a) (base_record_transition a)
                              (attrs a) st ac rw ns dn inf ts tss);
  super_post_interaction a ts tss :=
    with_attrs a (find_post (ancestors a) (base_post_interaction a)
                            (attrs a) ts tss);
  has_memory := memory_set;
  models := model_values
|}.


(** Three classes over a counting state: the base class counts its calls
    in [based]; [learner] overrides both methods with learning code,
    counted in [learnt]; [tuned] derives from [learner] and overrides
    nothing. *)
Definition base_record : record_method nat unit Stub.stub_agent :=
  fun s _ _ _ _ _ _ _ _ =>
    Stub.StubAgent (Stub.learnt s) (S (Stub.based s)) (Stub.offset s).

Definition base_post : post_method Stub.stub_agent :=
  fun s _ _ =>
    Stub.StubAgent (Stub.learnt s) (S (Stub.based s)) (Stub.offset s).

Definition learner : klass nat unit Stub.stub_agent :=
  Klass (Some (fun s _ _ _ _ _ _ _ _ =>
                 Stub.StubAgent (S (Stub.learnt s)) (Stub.based s)
                                (Stub.offset s)))
        (Some (fun s _ _ =>
                 Stub.StubAgent (S (Stub.learnt s)) (Stub.based s)
                                (Stub.offset s))).

Definition tuned : klass nat unit Stub.stub_agent := Klass None None.

Definition counting (own : klass nat unit Stub.stub_agent)
    (anc : list (klass nat unit Stub.stub_agent)) (mos : list model)
  : pyagent nat unit Stub.stub_agent :=
  PyAgent (Stub.StubAgent 0 0 100) own anc base_record base_post
          (fun s => s) (fun s _ _ => s)
          (fun s st _ _ => (map (fun r => r + Stub.offset s) st, s))
          true mos.

(** An instance of [tuned], and a worker holding it with a transition in
    its queue. *)
Definition tuned_agent : pyagent nat unit Stub.stub_agent :=
  counting tuned [learner] [Model true].

Definition tuned_worker : worker nat unit (pyagent nat unit Stub.stub_agent) :=
  Worker [] [OTensor [1; 1]; OTensor [20; 21]; OTensor [0; 0]; OInfos tt]
         (0, 2) (Some tuned_agent) (Some [10; 11]) (Some [110; 111]) 1 []
         Running.

(** Agents one of whose models is [None]. *)
Definition bare_agents : list (pyagent nat unit Stub.stub_agent) :=
  [counting learner [] [Model true];
   counting learner [] [Model true; NoModel; Model true];
   counting learner [] []].

End Hierarchy.

(** * Validation of the scopes

    Modelled from the spec: the checks of [bootstrap(agents, scopes)].
    [ParallelTrainer.__init__] hands [agents] and [agents_scope] to the
    constructor of the base class [Trainer] (line 121), which is not
    among the sources.  By the spec it validates
    [len(agents) == len(scopes)] and that the scopes, each with
    [0 <= start < end <= batch_size], partition [[0, batch_size)] exactly
    once; it fails with [ConfigurationError] before any process is
    spawned, and otherwise one worker process per agent is spawned. *)

Definition covers (sc : nat * nat) (i : nat) : bool :=
  (fst sc <=? i) && (i <? snd sc).

Definition well_formed (batch_size : nat) (sc : nat * nat) : bool :=
  (fst sc <? snd sc) && (snd sc <=? batch_size).

Definition covering (scopes : list (nat * nat)) (i : nat) : nat :=
  length (List.filter (fun sc => covers sc i) scopes).

Definition tiles (scopes : list (nat * nat)) (batch_size : nat) : bool :=
  forallb (well_formed batch_size) scopes
  && forallb (fun i => covering scopes i =? 1) (seq 0 batch_size).

Inductive config_error := ConfigurationError.

(** The processes spawned, and the error raised if any. *)
Definition validate_and_spawn (num_agents : nat) (scopes : list (nat * nat))
    (batch_size : nat) : list nat * option config_error :=
  if negb (num_agents =? length scopes) then ([], Some ConfigurationError)
  else if negb (tiles scopes batch_size) then ([], Some ConfigurationError)
  else (range 0 num_agents, None).

(** The scopes partition [[0, batch_size)] exactly once. *)
Definition exact_tiling (scopes : list (nat * nat)) (batch_size : nat) : Prop :=
  Forall (fun sc => fst sc < snd sc <= batch_size) scopes /\
  forall i, i < batch_size -> covering scopes i = 1.

(** An index of the batch in no scope. *)
Definition has_gap (scopes : list (nat * nat)) (batch_size : nat) : Prop :=
  exists i, i < batch_size /\ Forall (fun sc => covers sc i = false) scopes.

(** An index in the scopes of two workers. *)
Definition has_overlap (scopes : list (nat * nat)) : Prop :=
  exists i j k sc1 sc2,
    j < k /\ scopes !! j = Some sc1 /\ scopes !! k = Some sc2 /\
    covers sc1 i = true /\ covers sc2 i = true.

(** * Vocabulary for further properties *)

Section MoreVocabulary.
Context {row Info Ag : Type} `{Agent row Info Ag}.

Definition is_render (ev : cevent row Info Ag) : bool :=
  match ev with EnvRender => true | _ => false end.

Definition is_send (ev : cevent row Info Ag) : bool :=
  match ev with Send _ _ => true | _ => false end.





(** The worker whose start-up failed on [args[3][process_index]]. *)
Definition dead : worker row Info Ag :=
  Worker [] [] (0, 0) None None None 0 [] (Stopped (Fault IndexError)).

(** The log of a worker after start-up and [init]. *)
Definition boot_log : list (wevent row Info Ag) :=
  [Barrier; Recv (mk_task "init"); CallInit; Barrier].

(** The coordinator's events up to its first [barrier.wait()]. *)
Definition spawn_events (n : nat) (ags : list Ag)
  : list (cevent row Info Ag) :=
  [MkBarrier (n + 1)]
  ++ flat_map (fun _ => [MkPipe; MkQueue]) (range 0 n)
  ++ share_events ags
  ++ map Spawn (range 0 n) ++ [Wait].

(** What a run asks of the environment over [k] timesteps: [k] calls of
    [step]; [k] calls of [render], or none when headless; the first
    [reset] and at most one more per timestep; one [close]. *)
Definition env_calls (k : nat) (hl : bool) (tr : list (cevent row Info Ag))
  : Prop :=
  count is_step tr = k /\
  count is_render tr = (if hl then 0 else k) /\
  1 <= count is_reset tr <= S k /\
  count is_close tr = 1.


(** The tasks whose branch looks a method up on [agent] before it does
    anything else: lines 53, 68, 81 and 86. *)
Definition agent_first_tasks : list pyval :=
  [VStr "pre_interaction"; VStr "record_transition"; VStr "post_interaction";
   VStr "eval-record_transition-post_interaction"].

(** The tasks whose branch reads nothing but [timestep] and [timesteps]
    from the message once the method is found. *)
Definition no_data_tasks : list pyval :=
  [VStr "pre_interaction"; VStr "post_interaction"].

(** Worker [w] after it received [m], with [p] still in its pipe, and
    died of fault [f] in the branch of [m]. *)
Definition faulted (f : fault) (m : msg) (p : list msg)
    (w : worker row Info Ag) : worker row Info Ag :=
  Worker p (queue w) (scope w) (agent w) (_states w) (_actions w) (waits w)
         (log w ++ [Recv m]) (Stopped (Fault f)).

(** Worker [w] after it received [m], with [p] still in its pipe, and
    left the loop. *)
Definition exited (m : msg) (p : list msg) (w : worker row Info Ag)
  : worker row Info Ag :=
  Worker p (queue w) (scope w) (agent w) (_states w) (_actions w) (waits w)
         (log w ++ [Recv m]) Exited.

Definition is_copy (ev : cevent row Info Ag) : bool :=
  match ev with CopyInPlace => true | _ => false end.

(** [dones] in the tuple [env.step] returns. *)
Definition dones_of (r : list row * list row * list row * Info) : list row :=
  let '(_, _, dones, _) := r in dones.

(** Nothing is left in the worker's pipe or queue, and it has received
    [k] commands. *)
Definition drained (k : nat) (w : worker row Info Ag) : Prop :=
  pipe w = [] /\ queue w = [] /\ length (received (log w)) = k.

End MoreVocabulary.

(** * Properties *)

Section Facts.
Context {row Info Ag E : Type} `{Agent row Info Ag} `{Environment row Info E}.
Implicit Types (w : worker row Info Ag) (c : coord row Info Ag E).
Implicit Types (m : msg) (ws : list (worker row Info Ag)).
Implicit Types (tr : list (cevent row Info Ag)) (os : list (obj row Info Ag)).

(** ** Messages *)

Lemma mk_msg_task task ts tss : mk_msg task ts tss !! "task" = Some (VStr task).
Proof. reflexivity. Qed.

Lemma mk_msg_timestep task ts tss :
  mk_msg task ts tss !! "timestep" = Some (VInt (Z.of_nat ts)).
Proof. reflexivity. Qed.

Lemma mk_msg_timesteps task ts tss :
  mk_msg task ts tss !! "timesteps" = Some (VInt (Z.of_nat tss)).
Proof. reflexivity. Qed.

Lemma mk_task_task task : mk_task task !! "task" = Some (VStr task).
Proof. reflexivity. Qed.

(** ** Which branch a task selects *)

Ltac pick_branch :=
  repeat match goal with
         | |- context [decide (VStr ?a = VStr ?b)] =>
             destruct (decide (VStr a = VStr b)) as [?E|?E];
             [ try discriminate | try congruence ]
         end.

Lemma dispatch_task m v w :
  m !! "task" = Some v ->
  dispatch m w =
  (if decide (v = VStr "terminate") then ret Break
   else if decide (v = VStr "init") then on_init
   else if decide (v = VStr "pre_interaction") then on_pre_interaction m
   else if decide (v = VStr "act") then on_act m
   else if decide (v = VStr "record_transition") then on_record_transition m
   else if decide (v = VStr "post_interaction") then on_post_interaction m
   else if decide (v = VStr "eval-record_transition-post_interaction")
        then on_eval_record_post m
   else ret Again) w.
Proof. intros Hm. unfold dispatch, bind at 1, getitem. now rewrite Hm. Qed.

Lemma dispatch_terminate w : dispatch (mk_task "terminate") w = (inr Break, w).
Proof. rewrite (dispatch_task _ _ _ (mk_task_task _)). now pick_branch. Qed.

Lemma dispatch_init w : dispatch (mk_task "init") w = on_init w.
Proof. rewrite (dispatch_task _ _ _ (mk_task_task _)). now pick_branch. Qed.

Lemma dispatch_pre ts tss w :
  dispatch (mk_msg "pre_interaction" ts tss) w
  = on_pre_interaction (mk_msg "pre_interaction" ts tss) w.
Proof. rewrite (dispatch_task _ _ _ (mk_msg_task _ _ _)). now pick_branch. Qed.

Lemma dispatch_act ts tss w :
  dispatch (mk_msg "act" ts tss) w = on_act (mk_msg "act" ts tss) w.
Proof. rewrite (dispatch_task _ _ _ (mk_msg_task _ _ _)). now pick_branch. Qed.

Lemma dispatch_record ts tss w :
  dispatch (mk_msg "record_transition" ts tss) w
  = on_record_transition (mk_msg "record_transition" ts tss) w.
Proof. rewrite (dispatch_task _ _ _ (mk_msg_task _ _ _)). now pick_branch. Qed.

Lemma dispatch_post ts tss w :
  dispatch (mk_msg "post_interaction" ts tss) w
  = on_post_interaction (mk_msg "post_interaction" ts tss) w.
Proof. rewrite (dispatch_task _ _ _ (mk_msg_task _ _ _)). now pick_branch. Qed.

Lemma dispatch_eval ts tss w :
  dispatch (mk_msg "eval-record_transition-post_interaction" ts tss) w
  = on_eval_record_post
      (mk_msg "eval-record_transition-post_interaction" ts tss) w.
Proof. rewrite (dispatch_task _ _ _ (mk_msg_task _ _ _)). now pick_branch. Qed.

(** ** Slices *)

Lemma slice_length a b (t : list row) :
  a <= b -> b <= length t -> length (slice a b t) = b - a.
Proof.
  intros Hab Hb. unfold slice. rewrite length_drop, length_take. lia.
Qed.

Lemma slice_lookup a b (t : list row) i :
  i < b - a -> slice a b t !! i = t !! (a + i).
Proof.
  intros Hi. unfold slice. rewrite lookup_drop, lookup_take_lt by lia. done.
Qed.

(** ** The handlers, run on a worker that holds an agent *)

Lemma getitem_timestep task ts tss w :
  getitem (mk_msg task ts tss) "timestep" w = (inr (VInt (Z.of_nat ts)), w).
Proof. reflexivity. Qed.

Lemma getitem_timesteps task ts tss w :
  getitem (mk_msg task ts tss) "timesteps" w = (inr (VInt (Z.of_nat tss)), w).
Proof. reflexivity. Qed.

Opaque mk_msg mk_task.

Ltac run_handler :=
  unfold bind, get_slice, get_infos, bind, queue_get, the_agent; simpl;
  repeat (progress (rewrite ?getitem_timestep, ?getitem_timesteps; simpl));
  rewrite <- ?app_assoc; simpl.

Lemma on_act_run ts tss w a (t : list row) q :
  agent w = Some a -> queue w = OTensor t :: q ->
  let st := slice (fst (scope w)) (snd (scope w)) t in
  let r := act a st (VInt (Z.of_nat ts)) (VInt (Z.of_nat tss)) in
  on_act (mk_msg "act" ts tss) w =
  (inr Again,
   Worker (pipe w) (q ++ [OTensor (fst r)]) (scope w) (Some (snd r))
          (Some st) (Some (fst r)) (S (waits w))
          (log w ++ [CallAct st (VInt (Z.of_nat ts)) (VInt (Z.of_nat tss));
                     Put (OTensor (fst r)); Barrier])
          (stat w)).
Proof.
  destruct w as [p q0 sc ag s0 a0 n lg s]; simpl. intros -> ->.
  unfold on_act. now run_handler.
Qed.

Lemma on_record_run ts tss w a rw ns dn inf q :
  agent w = Some a ->
  queue w = OTensor rw :: OTensor ns :: OTensor dn :: OInfos inf :: q ->
  let sl := slice (fst (scope w)) (snd (scope w)) in
  let vt := VInt (Z.of_nat ts) in
  let vT := VInt (Z.of_nat tss) in
  on_record_transition (mk_msg "record_transition" ts tss) w =
  (inr Again,
   Worker (pipe w) q (scope w)
          (Some (record_transition a (_states w) (_actions w)
                                   (sl rw) (sl ns) (sl dn) inf vt vT))
          (_states w) (_actions w) (S (waits w))
          (log w ++ [CallRecord (_states w) (_actions w)
                                (sl rw) (sl ns) (sl dn) inf vt vT; Barrier])
          (stat w)).
Proof.
  destruct w as [p q0 sc ag s0 a0 n lg s]; simpl. intros -> ->.
  unfold on_record_transition. now run_handler.
Qed.

(** ** One command on a ready worker *)

Lemma ready_eta g w :
  ready g w ->
  exists a, w = Worker [] [] (scope w) (Some a) (_states w) (_actions w) g
                       (log w) Running.
Proof.
  destruct w as [p q sc ag st ac n lg s]. unfold ready; simpl.
  intros (-> & -> & -> & -> & [a ->]). now exists a.
Qed.

Ltac ready_worker Hr :=
  match type of Hr with
  | ready _ ?w =>
      let a := fresh "a" in let Hw := fresh "Hw" in
      destruct (ready_eta _ _ Hr) as [a Hw];
      destruct w as [?p ?q ?sc ?ag ?st ?ac ?n ?lg ?s];
      simpl in Hw; injection Hw as -> -> -> -> ->
  end.

Lemma on_pre_run ts tss w a :
  agent w = Some a ->
  on_pre_interaction (mk_msg "pre_interaction" ts tss) w =
  (inr Again,
   Worker (pipe w) (queue w) (scope w)
          (Some (pre_interaction a (nat_val ts) (nat_val tss)))
          (_states w) (_actions w) (S (waits w))
          (log w ++ [CallPre (nat_val ts) (nat_val tss); Barrier]) (stat w)).
Proof.
  destruct w as [p q0 sc ag s0 a0 n lg s]; simpl. intros ->.
  unfold on_pre_interaction. now run_handler.
Qed.

Lemma on_post_run ts tss w a :
  agent w = Some a ->
  on_post_interaction (mk_msg "post_interaction" ts tss) w =
  (inr Again,
   Worker (pipe w) (queue w) (scope w)
          (Some (post_interaction a (nat_val ts) (nat_val tss)))
          (_states w) (_actions w) (S (waits w))
          (log w ++ [CallPost (nat_val ts) (nat_val tss); Barrier]) (stat w)).
Proof.
  destruct w as [p q0 sc ag s0 a0 n lg s]; simpl. intros ->.
  unfold on_post_interaction. now run_handler.
Qed.

Lemma on_eval_run ts tss w a rw ns dn inf q :
  agent w = Some a ->
  queue w = OTensor rw :: OTensor ns :: OTensor dn :: OInfos inf :: q ->
  let sl := slice (fst (scope w)) (snd (scope w)) in
  let vt := nat_val ts in
  let vT := nat_val tss in
  on_eval_record_post
    (mk_msg "eval-record_transition-post_interaction" ts tss) w =
  (inr Again,
   Worker (pipe w) q (scope w)
          (Some (super_post_interaction
                   (super_record_transition a (_states w) (_actions w)
                      (sl rw) (sl ns) (sl dn) inf vt vT) vt vT))
          (_states w) (_actions w) (S (waits w))
          (log w ++ [CallSuperRecord (_states w) (_actions w)
                                     (sl rw) (sl ns) (sl dn) inf vt vT;
                     CallSuperPost vt vT; Barrier])
          (stat w)).
Proof.
  destruct w as [p q0 sc ag s0 a0 n lg s]; simpl. intros -> ->.
  unfold on_eval_record_post. now run_handler.
Qed.

Lemma on_init_run w a q :
  queue w = OAgent a :: q ->
  on_init w =
  (inr Again,
   Worker (pipe w) q (scope w) (Some (init a)) (_states w) (_actions w)
          (S (waits w)) (log w ++ [CallInit; Barrier]) (stat w)).
Proof.
  destruct w as [p q0 sc ag s0 a0 n lg s]; simpl. intros ->.
  unfold on_init. now run_handler.
Qed.

(** A worker that finds exactly one command, and whose handler ends at the
    barrier. *)
Lemma serve_single g m w w' :
  stat w = Running -> waits w = g ->
  dispatch m (emit (Recv m) (set_pipe [] w)) = (inr Again, w') ->
  stat w' = Running -> waits w' = S g -> pipe w' = [] ->
  serve (S g) [m] w = w'.
Proof.
  intros Hs Hg Hd Hs' Hg' Hp. cbn [serve]. rewrite Hs.
  destruct (decide (S g <= waits w)); [lia|].
  unfold recv_one. rewrite Hd. cbn [serve]. rewrite Hs'.
  destruct (decide (S g <= waits w')); [|lia].
  destruct w'; simpl in *. now subst.
Qed.

Ltac norm_worker :=
  unfold emit, set_pipe, set_queue;
  cbn [pipe queue scope agent _states _actions waits log stat app].

Ltac one_command :=
  unfold run_until, push; norm_worker;
  apply serve_single;
    [reflexivity | reflexivity | | reflexivity | reflexivity | reflexivity];
  norm_worker.

Lemma run_pre g ts tss w :
  ready g w ->
  run_until (S g) (push (mk_msg "pre_interaction" ts tss) [] w)
  = after_pre ts tss w.
Proof.
  intros Hr. ready_worker Hr. one_command.
  rewrite dispatch_pre. erewrite on_pre_run by reflexivity.
  unfold after_pre, on_agent. norm_worker.
  now rewrite <- app_assoc.
Qed.

Lemma run_act g ts tss states w :
  ready g w ->
  run_until (S g) (push (mk_msg "act" ts tss) [OTensor states] w)
  = after_act ts tss states w.
Proof.
  intros Hr. ready_worker Hr. one_command.
  rewrite dispatch_act. erewrite on_act_run by reflexivity.
  unfold after_act, on_agent, own, nat_val. norm_worker.
  now rewrite <- app_assoc.
Qed.

Lemma run_record g ts tss rw ns dn inf w :
  ready g w ->
  run_until (S g)
    (push (mk_msg "record_transition" ts tss)
          [OTensor rw; OTensor ns; OTensor dn; OInfos inf] w)
  = after_record ts tss rw ns dn inf w.
Proof.
  intros Hr. ready_worker Hr. one_command.
  rewrite dispatch_record. erewrite on_record_run by reflexivity.
  unfold after_record, on_agent, own, nat_val. norm_worker.
  now rewrite <- app_assoc.
Qed.

Lemma run_post g ts tss w :
  ready g w ->
  run_until (S g) (push (mk_msg "post_interaction" ts tss) [] w)
  = after_post ts tss w.
Proof.
  intros Hr. ready_worker Hr. one_command.
  rewrite dispatch_post. erewrite on_post_run by reflexivity.
  unfold after_post, on_agent. norm_worker.
  now rewrite <- app_assoc.
Qed.

Lemma run_eval g ts tss rw ns dn inf w :
  ready g w ->
  run_until (S g)
    (push (mk_msg "eval-record_transition-post_interaction" ts tss)
          [OTensor rw; OTensor ns; OTensor dn; OInfos inf] w)
  = after_eval ts tss rw ns dn inf w.
Proof.
  intros Hr. ready_worker Hr. one_command.
  rewrite dispatch_eval. erewrite on_eval_run by reflexivity.
  unfold after_eval, on_agent, own. norm_worker.
  now rewrite <- app_assoc.
Qed.

Lemma run_terminate g w :
  ready g w ->
  run_until (S g) (push (mk_task "terminate") [] w) = after_terminate w.
Proof.
  intros Hr. ready_worker Hr.
  unfold run_until, push; norm_worker. cbn [serve stat waits].
  destruct (decide (S g <= g)); [lia|].
  unfold recv_one. rewrite dispatch_terminate. reflexivity.
Qed.

(** A worker that has just started: arrived at the first generation, no
    agent yet. *)
Lemma run_init sc a :
  run_until 2 (push (mk_task "init") [OAgent a] (started sc))
  = after_init a (started sc).
Proof.
  unfold started, run_until, push; norm_worker.
  apply serve_single;
    [reflexivity | reflexivity | | reflexivity | reflexivity | reflexivity].
  norm_worker.
  rewrite dispatch_init. erewrite on_init_run by reflexivity.
  unfold after_init. norm_worker. reflexivity.
Qed.

(** Every command leaves a ready worker ready, one generation on. *)
Lemma ready_after_pre g ts tss w : ready g w -> ready (S g) (after_pre ts tss w).
Proof.
  intros Hr. ready_worker Hr. unfold ready, after_pre, on_agent; simpl. eauto 10.
Qed.

Lemma ready_after_act g ts tss states w :
  ready g w -> ready (S g) (take_one (after_act ts tss states w)).
Proof.
  intros Hr. ready_worker Hr.
  unfold ready, after_act, on_agent, take_one; simpl. eauto 10.
Qed.

Lemma ready_after_record g ts tss rw ns dn inf w :
  ready g w -> ready (S g) (after_record ts tss rw ns dn inf w).
Proof.
  intros Hr. ready_worker Hr.
  unfold ready, after_record, on_agent; simpl. eauto 10.
Qed.

Lemma ready_after_post g ts tss w :
  ready g w -> ready (S g) (after_post ts tss w).
Proof.
  intros Hr. ready_worker Hr. unfold ready, after_post, on_agent; simpl. eauto 10.
Qed.

Lemma ready_after_eval g ts tss rw ns dn inf w :
  ready g w -> ready (S g) (after_eval ts tss rw ns dn inf w).
Proof.
  intros Hr. ready_worker Hr.
  unfold ready, after_eval, on_agent; simpl. eauto 10.
Qed.

(** ** Running monadic code *)

Lemma bind_ok {St X Y} (mx : M St X) (k : X -> M St Y) s x s' :
  mx s = (inr x, s') -> bind mx k s = k x s'.
Proof. intros Hm. unfold bind. now rewrite Hm. Qed.

Lemma bind_stop {St X Y} (mx : M St X) (k : X -> M St Y) s e s' :
  mx s = (inl e, s') -> bind mx k s = (inl e, s').
Proof. intros Hm. unfold bind. now rewrite Hm. Qed.

Lemma bind_gets {St X Y} (f : St -> X) (k : X -> M St Y) s :
  bind (gets f) k s = k (f s) s.
Proof. reflexivity. Qed.

Lemma bind_assoc {St X Y Z} (mx : M St X) (k : X -> M St Y)
    (k' : Y -> M St Z) s :
  bind mx (fun x => bind (k x) k') s = bind (bind mx k) k' s.
Proof. unfold bind. destruct (mx s) as [[?|?] ?]; reflexivity. Qed.

(** ** Loops of the coordinator that touch worker [i] at iteration [i] *)

Section PerWorker.
Variables (e : E) (ags : list Ag) (scs : list (nat * nat)) (n T t0 : nat)
          (hl : bool) (g : nat).
Variable body : nat -> C (row := row) (Info := Info) (Ag := Ag) (E := E) unit.
Variable f : nat -> worker row Info Ag -> worker row Info Ag.
Variable ev : nat -> list (cevent row Info Ag).
Hypothesis body_eq : forall i ws tr,
  body i (Coord e ags scs n T t0 hl ws g tr)
  = (inr tt, Coord e ags scs n T t0 hl (alter (f i) i ws) g (tr ++ ev i)).

Lemma for_each_workers_from suf : forall pre tr,
  for_each (seq (length pre) (length suf)) body
           (Coord e ags scs n T t0 hl (pre ++ suf) g tr)
  = (inr tt,
     Coord e ags scs n T t0 hl
           (pre ++ imap (fun j => f (length pre + j)) suf) g
           (tr ++ flat_map ev (seq (length pre) (length suf)))).
Proof.
  induction suf as [|x suf IH]; intros pre tr.
  - simpl. now rewrite !app_nil_r.
  - cbn [length seq for_each flat_map].
    rewrite (bind_ok _ _ _ _ _ (body_eq _ _ _)).
    rewrite alter_app_r_alt by lia. rewrite Nat.sub_diag.
    cbn [alter list_alter].
    replace (pre ++ f (length pre) x :: suf)
      with ((pre ++ [f (length pre) x]) ++ suf) by now rewrite <- app_assoc.
    replace (S (length pre)) with (length (pre ++ [f (length pre) x]))
      by (rewrite length_app; simpl; lia).
    rewrite IH. rewrite <- !app_assoc.
    rewrite imap_cons, Nat.add_0_r.
    assert (Hi : imap (fun j => f (length (pre ++ [f (length pre) x]) + j)) suf
                 = imap ((fun j => f (length pre + j)) ∘ S) suf).
    { apply imap_ext. intros j y _. simpl.
      f_equal. rewrite length_app. simpl. lia. }
    now rewrite Hi.
Qed.

Lemma for_each_workers ws tr :
  for_each (range 0 (length ws)) body (Coord e ags scs n T t0 hl ws g tr)
  = (inr tt,
     Coord e ags scs n T t0 hl (imap f ws) g
           (tr ++ flat_map ev (range 0 (length ws)))).
Proof.
  unfold range. rewrite Nat.sub_0_r.
  apply (for_each_workers_from ws [] tr).
Qed.

End PerWorker.

Lemma for_each_push (body : nat -> C (row := row) (Info := Info) unit)
    m os evf (e : E) (ags : list Ag) scs n T t0 hl g :
  (forall i ws tr,
     body i (Coord e ags scs n T t0 hl ws g tr)
     = (inr tt, Coord e ags scs n T t0 hl (alter (push m os) i ws) g
                      (tr ++ evf i))) ->
  forall ws tr,
    n = length ws ->
    for_each (range 0 n) body (Coord e ags scs n T t0 hl ws g tr)
    = (inr tt, Coord e ags scs n T t0 hl (map (push m os) ws) g
                     (tr ++ flat_map evf (range 0 n))).
Proof.
  intros Hb ws tr ->.
  rewrite (for_each_workers e ags scs _ T t0 hl g body
             (fun _ => push m os) evf Hb).
  now rewrite <- (imap_const (push m os)).
Qed.

Lemma alter_twice {X} (f h : X -> X) (l : list X) : forall i,
  alter f i (alter h i l) = alter (fun x => f (h x)) i l.
Proof.
  induction l as [|x l IH]; intros [|i]; simpl; try reflexivity.
  f_equal. apply IH.
Qed.

Lemma push_nil m w : set_pipe (pipe w ++ [m]) w = push m [] w.
Proof. destruct w; unfold push; simpl. now rewrite app_nil_r. Qed.

(** The barrier after a phase: each ready worker finds one command. *)
Lemma cbarrier_phase m os (F : worker row Info Ag -> worker row Info Ag)
    (e : E) (ags : list Ag) scs n T t0 hl g ws tr :
  (forall w, ready g w -> run_until (S g) (push m os w) = F w) ->
  (forall w, ready g w -> waits (F w) = S g) ->
  Forall (ready g) ws ->
  cbarrier_wait (Coord e ags scs n T t0 hl (map (push m os) ws) g tr)
  = (inr tt, Coord e ags scs n T t0 hl (map F ws) (S g) (tr ++ [Wait])).
Proof.
  intros HF Hw Hr. unfold cbarrier_wait, bind, cnote, modify, gets; simpl.
  assert (Hm : map (run_until (S g)) (map (push m os) ws) = map F ws).
  { rewrite map_map. apply map_ext_Forall.
    eapply Forall_impl; [exact Hr|]. intros w Hrw. now apply HF. }
  rewrite Hm.
  assert (Ha : forallb (fun w => bool_decide (S g <= waits w)) (map F ws) = true).
  { apply forallb_forall. intros w' Hin. apply in_map_iff in Hin as (w & <- & Hin).
    rewrite Forall_forall in Hr. apply bool_decide_eq_true.
    rewrite Hw; [lia|]. apply Hr. now apply list_elem_of_In. }
  now rewrite Ha.
Qed.

Section Bodies.
Variables (e : E) (ags : list Ag) (scs : list (nat * nat)) (n T t0 : nat)
          (hl : bool) (g : nat).
Abbreviation st ws tr := (Coord e ags scs n T t0 hl ws g tr).

Lemma send_body m i ws tr :
  send i m (st ws tr)
  = (inr tt, st (alter (push m []) i ws) (tr ++ Send i m :: map (QPut i) [])).
Proof.
  unfold send, bind, cnote, modify, set_workers, note; simpl. do 2 f_equal.
  apply list_alter_ext; [|done]. intros w _. apply push_nil.
Qed.

Lemma send_put_body m o i ws tr :
  (send i m ;; cput i o) (st ws tr)
  = (inr tt, st (alter (push m [o]) i ws) (tr ++ Send i m :: map (QPut i) [o])).
Proof.
  unfold send, cput, bind, cnote, modify, set_workers, note; simpl.
  rewrite alter_twice, <- app_assoc. reflexivity.
Qed.

Lemma send_put4_body m o1 o2 o3 o4 i ws tr :
  (send i m ;; cput i o1 ;; cput i o2 ;; cput i o3 ;; cput i o4) (st ws tr)
  = (inr tt, st (alter (push m [o1; o2; o3; o4]) i ws)
                (tr ++ Send i m :: map (QPut i) [o1; o2; o3; o4])).
Proof.
  cbv [send cput bind cnote modify set_workers note workers env agents
       agents_scope num_agents timesteps initial_timestep headless gen trace].
  rewrite !alter_twice, <- !app_assoc. cbn [app map]. do 2 f_equal.
  apply list_alter_ext; [|done]. intros w _.
  destruct w; unfold push; simpl. now rewrite <- !app_assoc.
Qed.

Lemma phase_run (body : nat -> C (row := row) (Info := Info) unit) m os
    (F : worker row Info Ag -> worker row Info Ag) ws tr :
  (forall i ws tr,
     body i (st ws tr)
     = (inr tt, st (alter (push m os) i ws)
                   (tr ++ Send i m :: map (QPut i) os))) ->
  (forall w, ready g w -> run_until (S g) (push m os w) = F w) ->
  (forall w, ready g w -> ready (S g) (F w) \/ waits (F w) = S g) ->
  Forall (ready g) ws ->
  n = length ws ->
  (for_each (range 0 n) body ;; cbarrier_wait) (st ws tr)
  = (inr tt, Coord e ags scs n T t0 hl (map F ws) (S g)
                   (tr ++ sends n m os ++ [Wait])).
Proof.
  intros Hb HF Hw Hr Hn.
  rewrite (bind_ok _ _ _ _ _
             (for_each_push body m os _ e ags scs n T t0 hl g Hb ws tr Hn)).
  rewrite (cbarrier_phase m os F); try assumption.
  - unfold sends. now rewrite <- app_assoc.
  - intros w Hrw. destruct (Hw w Hrw) as [(_ & Hg & _)|Hg]; exact Hg.
Qed.

(** [[queue.get() for queue in queues]] when every queue holds something. *)
Lemma collect_cget_from suf : forall pre tr,
  Forall (fun w => queue w <> []) suf ->
  collect (seq (length pre) (length suf)) cget (st (pre ++ suf) tr)
  = (inr (omap (fun w => head (queue w)) suf),
     st (pre ++ map take_one suf)
        (tr ++ map QGet (seq (length pre) (length suf)))).
Proof.
  induction suf as [|x suf IH]; intros pre tr Hq.
  - simpl. now rewrite !app_nil_r.
  - apply Forall_cons in Hq as [Hx Hq].
    cbn [length seq collect map].
    assert (Hg : exists o q, queue x = o :: q).
    { destruct (queue x) as [|o q]; [done|eauto]. }
    destruct Hg as (o & q & Hxq).
    assert (Hc : cget (length pre) (st (pre ++ x :: suf) tr)
                 = (inr o, st ((pre ++ [take_one x]) ++ suf)
                              (tr ++ [QGet (length pre)]))).
    { unfold cget, bind, cnote, gets, modify, set_workers, note; simpl.
      rewrite list_lookup_middle by done. rewrite Hxq. simpl.
      rewrite <- app_assoc. simpl. do 3 f_equal.
      replace (length pre) with (length pre + 0) by lia.
      rewrite insert_app_r. simpl. unfold take_one. now rewrite Hxq. }
    rewrite (bind_ok _ _ _ _ _ Hc).
    replace (S (length pre)) with (length (pre ++ [take_one x]))
      by (rewrite length_app; simpl; lia).
    rewrite (bind_ok _ _ _ _ _ (IH _ _ Hq)).
    unfold ret. simpl. rewrite Hxq. simpl.
    now rewrite <- !app_assoc.
Qed.

Lemma collect_cget ws tr :
  Forall (fun w => queue w <> []) ws ->
  collect (range 0 (length ws)) cget (st ws tr)
  = (inr (omap (fun w => head (queue w)) ws),
     st (map take_one ws) (tr ++ map QGet (range 0 (length ws)))).
Proof.
  intros Hq. unfold range. rewrite Nat.sub_0_r.
  apply (collect_cget_from ws [] tr Hq).
Qed.

End Bodies.

(** ** The phases of a timestep, from a state where all workers are ready *)

Lemma omap_map_total {X Y Z} (h : X -> Y) (f : Y -> option Z) (k : X -> Z)
    (P : X -> Prop) (l : list X) :
  (forall x, P x -> f (h x) = Some (k x)) ->
  Forall P l ->
  omap f (map h l) = map k l.
Proof.
  intros Hf. induction 1 as [|x l Hx _ IH]; [reflexivity|].
  cbn. rewrite (Hf x Hx). cbn. now f_equal.
Qed.

Lemma heads_after_act g ts tss states ws :
  Forall (ready g) ws ->
  omap (fun w => head (queue w)) (map (after_act ts tss states) ws)
  = map (fun w => OTensor (actions_of ts tss states w)) ws.
Proof.
  apply omap_map_total. intros w Hr. ready_worker Hr. reflexivity.
Qed.

Lemma ready_eta_waits g ts tss states w :
  ready g w ->
  stat (after_act ts tss states w) = Running /\
  waits (after_act ts tss states w) = S g /\
  queue (after_act ts tss states w) <> [].
Proof.
  intros Hr. ready_worker Hr. unfold after_act, on_agent.
  cbn [stat waits queue agent]. repeat split. discriminate.
Qed.

Lemma after_act_queue g ts tss states ws :
  Forall (ready g) ws ->
  Forall (fun w => queue w <> []) (map (after_act ts tss states) ws).
Proof.
  intros Hr. apply Forall_map. eapply Forall_impl; [exact Hr|].
  intros w Hw. simpl. now apply (ready_eta_waits g).
Qed.

Lemma tensors_map {X} (h : X -> list row) (l : list X) :
  tensors (map (fun x => OTensor (Ag := Ag) (Info := Info) (h x)) l)
  = Some (map h l).
Proof. induction l as [|x l IH]; simpl; [done|]. now rewrite IH. Qed.

Section Phases.
Variable nonzero : row -> bool.
Variables (ags : list Ag) (scs : list (nat * nat)) (n T t0 : nat) (hl : bool).
Abbreviation st e ws g tr := (Coord e ags scs n T t0 hl ws g tr).

Lemma broadcast_pre_run ts (e : E) ws g tr :
  Forall (ready g) ws -> n = length ws ->
  broadcast "pre_interaction" ts (st e ws g tr)
  = (inr tt, st e (map (after_pre ts T) ws) (S g)
                (tr ++ sends n (mk_msg "pre_interaction" ts T) [] ++ [Wait])).
Proof.
  intros Hr Hn.
  apply (phase_run e ags scs n T t0 hl g
           (fun i => send i (mk_msg "pre_interaction" ts T))); try assumption.
  - intros. apply send_body.
  - intros. now apply run_pre.
  - intros. left. now apply ready_after_pre.
Qed.

Lemma broadcast_post_run ts (e : E) ws g tr :
  Forall (ready g) ws -> n = length ws ->
  broadcast "post_interaction" ts (st e ws g tr)
  = (inr tt, st e (map (after_post ts T) ws) (S g)
                (tr ++ sends n (mk_msg "post_interaction" ts T) [] ++ [Wait])).
Proof.
  intros Hr Hn.
  apply (phase_run e ags scs n T t0 hl g
           (fun i => send i (mk_msg "post_interaction" ts T))); try assumption.
  - intros. apply send_body.
  - intros. now apply run_post.
  - intros. left. now apply ready_after_post.
Qed.

Lemma send_record_run ts rw ns dn inf (e : E) ws g tr :
  Forall (ready g) ws -> n = length ws ->
  send_transition "record_transition" ts rw ns dn inf (st e ws g tr)
  = (inr tt, st e (map (after_record ts T rw ns dn inf) ws) (S g)
                (tr ++ sends n (mk_msg "record_transition" ts T)
                         [OTensor rw; OTensor ns; OTensor dn; OInfos inf]
                    ++ [Wait])).
Proof.
  intros Hr Hn.
  apply (phase_run e ags scs n T t0 hl g
           (fun i => send i (mk_msg "record_transition" ts T) ;;
                     cput i (OTensor rw) ;; cput i (OTensor ns) ;;
                     cput i (OTensor dn) ;; cput i (OInfos inf)));
    try assumption.
  - intros. apply send_put4_body.
  - intros. now apply run_record.
  - intros. left. now apply ready_after_record.
Qed.

Lemma send_eval_run ts rw ns dn inf (e : E) ws g tr :
  Forall (ready g) ws -> n = length ws ->
  send_transition "eval-record_transition-post_interaction" ts rw ns dn inf
                  (st e ws g tr)
  = (inr tt, st e (map (after_eval ts T rw ns dn inf) ws) (S g)
                (tr ++ sends n (mk_msg "eval-record_transition-post_interaction"
                                       ts T)
                         [OTensor rw; OTensor ns; OTensor dn; OInfos inf]
                    ++ [Wait])).
Proof.
  intros Hr Hn.
  apply (phase_run e ags scs n T t0 hl g
           (fun i => send i (mk_msg "eval-record_transition-post_interaction"
                                    ts T) ;;
                     cput i (OTensor rw) ;; cput i (OTensor ns) ;;
                     cput i (OTensor dn) ;; cput i (OInfos inf)));
    try assumption.
  - intros. apply send_put4_body.
  - intros. now apply run_eval.
  - intros. left. now apply ready_after_eval.
Qed.

Lemma compute_actions_run ts states (e : E) ws g tr :
  Forall (ready g) ws -> n = length ws -> 0 < n ->
  compute_actions ts states (st e ws g tr)
  = (inr (vstack (map (actions_of ts T states) ws)),
     st e (map (fun w => take_one (after_act ts T states w)) ws) (S g)
        (tr ++ sends n (mk_msg "act" ts T) [OTensor states] ++ [Wait]
            ++ map QGet (range 0 n))).
Proof.
  intros Hr Hn Hpos.
  change (compute_actions ts states (st e ws g tr))
    with (bind (for_each (range 0 n)
                  (fun i => send i (mk_msg "act" ts T) ;;
                            cput i (OTensor states)))
               (fun _ => bind cbarrier_wait (fun _ => gather n))
               (st e ws g tr)).
  rewrite bind_assoc.
  rewrite (bind_ok _ _ _ _ _
             (phase_run e ags scs n T t0 hl g _ (mk_msg "act" ts T)
                [OTensor states] (after_act ts T states) ws tr
                (fun i ws tr => send_put_body e ags scs n T t0 hl g _ _ i ws tr)
                (fun w Hw => run_act g ts T states w Hw)
                (fun w Hw => or_intror
                   (proj1 (proj2 (ready_eta_waits g ts T states w Hw))))
                Hr Hn)).
  unfold gather.
  pose proof (collect_cget e ags scs n T t0 hl (S g) _
                (tr ++ sends n (mk_msg "act" ts T) [OTensor states] ++ [Wait])
                (after_act_queue g ts T states ws Hr)) as Hc.
  rewrite length_map, <- Hn in Hc.
  rewrite (bind_ok _ _ _ _ _ Hc).
  rewrite (heads_after_act g) by assumption.
  rewrite tensors_map, map_map.
  destruct ws as [|w ws']; [simpl in Hn; lia|].
  cbn [map]. unfold ret. now rewrite <- !app_assoc.
Qed.

Lemma env_step_run actions (e : E) ws g tr :
  env_step actions (st e ws g tr)
  = (inr (fst (step e actions)),
     st (snd (step e actions)) ws g (tr ++ [EnvStep actions])).
Proof. reflexivity. Qed.

Lemma render_run (e : E) ws g tr :
  (if hl then ret tt else env_render) (st e ws g tr)
  = (inr tt, st (if hl then e else render e) ws g (tr ++ render_events hl)).
Proof.
  unfold render_events. destruct hl; [|reflexivity].
  unfold ret. now rewrite app_nil_r.
Qed.

Lemma reset_check_run dn ns (states : tobj row) (e : E) ws g tr :
  reset_check nonzero dn ns states (st e ws g tr)
  = (inr (if any nonzero dn then fst (reset e) else (fst states, ns)),
     st (if any nonzero dn then snd (reset e) else e) ws g
        (tr ++ reset_events nonzero dn)).
Proof.
  unfold reset_check, reset_events. destruct (any nonzero dn); reflexivity.
Qed.

Lemma ready_map g (F : worker row Info Ag -> worker row Info Ag) g' ws :
  (forall w, ready g w -> ready g' (F w)) ->
  Forall (ready g) ws -> Forall (ready g') (map F ws).
Proof.
  intros HF Hr. apply Forall_map. eapply Forall_impl; [exact Hr|]. exact HF.
Qed.

Lemma train_step_run ts sid states (e e1 : E) ws g tr ns rw dn inf :
  Forall (ready g) ws -> n = length ws -> 0 < n ->
  step e (train_actions ts T states ws) = ((ns, rw, dn, inf), e1) ->
  let e2 := if hl then e1 else render e1 in
  train_step nonzero ts (sid, states) (st e ws g tr)
  = (inr (if any nonzero dn then fst (reset e2) else (sid, ns)),
     st (if any nonzero dn then snd (reset e2) else e2)
        (map (train_worker ts T states rw ns dn inf) ws) (4 + g)
        (tr ++ train_events nonzero n ts T hl states
                 (train_actions ts T states ws) rw ns dn inf)).
Proof.
  intros Hr Hn Hpos Hstep e2. unfold train_step. cbn [fst snd].
  rewrite (bind_ok _ _ _ _ _ (broadcast_pre_run ts e ws g tr Hr Hn)).
  assert (Hr1 := ready_map g (after_pre ts T) (S g) ws
                   (fun w => ready_after_pre g ts T w) Hr).
  rewrite (bind_ok _ _ _ _ _
             (compute_actions_run ts states e _ (S g) _ Hr1
                (eq_trans Hn (eq_sym (length_map _ _))) Hpos)).
  rewrite (bind_ok _ _ _ _ _ (env_step_run _ _ _ _ _)).
  fold (train_actions ts T states ws). rewrite Hstep. cbn [fst snd].
  rewrite bind_gets. cbn [headless].
  rewrite (bind_ok _ _ _ _ _ (render_run _ _ _ _)). fold e2.
  assert (Hr2 := ready_map (S g) _ (S (S g)) _
                   (fun w => ready_after_act (S g) ts T states w) Hr1).
  rewrite map_map in Hr2.
  rewrite map_map.
  rewrite (bind_ok _ _ _ _ _
             (send_record_run ts rw ns dn inf _ _ _ _ Hr2
                (eq_trans Hn (eq_sym (length_map _ _))))).
  assert (Hr3 := ready_map (S (S g)) _ (S (S (S g))) _
                   (fun w => ready_after_record (S (S g)) ts T rw ns dn inf w)
                   Hr2).
  rewrite (bind_ok _ _ _ _ _
             (broadcast_post_run ts _ _ _ _ Hr3
                (eq_trans Hn (eq_sym (eq_trans (length_map _ _)
                                               (length_map _ _)))))).
  rewrite reset_check_run. rewrite !map_map.
  unfold train_events, act_events, train_worker.
  now rewrite <- !app_assoc.
Qed.

Lemma eval_step_run ts sid states (e e1 : E) ws g tr ns rw dn inf :
  Forall (ready g) ws -> n = length ws -> 0 < n ->
  step e (eval_actions ts T states ws) = ((ns, rw, dn, inf), e1) ->
  let e2 := if hl then e1 else render e1 in
  eval_step nonzero ts (sid, states) (st e ws g tr)
  = (inr (if any nonzero dn then fst (reset e2) else (sid, ns)),
     st (if any nonzero dn then snd (reset e2) else e2)
        (map (eval_worker ts T states rw ns dn inf) ws) (2 + g)
        (tr ++ eval_events nonzero n ts T hl states
                 (eval_actions ts T states ws) rw ns dn inf)).
Proof.
  intros Hr Hn Hpos Hstep e2. unfold eval_step. cbn [fst snd].
  rewrite (bind_ok _ _ _ _ _
             (compute_actions_run ts states e _ g _ Hr Hn Hpos)).
  rewrite (bind_ok _ _ _ _ _ (env_step_run _ _ _ _ _)).
  fold (eval_actions ts T states ws). rewrite Hstep. cbn [fst snd].
  rewrite bind_gets. cbn [headless].
  rewrite (bind_ok _ _ _ _ _ (render_run _ _ _ _)). fold e2.
  assert (Hr2 := ready_map g _ (S g) _
                   (fun w => ready_after_act g ts T states w) Hr).
  rewrite (bind_ok _ _ _ _ _
             (send_eval_run ts rw ns dn inf _ _ _ _ Hr2
                (eq_trans Hn (eq_sym (length_map _ _))))).
  rewrite reset_check_run. rewrite !map_map.
  unfold eval_events, act_events, eval_worker.
  now rewrite <- !app_assoc.
Qed.

End Phases.

(** ** Loops over timesteps *)

Section Loop.
Variables (ags : list Ag) (scs : list (nat * nat)) (n T t0 : nat) (hl : bool).
Variable stepf : nat -> tobj row -> C (row := row) (Info := Info) (Ag := Ag)
                                      (E := E) (tobj row).
Variable k : nat.
Variable PW : nat -> list (wevent row Info Ag) -> Prop.
Variable PC : nat -> list (cevent row Info Ag) -> Prop.
Abbreviation st e ws g tr := (Coord e ags scs n T t0 hl ws g tr).

Hypothesis step_ok : forall t states (e : E) ws g tr,
  Forall (ready g) ws -> n = length ws ->
  exists states' e' ws' d,
    stepf t states (st e ws g tr) = (inr states', st e' ws' (k + g) (tr ++ d))
    /\ PC t d
    /\ Forall2 (grown (PW t) (k + g)) ws ws'.

Lemma loop_ok tsl : forall states (e : E) ws g tr,
  Forall (ready g) ws -> n = length ws ->
  exists states' e' ws' d,
    for_acc tsl stepf states (st e ws g tr)
    = (inr states', st e' ws' (k * length tsl + g) (tr ++ d))
    /\ chain PC tsl d
    /\ Forall2 (grown (chain PW tsl) (k * length tsl + g)) ws ws'.
Proof.
  induction tsl as [|t tsl IH]; intros states e ws g tr Hr Hn.
  - exists states, e, ws, []. cbn [for_acc length chain].
    rewrite Nat.mul_0_r, app_nil_r. repeat split; try reflexivity.
    apply Forall2_same_length_lookup. split; [reflexivity|].
    intros i w w' Hw Hw'. rewrite Hw in Hw'. injection Hw' as <-.
    rewrite Forall_lookup in Hr. split; [|split; [reflexivity|]].
    + simpl. eapply Hr; eassumption.
    + exists []. rewrite app_nil_r. repeat split. now destruct (agent w).
  - destruct (step_ok t states e ws g tr Hr Hn)
      as (states1 & e1 & ws1 & d1 & Hs & Hc & Hg).
    assert (Hr1 : Forall (ready (k + g)) ws1).
    { apply Forall_lookup. intros i w1 Hw1.
      destruct (Forall2_lookup_r _ _ _ _ _ Hg Hw1) as (w & _ & Hgw).
      apply Hgw. }
    assert (Hn1 : n = length ws1).
    { rewrite Hn. eapply Forall2_length; eassumption. }
    destruct (IH states1 e1 ws1 (k + g) (tr ++ d1) Hr1 Hn1)
      as (states' & e' & ws' & d & Hl & Hcl & Hgl).
    exists states', e', ws', (d1 ++ d). cbn [for_acc length chain].
    rewrite (bind_ok _ _ _ _ _ Hs), Hl.
    replace (k * S (length tsl) + g) with (k * length tsl + (k + g)) by lia.
    rewrite <- app_assoc. split; [reflexivity|]. split.
    + exists d1, d. auto.
    + apply Forall2_same_length_lookup. split.
      * etransitivity; eapply Forall2_length; eassumption.
      * intros i w w' Hw Hw'.
        destruct (Forall2_lookup_l _ _ _ _ _ Hg Hw) as (w1 & Hw1 & G1).
        destruct (Forall2_lookup_l _ _ _ _ _ Hgl Hw1) as (w2 & Hw2 & G2).
        rewrite Hw' in Hw2. injection Hw2 as <-.
        destruct G1 as (_ & Hsc1 & dl1 & Hl1 & Hb1 & Ha1).
        destruct G2 as (Hrd & Hsc2 & dl2 & Hl2 & Hb2 & Ha2).
        split; [exact Hrd|]. split; [congruence|].
        exists (dl1 ++ dl2). split; [|split].
        -- rewrite Hl2, Hl1. now rewrite <- app_assoc.
        -- exists dl1, dl2. auto.
        -- rewrite Ha2, Ha1. unfold replay_calls.
           destruct (agent w) as [a|]; cbn; [|reflexivity].
           now rewrite fold_left_app.
Qed.

End Loop.

(** ** What a timestep leaves in a worker *)

Lemma train_worker_spec g ts tss states rw ns dn inf w :
  ready g w ->
  ready (4 + g) (train_worker ts tss states rw ns dn inf w) /\
  scope (train_worker ts tss states rw ns dn inf w) = scope w /\
  exists dl,
    log (train_worker ts tss states rw ns dn inf w) = log w ++ dl /\
    is_train_block tss ts dl /\
    agent (train_worker ts tss states rw ns dn inf w)
    = replay_calls dl <$> agent w.
Proof.
  intros Hr. ready_worker Hr.
  unfold train_worker, after_post, after_record, take_one, after_act,
    after_pre, on_agent, own.
  cbn [pipe queue scope agent _states _actions waits log stat set_queue tail].
  split; [|split; [reflexivity|]].
  - unfold ready; cbn. eauto 10.
  - eexists. split; [|split].
    + rewrite <- !app_assoc. reflexivity.
    + unfold is_train_block. do 6 eexists. reflexivity.
    + reflexivity.
Qed.

Lemma eval_worker_spec g ts tss states rw ns dn inf w :
  ready g w ->
  ready (2 + g) (eval_worker ts tss states rw ns dn inf w) /\
  scope (eval_worker ts tss states rw ns dn inf w) = scope w /\
  exists dl,
    log (eval_worker ts tss states rw ns dn inf w) = log w ++ dl /\
    is_eval_block tss ts dl /\
    agent (eval_worker ts tss states rw ns dn inf w)
    = replay_calls dl <$> agent w.
Proof.
  intros Hr. ready_worker Hr.
  unfold eval_worker, after_eval, take_one, after_act, on_agent, own.
  cbn [pipe queue scope agent _states _actions waits log stat set_queue tail].
  split; [|split; [reflexivity|]].
  - unfold ready; cbn. eauto 10.
  - eexists. split; [|split].
    + rewrite <- !app_assoc. reflexivity.
    + unfold is_eval_block. do 6 eexists. reflexivity.
    + reflexivity.
Qed.


(** C10: a message whose [task] is none of the seven known strings falls
    through the whole [if]/[elif] chain.  The worker raises nothing, calls
    no agent method, does not wait on the barrier, keeps its cached
    [_states] and [_actions], and its loop goes on with the next
    [pipe.recv()]. *)
Theorem unknown_task_is_skipped m v (p : list msg) w g :
  m !! "task" = Some v ->
  v ∉ known_tasks ->
  let w' := recv_one m p w in
  stat w' = stat w /\ agent w' = agent w /\
  _states w' = _states w /\ _actions w' = _actions w /\
  waits w' = waits w /\ queue w' = queue w /\
  log w' = log w ++ [Recv m] /\ pipe w' = p /\
  (stat w = Running -> waits w < g -> serve g (m :: p) w = serve g p w').
Proof.
  intros Hm Hv.
  assert (Hd : dispatch m (emit (Recv m) (set_pipe p w))
               = (inr Again, emit (Recv m) (set_pipe p w))).
  { rewrite (dispatch_task _ _ _ Hm).
    unfold known_tasks in Hv. rewrite !not_elem_of_cons in Hv.
    destruct Hv as (? & ? & ? & ? & ? & ? & ? & _).
    repeat (case_decide; [congruence|]). reflexivity. }
  cbv zeta. unfold recv_one. rewrite Hd.
  repeat split; try reflexivity.
  intros Hs Hg. cbn [serve]. rewrite Hs.
  destruct (decide (g <= waits w)); [lia|].
  unfold recv_one. now rewrite Hd.
Qed.

(** ** Start-up: lines 144-180 *)

Section Boot.
Variables (ags : list Ag) (scs : list (nat * nat)) (n T t0 : nat) (hl : bool).
Abbreviation st e ws g tr := (Coord e ags scs n T t0 hl ws g tr).

Lemma for_each_notes {X} (xs : list X) (ev : X -> list (cevent row Info Ag))
    (body : X -> C (row := row) (Info := Info) (Ag := Ag) (E := E) unit) :
  (forall x e ws g tr, body x (st e ws g tr) = (inr tt, st e ws g (tr ++ ev x))) ->
  forall e ws g tr,
    for_each xs body (st e ws g tr)
    = (inr tt, st e ws g (tr ++ flat_map ev xs)).
Proof.
  intros Hb. induction xs as [|x xs IH]; intros e ws g tr.
  - simpl. now rewrite app_nil_r.
  - cbn [for_each flat_map]. rewrite (bind_ok _ _ _ _ _ (Hb _ _ _ _ _)).
    rewrite IH. now rewrite <- app_assoc.
Qed.

Lemma spawn_all (e : E) g : forall k pre tr i0,
  for_each (seq i0 k)
    (fun i => cnote (Spawn i) ;;
              modify (fun c => set_workers
                                 (workers c ++ [fn_processor_start i scs]) c))
    (st e pre g tr)
  = (inr tt,
     st e (pre ++ map (fun i => fn_processor_start i scs) (seq i0 k)) g
        (tr ++ map Spawn (seq i0 k))).
Proof.
  induction k as [|k IH]; intros pre tr i0.
  - simpl. now rewrite !app_nil_r.
  - cbn [seq for_each map].
    assert (Hb : (cnote (Spawn i0) ;;
                  modify (fun c => set_workers
                            (workers c ++ [fn_processor_start i0 scs]) c))
                   (st e pre g tr)
                 = (inr tt, st e (pre ++ [fn_processor_start i0 scs]) g
                               (tr ++ [Spawn i0]))) by reflexivity.
    rewrite (bind_ok _ _ _ _ _ Hb). rewrite IH.
    now rewrite <- !app_assoc.
Qed.

Lemma started_workers : forall k i0,
  i0 + k <= length scs ->
  (map (fun i => fn_processor_start i scs) (seq i0 k)
   : list (worker row Info Ag))
  = map started (take k (drop i0 scs)).
Proof.
  induction k as [|k IH]; intros i0 Hk; [reflexivity|].
  cbn [seq map].
  destruct (lookup_lt_is_Some_2 scs i0 ltac:(lia)) as [sc Hsc].
  rewrite (drop_S _ _ _ Hsc). cbn [take map]. rewrite IH by lia.
  f_equal. unfold fn_processor_start. now rewrite Hsc.
Qed.

Lemma cbarrier_run (e : E) ws ws' g tr :
  map (run_until (S g)) ws = ws' ->
  Forall (fun w => S g <= waits w) ws' ->
  cbarrier_wait (st e ws g tr) = (inr tt, st e ws' (S g) (tr ++ [Wait])).
Proof.
  intros Hm Hw.
  cbv [cbarrier_wait bind cnote modify gets note set_workers set_gen
       workers env agents agents_scope num_agents timesteps initial_timestep
       headless gen trace].
  rewrite Hm.
  assert (Ha : forallb (fun w => bool_decide (S g <= waits w)) ws' = true).
  { apply forallb_forall. intros w Hin. apply bool_decide_eq_true.
    rewrite Forall_forall in Hw. apply Hw. now apply list_elem_of_In. }
  now rewrite Ha.
Qed.

Lemma run_until_started sc : run_until 1 (started sc) = started sc.
Proof. reflexivity. Qed.

Lemma init_all m (e : E) g : forall suf pre (ys : list Ag) tr,
  length suf <= length ys ->
  for_each (zip (seq (length pre) (length suf)) ys)
    (fun ia => send (fst ia) m ;; cput (fst ia) (OAgent (snd ia)))
    (st e (pre ++ suf) g tr)
  = (inr tt,
     st e (pre ++ zip_with (fun w a => push m [OAgent a] w) suf ys) g
        (tr ++ flat_map (fun ia => [Send (fst ia) m;
                                    QPut (fst ia) (OAgent (snd ia))])
                        (zip (seq (length pre) (length suf)) ys))).
Proof.
  induction suf as [|x suf IH]; intros pre ys tr Hl.
  - simpl. now rewrite !app_nil_r.
  - destruct ys as [|y ys]; [simpl in Hl; lia|]. simpl in Hl.
    cbn [length seq zip zip_with for_each flat_map fst snd].
    rewrite (bind_ok _ _ _ _ _
               (send_put_body e ags scs n T t0 hl g m (OAgent y) _ _ _)).
    rewrite alter_app_r_alt by lia. rewrite Nat.sub_diag.
    cbn [alter list_alter map].
    replace (pre ++ push m [OAgent y] x :: suf)
      with ((pre ++ [push m [OAgent y] x]) ++ suf) by now rewrite <- app_assoc.
    replace (S (length pre)) with (length (pre ++ [push m [OAgent y] x]))
      by (rewrite length_app; simpl; lia).
    rewrite IH by lia. now rewrite <- !app_assoc.
Qed.

Lemma init_served (l : list (nat * nat)) : forall (ys : list Ag),
  map (run_until 2)
      (zip_with (fun w a => push (mk_task "init") [OAgent a] w)
                (map started l) ys)
  = zip_with (fun sc a => after_init a (started sc)) l ys.
Proof.
  induction l as [|sc l IH]; intros [|y ys]; try reflexivity.
  cbn [map zip_with]. rewrite IH. now rewrite run_init.
Qed.

Lemma boot_workers_ready : Forall (ready 2) (boot_workers n scs ags).
Proof.
  unfold boot_workers. generalize (take n scs) as l. intros l.
  generalize ags as ys.
  induction l as [|sc l IH]; intros [|y ys]; cbn [zip_with];
    try constructor; [|apply IH].
  unfold ready, after_init, started; cbn. eauto 10.
Qed.

Lemma boot_workers_length :
  n <= length scs -> n <= length ags -> length (boot_workers n scs ags) = n.
Proof.
  intros Hs Ha. unfold boot_workers.
  rewrite length_zip_with, length_take. lia.
Qed.

Lemma cnote_run ev (e : E) ws g tr :
  cnote ev (st e ws g tr) = (inr tt, st e ws g (tr ++ [ev])).
Proof. reflexivity. Qed.

(** The [share_memory] loops. *)
Lemma share_memory_of_run a (e : E) ws g tr :
  share_memory_of a (st e ws g tr)
  = (inr tt, st e ws g (tr ++ if has_memory a then [ShareMemory] else [])).
Proof.
  unfold share_memory_of. destruct (has_memory a); [reflexivity|].
  cbn. now rewrite app_nil_r.
Qed.

Lemma share_agent_eval a (e : E) ws g tr :
  (share_memory_of a ;;
   for_each (models a) (fun mo =>
     match mo with
     | NoModel => ret tt
     | Model _ => cnote ShareModel
     end)) (st e ws g tr)
  = (inr tt,
     st e ws g (tr ++ (if has_memory a then [ShareMemory] else [])
                   ++ flat_map model_events (models a))).
Proof.
  rewrite (bind_ok _ _ _ _ _ (share_memory_of_run a e ws g tr)).
  rewrite (for_each_notes (models a) model_events).
  - now rewrite <- app_assoc.
  - intros [|b] e' ws' g' tr'; cbn; [now rewrite app_nil_r|reflexivity].
Qed.

Lemma share_agent_train a (e : E) ws g tr :
  NoModel ∉ models a ->
  (share_memory_of a ;;
   for_each (models a) (fun mo =>
     match mo with
     | NoModel => raise (Fault AttributeError)
     | Model _ => cnote ShareModel
     end)) (st e ws g tr)
  = (inr tt,
     st e ws g (tr ++ (if has_memory a then [ShareMemory] else [])
                   ++ flat_map model_events (models a))).
Proof.
  intros Hno.
  rewrite (bind_ok _ _ _ _ _ (share_memory_of_run a e ws g tr)).
  rewrite app_assoc.
  generalize (tr ++ if has_memory a then [ShareMemory] else []).
  revert Hno. generalize (models a) as mos.
  induction mos as [|mo mos IH]; intros Hno tr'.
  - cbn. now rewrite app_nil_r.
  - apply not_elem_of_cons in Hno as [Hmo Hno].
    destruct mo as [|b]; [contradiction|].
    cbn [for_each flat_map model_events].
    rewrite (bind_ok _ _ _ _ _ (cnote_run ShareModel e ws g tr')).
    rewrite (IH Hno). now rewrite <- app_assoc.
Qed.

Lemma share_memory_eval_run (e : E) ws g tr :
  share_memory_eval (st e ws g tr)
  = (inr tt, st e ws g (tr ++ share_events ags)).
Proof.
  unfold share_memory_eval. rewrite bind_gets. cbn [agents].
  apply (for_each_notes ags
           (fun a => (if has_memory a then [ShareMemory] else [])
                     ++ flat_map model_events (models a))).
  intros. apply share_agent_eval.
Qed.

Lemma share_memory_train_run (e : E) ws g tr :
  every_model_set ags ->
  share_memory_train (st e ws g tr)
  = (inr tt, st e ws g (tr ++ share_events ags)).
Proof.
  intros Hall. unfold share_memory_train. rewrite bind_gets. cbn [agents].
  unfold share_events. revert tr.
  assert (Hl : forall l : list Ag,
             Forall (fun a => NoModel ∉ models a) l ->
             forall tr,
               for_each l (fun a =>
                 share_memory_of a ;;
                 for_each (models a) (fun mo =>
                   match mo with
                   | NoModel => raise (Fault AttributeError)
                   | Model _ => cnote ShareModel
                   end)) (st e ws g tr)
               = (inr tt,
                  st e ws g
                     (tr ++ flat_map
                              (fun a =>
                                 (if has_memory a then [ShareMemory] else [])
                                 ++ flat_map model_events (models a)) l))).
  { induction 1 as [|a l Ha Hl IH]; intros tr.
    - cbn. now rewrite app_nil_r.
    - cbn [for_each flat_map].
      rewrite (bind_ok _ _ _ _ _ (share_agent_train a e ws g tr Ha)).
      rewrite IH. now rewrite <- !app_assoc. }
  exact (Hl ags Hall).
Qed.

Lemma bootstrap_run share (e : E) tr :
  (forall (e : E) ws g tr,
     share (st e ws g tr) = (inr tt, st e ws g (tr ++ share_events ags))) ->
  n <= length scs -> n <= length ags ->
  bootstrap share (st e [] 0 tr)
  = (inr tt, st e (boot_workers n scs ags) 2 (tr ++ boot_events n ags)).
Proof.
  intros Hshare Hs Ha. unfold bootstrap.
  rewrite bind_gets. cbn [num_agents]. unfold range. rewrite Nat.sub_0_r.
  rewrite (bind_ok _ _ _ _ _ (cnote_run _ _ _ _ _)).
  assert (Hp : forall (x : nat) (e : E) ws g tr,
             (cnote MkPipe ;; cnote MkQueue) (st e ws g tr)
             = (inr tt, st e ws g (tr ++ [MkPipe; MkQueue]))).
  { intros. cbv [bind cnote modify note trace env agents agents_scope
                 num_agents timesteps initial_timestep headless workers gen].
    now rewrite <- app_assoc. }
  rewrite (bind_ok _ _ _ _ _
             (for_each_notes (seq 0 n) (fun _ => [MkPipe; MkQueue])
                (fun _ => cnote MkPipe ;; cnote MkQueue) Hp _ _ _ _)).
  rewrite (bind_ok _ _ _ _ _ (Hshare _ _ _ _)).
  rewrite bind_gets. cbn [agents_scope].
  rewrite (bind_ok _ _ _ _ _ (spawn_all e 0 n [] _ 0)).
  cbn [app]. rewrite (started_workers n 0) by lia. rewrite drop_0.
  rewrite (bind_ok _ _ _ _ _
             (cbarrier_run e _ (map started (take n scs)) 0 _
                (eq_trans (map_map _ _ _) (map_ext _ _ run_until_started _))
                ltac:(apply Forall_map, Forall_true; intros; cbn; lia))).
  rewrite bind_gets. cbn [agents].
  assert (Hlen : length (map started (take n scs)
                         : list (worker row Info Ag)) = n).
  { rewrite length_map, length_take. lia. }
  pose proof (init_all (mk_task "init") e 1 (map started (take n scs)) [] ags
                (tr ++ [MkBarrier (n + 1)]
                    ++ flat_map (fun _ => [MkPipe; MkQueue]) (seq 0 n)
                    ++ share_events ags
                    ++ map Spawn (seq 0 n) ++ [Wait])
                ltac:(rewrite Hlen; exact Ha)) as Hi.
  rewrite Hlen in Hi. cbn [length app] in Hi.
  rewrite <- !app_assoc. rewrite <- !app_assoc in Hi.
  rewrite (bind_ok _ _ _ _ _ Hi).
  rewrite (cbarrier_run e _ (boot_workers n scs ags) 1 _ (init_served _ _)).
  - unfold boot_events, range. rewrite Nat.sub_0_r.
    cbn [app]. rewrite <- ?app_assoc. cbn [app]. rewrite <- ?app_assoc.
    reflexivity.
  - eapply Forall_impl; [apply boot_workers_ready|].
    intros w (_ & -> & _). lia.
Qed.

End Boot.

(** ** Tear-down: lines 241-250 *)

Section Teardown.
Variables (ags : list Ag) (scs : list (nat * nat)) (n T t0 : nat) (hl : bool).
Abbreviation st e ws g tr := (Coord e ags scs n T t0 hl ws g tr).

Lemma join_served g w :
  ready g w ->
  run_until (S (waits (push (mk_task "terminate") [] w)))
            (push (mk_task "terminate") [] w)
  = after_terminate w.
Proof.
  intros Hr. rewrite <- (run_terminate g w Hr). f_equal.
  ready_worker Hr. reflexivity.
Qed.

Lemma join_all (e : E) g g' : forall suf pre tr,
  Forall (ready g) suf ->
  for_each (seq (length pre) (length suf)) join
           (st e (pre ++ map (push (mk_task "terminate") []) suf) g' tr)
  = (inr tt,
     st e (pre ++ map after_terminate suf) g'
        (tr ++ map Join (seq (length pre) (length suf)))).
Proof.
  induction suf as [|x suf IH]; intros pre tr Hr.
  - simpl. now rewrite !app_nil_r.
  - apply Forall_cons in Hr as [Hx Hr].
    cbn [length seq for_each map].
    assert (Hj : join (length pre)
                   (st e (pre ++ push (mk_task "terminate") [] x
                              :: map (push (mk_task "terminate") []) suf) g' tr)
                 = (inr tt,
                    st e ((pre ++ [after_terminate x])
                          ++ map (push (mk_task "terminate") []) suf) g'
                       (tr ++ [Join (length pre)]))).
    { cbv [join bind cnote modify gets note set_workers workers env agents
           agents_scope num_agents timesteps initial_timestep headless gen
           trace].
      rewrite list_lookup_middle by done.
      rewrite (join_served g x Hx).
      cbn [stat after_terminate]. unfold ret. do 2 f_equal.
      replace (length pre) with (length pre + 0) by lia.
      rewrite insert_app_r. now rewrite <- app_assoc. }
    rewrite (bind_ok _ _ _ _ _ Hj).
    replace (S (length pre)) with (length (pre ++ [after_terminate x]))
      by (rewrite length_app; simpl; lia).
    rewrite IH by assumption. now rewrite <- !app_assoc.
Qed.

Lemma teardown_run (e : E) ws g tr :
  Forall (ready g) ws -> n = length ws ->
  teardown (st e ws g tr)
  = (inr tt, st (close e) (map after_terminate ws) g
                (tr ++ teardown_events n)).
Proof.
  intros Hr Hn. unfold teardown. rewrite bind_gets. cbn [num_agents].
  rewrite (bind_ok _ _ _ _ _
             (for_each_push (fun i => send i (mk_task "terminate"))
                (mk_task "terminate") [] _ e ags scs n T t0 hl g
                (fun i ws tr => send_body e ags scs n T t0 hl g _ i ws tr)
                ws tr Hn)).
  pose proof (join_all e g g ws [] (tr ++ sends n (mk_task "terminate") [])
                Hr) as Hj.
  cbn [length app] in Hj. rewrite <- Hn in Hj.
  unfold range at 1. rewrite Nat.sub_0_r.
  rewrite (bind_ok _ _ _ _ _ Hj).
  unfold teardown_events, range. rewrite Nat.sub_0_r.
  cbv [env_close bind cnote modify note set_env workers env agents
       agents_scope num_agents timesteps initial_timestep headless gen trace].
  now rewrite <- !app_assoc.
Qed.

End Teardown.

(** ** One timestep and the whole loop, from a state where all workers
    are ready *)

Section Steps.
Variable nonzero : row -> bool.
Variables (ags : list Ag) (scs : list (nat * nat)) (n T t0 : nat) (hl : bool).
Hypothesis some_worker : 0 < n.
Abbreviation st e ws g tr := (Coord e ags scs n T t0 hl ws g tr).

Lemma Forall2_map_r_same {X} (R : X -> X -> Prop) (F : X -> X) (l : list X) :
  Forall (fun x => R x (F x)) l -> Forall2 R l (map F l).
Proof. induction 1; constructor; auto. Qed.

Lemma train_step_ok t states (e : E) ws g tr :
  Forall (ready g) ws -> n = length ws ->
  exists states' e' ws' d,
    train_step nonzero t states (st e ws g tr)
    = (inr states', st e' ws' (4 + g) (tr ++ d))
    /\ is_train_events nonzero n T hl t d
    /\ Forall2 (grown (is_train_block T t) (4 + g)) ws ws'.
Proof.
  intros Hr Hn. destruct states as [sid states].
  destruct (step e (train_actions t T states ws))
    as [[[[ns rw] dn] inf] e1] eqn:Hstep.
  do 4 eexists. split; [|split].
  - apply (train_step_run nonzero ags scs n T t0 hl t sid states e e1 ws g tr
             ns rw dn inf Hr Hn some_worker Hstep).
  - unfold is_train_events. do 6 eexists. reflexivity.
  - apply Forall2_map_r_same. eapply Forall_impl; [exact Hr|].
    intros w Hw. now apply train_worker_spec.
Qed.

Lemma eval_step_ok t states (e : E) ws g tr :
  Forall (ready g) ws -> n = length ws ->
  exists states' e' ws' d,
    eval_step nonzero t states (st e ws g tr)
    = (inr states', st e' ws' (2 + g) (tr ++ d))
    /\ is_eval_events nonzero n T hl t d
    /\ Forall2 (grown (is_eval_block T t) (2 + g)) ws ws'.
Proof.
  intros Hr Hn. destruct states as [sid states].
  destruct (step e (eval_actions t T states ws))
    as [[[[ns rw] dn] inf] e1] eqn:Hstep.
  do 4 eexists. split; [|split].
  - apply (eval_step_run nonzero ags scs n T t0 hl t sid states e e1 ws g tr
             ns rw dn inf Hr Hn some_worker Hstep).
  - unfold is_eval_events. do 6 eexists. reflexivity.
  - apply Forall2_map_r_same. eapply Forall_impl; [exact Hr|].
    intros w Hw. now apply eval_worker_spec.
Qed.

Lemma train_loop_ok tsl states (e : E) ws g tr :
  Forall (ready g) ws -> n = length ws ->
  exists states' e' ws' d,
    for_acc tsl (train_step nonzero) states (st e ws g tr)
    = (inr states', st e' ws' (4 * length tsl + g) (tr ++ d))
    /\ chain (is_train_events nonzero n T hl) tsl d
    /\ Forall2 (grown (chain (is_train_block T) tsl) (4 * length tsl + g))
               ws ws'.
Proof.
  apply (loop_ok ags scs n T t0 hl (train_step nonzero) 4
           (is_train_block T) (is_train_events nonzero n T hl) train_step_ok).
Qed.

Lemma eval_loop_ok tsl states (e : E) ws g tr :
  Forall (ready g) ws -> n = length ws ->
  exists states' e' ws' d,
    for_acc tsl (eval_step nonzero) states (st e ws g tr)
    = (inr states', st e' ws' (2 * length tsl + g) (tr ++ d))
    /\ chain (is_eval_events nonzero n T hl) tsl d
    /\ Forall2 (grown (chain (is_eval_block T) tsl) (2 * length tsl + g))
               ws ws'.
Proof.
  apply (loop_ok ags scs n T t0 hl (eval_step nonzero) 2
           (is_eval_block T) (is_eval_events nonzero n T hl) eval_step_ok).
Qed.

End Steps.

(** ** Which events a run consists of *)

Lemma count_app {X} (p : X -> bool) (l1 l2 : list X) :
  count p (l1 ++ l2) = count p l1 + count p l2.
Proof. unfold count. now rewrite List.filter_app, length_app. Qed.

Lemma count_none {X} (p : X -> bool) (l : list X) :
  Forall (fun x => p x = false) l -> count p l = 0.
Proof.
  unfold count. induction 1 as [|x l Hx _ IH]; [reflexivity|].
  cbn [List.filter]. now rewrite Hx.
Qed.

Lemma chain_Forall {X} (P : nat -> list X -> Prop) (Q : X -> Prop) tsl :
  (forall t b, P t b -> Forall Q b) ->
  forall d, chain P tsl d -> Forall Q d.
Proof.
  intros HP. induction tsl as [|t tsl IH]; intros d; cbn [chain].
  - intros ->. constructor.
  - intros (b & rest & Hb & -> & Hr). apply Forall_app. eauto.
Qed.

Lemma sends_Forall (Q : cevent row Info Ag -> Prop) n m os :
  (forall i, Q (Send i m)) -> (forall i o, Q (QPut i o)) ->
  Forall Q (sends n m os).
Proof.
  intros Hs Hp. unfold sends. generalize (range 0 n) as l.
  induction l as [|i l IH]; cbn [flat_map]; [constructor|].
  constructor; [apply Hs|]. apply Forall_app. split; [|exact IH].
  apply Forall_map, Forall_true. intros o. apply Hp.
Qed.

Lemma share_events_Forall (Q : cevent row Info Ag -> Prop) (ags : list Ag) :
  Q ShareMemory -> Q ShareModel -> Forall Q (share_events ags).
Proof.
  intros Hm Ho. unfold share_events.
  induction ags as [|a l IH]; cbn [flat_map]; [constructor|].
  rewrite !Forall_app. split; [split|exact IH].
  - destruct (has_memory a); repeat constructor; exact Hm.
  - induction (models a) as [|[|b] mos IHm]; cbn [flat_map app];
      repeat constructor; assumption.
Qed.

Lemma sends_loop_event tasks n task ts tss os :
  In task tasks ->
  Forall (loop_event (row := row) (Info := Info) (Ag := Ag) tasks)
         (sends n (mk_msg task ts tss) os).
Proof.
  intros Hin. apply sends_Forall; intros; cbn; eauto.
Qed.

Lemma act_events_loop tasks n ts tss (states actions : list row) :
  In "act" tasks ->
  Forall (loop_event (row := row) (Info := Info) (Ag := Ag) tasks)
         (act_events n ts tss states actions).
Proof.
  intros Hin. unfold act_events. rewrite !Forall_app.
  repeat split; try (repeat constructor; fail).
  - now apply sends_loop_event.
  - apply Forall_map, Forall_true. intros i. exact I.
Qed.

Lemma tail_events_loop tasks nonzero hl (dn : list row) :
  Forall (loop_event (row := row) (Info := Info) (Ag := Ag) tasks)
         (render_events hl) /\
  Forall (loop_event (row := row) (Info := Info) (Ag := Ag) tasks)
         (reset_events nonzero dn).
Proof.
  unfold render_events, reset_events.
  destruct hl, (any nonzero dn); split; repeat constructor.
Qed.

Lemma train_events_loop nonzero n tss hl ts d :
  is_train_events nonzero n tss hl ts d ->
  Forall (loop_event (row := row) (Info := Info) (Ag := Ag) train_tasks) d.
Proof.
  intros (states & actions & rw & ns & dn & inf & ->).
  destruct (tail_events_loop train_tasks nonzero hl dn).
  unfold train_events. rewrite !Forall_app.
  repeat split; try assumption; try (repeat constructor; fail).
  - apply sends_loop_event. cbn. auto.
  - apply act_events_loop. cbn. auto.
  - apply sends_loop_event. cbn. auto.
  - apply sends_loop_event. cbn. auto.
Qed.

Lemma eval_events_loop nonzero n tss hl ts d :
  is_eval_events nonzero n tss hl ts d ->
  Forall (loop_event (row := row) (Info := Info) (Ag := Ag) eval_tasks) d.
Proof.
  intros (states & actions & rw & ns & dn & inf & ->).
  destruct (tail_events_loop eval_tasks nonzero hl dn).
  unfold eval_events. rewrite !Forall_app.
  repeat split; try assumption; try (repeat constructor; fail).
  - apply act_events_loop. cbn. auto.
  - apply sends_loop_event. cbn. auto.
Qed.

Lemma grown_length (Q : list (wevent row Info Ag) -> Prop) g ws ws' :
  Forall2 (grown Q g) ws ws' -> length ws' = length ws /\ Forall (ready g) ws'.
Proof.
  intros Hg. split; [symmetry; eapply Forall2_length; eassumption|].
  apply Forall_lookup. intros i w' Hw'.
  destruct (Forall2_lookup_r _ _ _ _ _ Hg Hw') as (w & _ & Hgw). apply Hgw.
Qed.

Lemma loop_event_not_close tasks (ev : cevent row Info Ag) :
  loop_event tasks ev -> is_close ev = false.
Proof. destruct ev; cbn; intros; try reflexivity; contradiction. Qed.

Lemma boot_events_no_close n (ags : list Ag) :
  count is_close (boot_events (row := row) (Info := Info) n ags) = 0.
Proof.
  apply count_none. unfold boot_events. rewrite !Forall_app.
  repeat split; try (repeat constructor; fail).
  - generalize (range 0 n) as l.
    induction l; cbn [flat_map app]; repeat constructor; assumption.
  - now apply share_events_Forall.
  - apply Forall_map, Forall_true. reflexivity.
  - generalize (zip (range 0 n) ags) as l.
    induction l; cbn [flat_map app]; repeat constructor; assumption.
Qed.

Lemma teardown_events_one_close n :
  count is_close (teardown_events (row := row) (Info := Info) (Ag := Ag) n) = 1.
Proof.
  unfold teardown_events. rewrite !count_app.
  rewrite (count_none _ (sends _ _ _)), (count_none _ (map _ _)).
  - reflexivity.
  - apply Forall_map, Forall_true. reflexivity.
  - apply sends_Forall; reflexivity.
Qed.

Lemma run_closes_once tasks n (ags : list Ag)
    (P : nat -> list (cevent row Info Ag) -> Prop) tsl d :
  (forall t b, P t b -> Forall (loop_event tasks) b) ->
  chain P tsl d ->
  count is_close (boot_events n ags ++ [EnvReset] ++ d ++ teardown_events n)
  = 1.
Proof.
  intros HP Hc. rewrite !count_app.
  rewrite boot_events_no_close, teardown_events_one_close.
  rewrite (count_none _ d); [reflexivity|].
  eapply Forall_impl; [eapply chain_Forall; eassumption|].
  intros ev. apply loop_event_not_close.
Qed.

Lemma exited_workers (Q : list (wevent row Info Ag) -> Prop) g ws ws' :
  Forall2 (grown Q g) ws ws' ->
  Forall (fun w => stat w = Exited /\ waits w = g /\
                   exists l, log w = l ++ [Recv (mk_task "terminate")])
         (map after_terminate ws').
Proof.
  intros Hg. apply Forall_map.
  eapply Forall_impl; [apply (grown_length _ _ _ _ Hg)|].
  intros w (_ & Hw & _). cbn. repeat split; [exact Hw|]. now exists (log w).
Qed.

(** ** Whole runs of [train] and [eval] with several workers *)

Section Runs.
Variable nonzero : row -> bool.
Variables sat sae : E * list Ag -> E * list Ag.
Variables (ags : list Ag) (scs : list (nat * nat)) (n T t0 : nat) (hl : bool).
Hypothesis several : 2 <= n.
Hypothesis enough_scopes : n <= length scs.
Hypothesis enough_agents : n <= length ags.
Hypothesis models_set : every_model_set ags.
Abbreviation st e ws g tr := (Coord e ags scs n T t0 hl ws g tr).

Lemma env_reset_run (e : E) ws g tr :
  env_reset (st e ws g tr)
  = (inr (fst (reset e)), st (snd (reset e)) ws g (tr ++ [EnvReset])).
Proof. reflexivity. Qed.

Lemma train_run (e : E) tr :
  exists e' ws' d,
    train nonzero sat (st e [] 0 tr)
    = (inr tt,
       st (close e') (map after_terminate ws') (4 * length (range t0 T) + 2)
          (tr ++ boot_events n ags ++ [EnvReset] ++ d ++ teardown_events n))
    /\ chain (is_train_events nonzero n T hl) (range t0 T) d
    /\ Forall2 (grown (chain (is_train_block T) (range t0 T))
                       (4 * length (range t0 T) + 2))
               (boot_workers n scs ags) ws'.
Proof.
  unfold train. rewrite bind_gets. cbn [num_agents].
  destruct (decide (n = 1)) as [?|_]; [lia|].
  rewrite (bind_ok _ _ _ _ _
             (bootstrap_run ags scs n T t0 hl _ e tr
                (fun e ws g tr =>
                   share_memory_train_run ags scs n T t0 hl e ws g tr
                     models_set)
                enough_scopes enough_agents)).
  rewrite (bind_ok _ _ _ _ _ (env_reset_run _ _ _ _)).
  rewrite !bind_gets. cbn [initial_timestep timesteps].
  destruct (train_loop_ok nonzero ags scs n T t0 hl ltac:(lia)
              (range t0 T) (fst (reset e)) (snd (reset e))
              (boot_workers n scs ags) 2
              ((tr ++ boot_events n ags) ++ [EnvReset])
              (boot_workers_ready ags scs n)
              (eq_sym (boot_workers_length ags scs n enough_scopes
                         enough_agents)))
    as (states' & e' & ws' & d & Hl & Hc & Hg).
  exists e', ws', d.
  rewrite (bind_ok _ _ _ _ _ Hl).
  destruct (grown_length _ _ _ _ Hg) as [Hlen Hr].
  rewrite (teardown_run ags scs n T t0 hl e' ws' _ _ Hr).
  - split; [|split; assumption]. now rewrite <- !app_assoc.
  - rewrite Hlen. symmetry.
    apply boot_workers_length; assumption.
Qed.

Lemma eval_run (e : E) tr :
  exists e' ws' d,
    eval nonzero sae (st e [] 0 tr)
    = (inr tt,
       st (close e') (map after_terminate ws') (2 * length (range t0 T) + 2)
          (tr ++ boot_events n ags ++ [EnvReset] ++ d ++ teardown_events n))
    /\ chain (is_eval_events nonzero n T hl) (range t0 T) d
    /\ Forall2 (grown (chain (is_eval_block T) (range t0 T))
                       (2 * length (range t0 T) + 2))
               (boot_workers n scs ags) ws'.
Proof.
  unfold eval. rewrite bind_gets. cbn [num_agents].
  destruct (decide (n = 1)) as [?|_]; [lia|].
  rewrite (bind_ok _ _ _ _ _
             (bootstrap_run ags scs n T t0 hl _ e tr
                (share_memory_eval_run ags scs n T t0 hl)
                enough_scopes enough_agents)).
  rewrite (bind_ok _ _ _ _ _ (env_reset_run _ _ _ _)).
  rewrite !bind_gets. cbn [initial_timestep timesteps].
  destruct (eval_loop_ok nonzero ags scs n T t0 hl ltac:(lia)
              (range t0 T) (fst (reset e)) (snd (reset e))
              (boot_workers n scs ags) 2
              ((tr ++ boot_events n ags) ++ [EnvReset])
              (boot_workers_ready ags scs n)
              (eq_sym (boot_workers_length ags scs n enough_scopes
                         enough_agents)))
    as (states' & e' & ws' & d & Hl & Hc & Hg).
  exists e', ws', d.
  rewrite (bind_ok _ _ _ _ _ Hl).
  destruct (grown_length _ _ _ _ Hg) as [Hlen Hr].
  rewrite (teardown_run ags scs n T t0 hl e' ws' _ _ Hr).
  - split; [|split; assumption]. now rewrite <- !app_assoc.
  - rewrite Hlen. symmetry.
    apply boot_workers_length; assumption.
Qed.

End Runs.

(** ** The environment is what the traced calls make it *)

Section Tracking.
Abbreviation CC X := (C (row := row) (Info := Info) (Ag := Ag) (E := E) X).

Lemma replay_app (d1 d2 : list (cevent row Info Ag)) (e : E) :
  replay (d1 ++ d2) e = replay d2 (replay d1 e).
Proof. apply fold_left_app. Qed.

Lemma replay_id (d : list (cevent row Info Ag)) (e : E) :
  Forall (fun ev => forall e : E, env_call e ev = e) d -> replay d e = e.
Proof.
  induction 1 as [|ev d Hev _ IH]; [reflexivity|].
  unfold replay in *. cbn [fold_left]. now rewrite Hev.
Qed.

Lemma tracked_refl c : tracked c c.
Proof. exists []. now rewrite app_nil_r. Qed.

Lemma tracked_trans c1 c2 c3 : tracked c1 c2 -> tracked c2 c3 -> tracked c1 c3.
Proof.
  intros (d1 & Ht1 & He1) (d2 & Ht2 & He2). exists (d1 ++ d2).
  rewrite Ht2, Ht1, He2, He1, replay_app. now rewrite <- app_assoc.
Qed.

Lemma tracks_ret {X} (x : X) : tracks (ret x : CC X).
Proof. intros c. apply tracked_refl. Qed.

Lemma tracks_raise {X} s : tracks (raise s : CC X).
Proof. intros c. apply tracked_refl. Qed.

Lemma tracks_gets {X} (f : coord row Info Ag E -> X) : tracks (gets f).
Proof. intros c. apply tracked_refl. Qed.

Lemma tracks_modify (f : coord row Info Ag E -> coord row Info Ag E) :
  (forall c, env (f c) = env c) -> (forall c, trace (f c) = trace c) ->
  tracks (modify f).
Proof.
  intros He Ht c. exists []. cbn. now rewrite He, Ht, app_nil_r.
Qed.

Lemma tracks_cnote (ev : cevent row Info Ag) :
  (forall e : E, env_call e ev = e) -> tracks (cnote ev : CC unit).
Proof.
  intros Hev c. exists [ev]. split; [reflexivity|].
  unfold replay. cbn. now rewrite Hev.
Qed.

Lemma tracks_bind {X Y} (m : CC X) (k : X -> CC Y) :
  tracks m -> (forall x, tracks (k x)) -> tracks (bind m k).
Proof.
  intros Hm Hk c. specialize (Hm c). unfold bind.
  destruct (m c) as [[s|x] c1]; [exact Hm|].
  eapply tracked_trans; [exact Hm|apply Hk].
Qed.

Lemma tracks_for_each {X} (xs : list X) (body : X -> CC unit) :
  (forall x, tracks (body x)) -> tracks (for_each xs body).
Proof.
  intros Hb. induction xs as [|x xs IH]; cbn [for_each].
  - apply tracks_ret.
  - apply tracks_bind; [apply Hb|]. intros _. exact IH.
Qed.

Lemma tracks_for_acc {X A} (xs : list X) (body : X -> A -> CC A) :
  (forall x a, tracks (body x a)) -> forall a, tracks (for_acc xs body a).
Proof.
  intros Hb. induction xs as [|x xs IH]; intros a; cbn [for_acc].
  - apply tracks_ret.
  - apply tracks_bind; [apply Hb|]. exact IH.
Qed.

Lemma tracks_collect {X Y} (xs : list X) (f : X -> CC Y) :
  (forall x, tracks (f x)) -> tracks (collect xs f).
Proof.
  intros Hf. induction xs as [|x xs IH]; cbn [collect].
  - apply tracks_ret.
  - apply tracks_bind; [apply Hf|]. intros y.
    apply tracks_bind; [exact IH|]. intros ys. apply tracks_ret.
Qed.

Lemma tracks_env_reset : tracks (env_reset : CC (tobj row)).
Proof. intros c. exists [EnvReset]. split; reflexivity. Qed.

Lemma tracks_env_step actions : tracks (env_step actions : CC _).
Proof. intros c. exists [EnvStep actions]. split; reflexivity. Qed.

Lemma tracks_env_render : tracks (env_render : CC unit).
Proof. intros c. exists [EnvRender]. split; reflexivity. Qed.

Lemma tracks_env_close : tracks (env_close : CC unit).
Proof. intros c. exists [EnvClose]. split; reflexivity. Qed.

Ltac tracks_step :=
  lazymatch goal with
  | |- tracks (ret _) => apply tracks_ret
  | |- tracks (raise _) => apply tracks_raise
  | |- tracks (gets _) => apply tracks_gets
  | |- tracks env_reset => apply tracks_env_reset
  | |- tracks (env_step _) => apply tracks_env_step
  | |- tracks env_render => apply tracks_env_render
  | |- tracks env_close => apply tracks_env_close
  | |- tracks (cnote _) => apply tracks_cnote; reflexivity
  | |- tracks (modify _) => apply tracks_modify; reflexivity
  | |- tracks (for_each _ _) => apply tracks_for_each; intros ?
  | |- tracks (for_acc _ _ _) => apply tracks_for_acc; intros ? ?
  | |- tracks (collect _ _) => apply tracks_collect; intros ?
  | |- tracks (bind _ _) => apply tracks_bind; [|intros ?]
  | |- tracks (match _ with _ => _ end) => case_match
  | |- _ => first [progress cbv zeta | solve [eauto 2]]
  end.

Ltac tracks_tac := repeat tracks_step.

Lemma tracks_cbarrier_wait : tracks (cbarrier_wait : CC unit).
Proof. unfold cbarrier_wait. tracks_tac. Qed.

Lemma tracks_send i m : tracks (send i m : CC unit).
Proof. unfold send. tracks_tac. Qed.

Lemma tracks_cput i o : tracks (cput i o : CC unit).
Proof. unfold cput. tracks_tac. Qed.

Lemma tracks_cget i : tracks (cget i : CC _).
Proof. unfold cget. tracks_tac. Qed.

Lemma tracks_join i : tracks (join i : CC unit).
Proof. unfold join. tracks_tac. Qed.

Lemma tracks_gather n : tracks (gather n : CC _).
Proof. pose proof tracks_cget. unfold gather. tracks_tac. Qed.

Lemma tracks_share_train : tracks (share_memory_train : CC unit).
Proof. unfold share_memory_train, share_memory_of. tracks_tac. Qed.

Lemma tracks_share_eval : tracks (share_memory_eval : CC unit).
Proof. unfold share_memory_eval, share_memory_of. tracks_tac. Qed.

Lemma tracks_bootstrap share : tracks share -> tracks (bootstrap share : CC unit).
Proof.
  intros Hs. pose proof tracks_cbarrier_wait. pose proof tracks_send.
  pose proof tracks_cput. unfold bootstrap. tracks_tac.
Qed.

Lemma tracks_teardown : tracks (teardown : CC unit).
Proof.
  pose proof tracks_send. pose proof tracks_join.
  unfold teardown. tracks_tac.
Qed.

Lemma tracks_compute_actions ts states :
  tracks (compute_actions ts states : CC _).
Proof.
  pose proof tracks_cbarrier_wait. pose proof tracks_send.
  pose proof tracks_cput. pose proof tracks_gather.
  unfold compute_actions. tracks_tac.
Qed.

Lemma tracks_send_transition task ts rw ns dn inf :
  tracks (send_transition task ts rw ns dn inf : CC unit).
Proof.
  pose proof tracks_cbarrier_wait. pose proof tracks_send.
  pose proof tracks_cput. unfold send_transition. tracks_tac.
Qed.

Lemma tracks_broadcast task ts : tracks (broadcast task ts : CC unit).
Proof.
  pose proof tracks_cbarrier_wait. pose proof tracks_send.
  unfold broadcast. tracks_tac.
Qed.

Lemma tracks_reset_check nonzero dn ns (states : tobj row) :
  tracks (reset_check nonzero dn ns states : CC _).
Proof. unfold reset_check. tracks_tac. Qed.

Lemma tracks_train_step nonzero ts (states : tobj row) :
  tracks (train_step nonzero ts states : CC _).
Proof.
  pose proof tracks_broadcast. pose proof tracks_compute_actions.
  pose proof tracks_send_transition. pose proof (tracks_reset_check nonzero).
  unfold train_step. tracks_tac.
Qed.

Lemma tracks_eval_step nonzero ts (states : tobj row) :
  tracks (eval_step nonzero ts states : CC _).
Proof.
  pose proof tracks_compute_actions.
  pose proof tracks_send_transition. pose proof (tracks_reset_check nonzero).
  unfold eval_step. tracks_tac.
Qed.

(** Every run of [train] or [eval] with several workers is tracked,
    however it ends. *)
Lemma train_tracked nonzero sat c :
  num_agents c <> 1 -> tracked c (snd (train nonzero sat c)).
Proof.
  intros Hn. unfold train. rewrite bind_gets.
  destruct (decide (num_agents c = 1)) as [?|_]; [contradiction|].
  revert c Hn. intros c _. revert c.
  change (tracks (bootstrap share_memory_train ;;
                  let* states := env_reset in
                  let* t0 := gets initial_timestep in
                  let* t1 := gets timesteps in
                  for_acc (range t0 t1) (train_step nonzero) states ;;
                  teardown : CC unit)).
  pose proof (tracks_bootstrap _ tracks_share_train).
  pose proof tracks_teardown. pose proof (tracks_train_step nonzero).
  tracks_tac.
Qed.

Lemma eval_tracked nonzero sae c :
  num_agents c <> 1 -> tracked c (snd (eval nonzero sae c)).
Proof.
  intros Hn. unfold eval. rewrite bind_gets.
  destruct (decide (num_agents c = 1)) as [?|_]; [contradiction|].
  revert c Hn. intros c _. revert c.
  change (tracks (bootstrap share_memory_eval ;;
                  let* states := env_reset in
                  let* t0 := gets initial_timestep in
                  let* t1 := gets timesteps in
                  for_acc (range t0 t1) (eval_step nonzero) states ;;
                  teardown : CC unit)).
  pose proof (tracks_bootstrap _ tracks_share_eval).
  pose proof tracks_teardown. pose proof (tracks_eval_step nonzero).
  tracks_tac.
Qed.

Lemma replay_teardown n (e : E) :
  replay (teardown_events (row := row) (Info := Info) (Ag := Ag) n) e
  = close e.
Proof.
  unfold teardown_events. rewrite !replay_app.
  rewrite (replay_id (sends _ _ _)) by (apply sends_Forall; reflexivity).
  rewrite (replay_id (map _ _)) by (apply Forall_map, Forall_true; reflexivity).
  reflexivity.
Qed.

End Tracking.

(** ** The commands a worker sees *)

Lemma received_app (l1 l2 : list (wevent row Info Ag)) :
  received (l1 ++ l2) = received l1 ++ received l2.
Proof. unfold received. apply flat_map_app. Qed.

Lemma received_chain (P : nat -> list (wevent row Info Ag) -> Prop)
    (cmds : nat -> list msg) tsl :
  (forall t b, P t b -> received b = cmds t) ->
  forall dl, chain P tsl dl -> received dl = flat_map cmds tsl.
Proof.
  intros HP. induction tsl as [|t tsl IH]; intros dl; cbn [chain flat_map].
  - now intros ->.
  - intros (b & rest & Hb & -> & Hr).
    rewrite received_app, (HP _ _ Hb), (IH _ Hr). reflexivity.
Qed.

Lemma received_train_block tss ts b :
  is_train_block (row := row) (Info := Info) (Ag := Ag) tss ts b ->
  received b = train_commands tss ts.
Proof. intros (? & ? & ? & ? & ? & ? & ->). reflexivity. Qed.

Lemma received_eval_block tss ts b :
  is_eval_block (row := row) (Info := Info) (Ag := Ag) tss ts b ->
  received b = eval_commands tss ts.
Proof. intros (? & ? & ? & ? & ? & ? & ->). reflexivity. Qed.

(** C2: in a run of [train] with several workers, every timestep of the
    coordinator is, in this order: [pre_interaction] and a barrier wait;
    [act], a barrier wait, the actions and [env.step]; [render];
    [record_transition] and a barrier wait; [post_interaction] and a
    barrier wait; the reset check.  The barrier waits succeed: all
    workers and the coordinator are at the same generation, four per
    timestep.  Every worker handles each command up to its barrier wait
    before it receives the next, so it sees pre, act, record, post of
    timestep [t], then those of timestep [t+1].  The run gets that far
    when no value of an [agent.models] is [None]: [train] calls
    [share_memory()] on each of them before it starts a process. *)
Theorem train_phases_in_lockstep nonzero sat (e : E) ags scs n T t0 hl :
  2 <= n -> n <= length scs -> n <= length ags -> every_model_set ags ->
  exists c' d,
    train nonzero sat (Coord e ags scs n T t0 hl [] 0 []) = (inr tt, c') /\
    trace c' = boot_events n ags ++ [EnvReset] ++ d ++ teardown_events n /\
    chain (is_train_events nonzero n T hl) (range t0 T) d /\
    gen c' = 4 * length (range t0 T) + 2 /\
    Forall2 (fun w0 w =>
               waits w = gen c' /\
               exists dl,
                 log w = log w0 ++ dl ++ [Recv (mk_task "terminate")] /\
                 chain (is_train_block T) (range t0 T) dl /\
                 received dl = flat_map (train_commands T) (range t0 T))
            (boot_workers n scs ags) (workers c').
Proof.
  intros Hn Hs Ha Hm.
  destruct (train_run nonzero sat ags scs n T t0 hl Hn Hs Ha Hm e [])
    as (e' & ws' & d & Hr & Hc & Hg).
  eexists _, d. split; [exact Hr|]. cbn [trace gen workers app].
  do 3 (split; [assumption || reflexivity|]).
  apply Forall2_fmap_r. eapply Forall2_impl; [exact Hg|].
  intros w0 w ((_ & Hw & _) & _ & dl & Hl & Hdl & _).
  unfold after_terminate. cbn [waits log].
  split; [exact Hw|]. exists dl. rewrite Hl, <- app_assoc.
  repeat split; [assumption|].
  eapply received_chain; [|exact Hdl]. apply received_train_block.
Qed.

(** ** Commands that [eval] does not send *)






(** ** The end of a run *)

Lemma torn_down_run n (e e' : E) ags scs T t0 hl ws' g tasks
    (P : nat -> list (cevent row Info Ag) -> Prop)
    (Q : list (wevent row Info Ag) -> Prop) tsl d ws r :
  r = (inr tt,
       Coord (close e') ags scs n T t0 hl (map after_terminate ws') g
             ([] ++ boot_events n ags ++ [EnvReset] ++ d ++ teardown_events n)) ->
  tracked (Coord e ags scs n T t0 hl [] 0 []) (snd r) ->
  (forall t b, P t b -> Forall (loop_event tasks) b) ->
  chain P tsl d ->
  Forall2 (grown Q g) ws ws' ->
  length ws = n ->
  torn_down n e r.
Proof.
  intros -> (d' & Htr & Henv) HP Hc Hg Hn. unfold torn_down.
  cbn [fst snd trace workers gen env app] in *.
  split; [reflexivity|]. split; [|split; [|split]].
  - exists (boot_events n ags ++ [EnvReset] ++ d). split.
    + now rewrite <- !app_assoc.
    + rewrite Henv, <- Htr.
      replace (boot_events n ags ++ [EnvReset] ++ d ++ teardown_events n)
        with ((boot_events n ags ++ [EnvReset] ++ d) ++ teardown_events n)
        by now rewrite <- !app_assoc.
      now rewrite replay_app, replay_teardown.
  - eapply run_closes_once; eassumption.
  - rewrite length_map. rewrite <- Hn. apply (grown_length _ _ _ _ Hg).
  - eapply exited_workers; eassumption.
Qed.

(** C8: when the loop of [train] or [eval] is over, [terminate] is sent to
    every worker; a worker that receives it leaves its loop at once, with
    no further barrier wait; the processes are joined; and the
    environment is closed exactly once, after the joins: the run ends
    with the environment [close] returns.  [eval] gets there for all
    agents, [train] when no value of an [agent.models] is [None]. *)
Theorem terminate_join_close nonzero sat sae (e : E) ags scs n T t0 hl :
  2 <= n -> n <= length scs -> n <= length ags ->
  (forall w : worker row Info Ag,
     dispatch (mk_task "terminate") w = (inr Break, w)) /\
  (every_model_set ags ->
   torn_down n e (train nonzero sat (Coord e ags scs n T t0 hl [] 0 []))) /\
  torn_down n e (eval nonzero sae (Coord e ags scs n T t0 hl [] 0 [])).
Proof.
  intros Hn Hs Ha. split; [apply dispatch_terminate|].
  assert (Hne : n <> 1) by lia. split.
  - intros Hm.
    destruct (train_run nonzero sat ags scs n T t0 hl Hn Hs Ha Hm e [])
      as (e' & ws' & d & Hr & Hc & Hg).
    eapply torn_down_run; [exact Hr| | |exact Hc|exact Hg|].
    + now apply train_tracked.
    + apply train_events_loop.
    + now apply boot_workers_length.
  - destruct (eval_run nonzero sae ags scs n T t0 hl Hn Hs Ha e [])
      as (e' & ws' & d & Hr & Hc & Hg).
    eapply torn_down_run; [exact Hr| | |exact Hc|exact Hg|].
    + now apply eval_tracked.
    + apply eval_events_loop.
    + now apply boot_workers_length.
Qed.


(** C6: with exactly one agent, [train] and [eval] initialise the agent,
    run the sequential single-agent method of the base class and return.
    They create no barrier, pipe or queue, start no process and wait on
    nothing. *)
Theorem single_agent_stays_in_process nonzero sat sae
    (c : coord row Info Ag E) :
  num_agents c = 1 ->
  let rt := train nonzero sat c in
  let re := eval nonzero sae c in
  fst rt = inr tt /\
  trace (snd rt) = trace c ++ [AgentsInit; SingleAgentTrain] /\
  workers (snd rt) = workers c /\ gen (snd rt) = gen c /\
  (env (snd rt), agents (snd rt)) = sat (env c, map init (agents c)) /\
  fst re = inr tt /\
  trace (snd re) = trace c ++ [AgentsInit; SingleAgentEval] /\
  workers (snd re) = workers c /\ gen (snd re) = gen c /\
  (env (snd re), agents (snd re)) = sae (env c, map init (agents c)).
Proof.
  intros Hn. destruct c as [e ags scs n T t0 hl ws g tr]. cbn in Hn. subst n.
  cbv zeta. unfold train, eval. rewrite !bind_gets. cbn [num_agents].
  destruct (decide (1 = 1)) as [_|Hne]; [|now destruct Hne].
  cbv [bind agents_init call_single cnote modify note set_agents set_env
       fst snd trace workers gen env agents agents_scope num_agents timesteps
       initial_timestep headless].
  rewrite <- !app_assoc. cbn [app].
  repeat split; try reflexivity.
  - now destruct (sat (e, map init ags)).
  - now destruct (sae (e, map init ags)).
Qed.

(** ** Stacking the actions *)

Lemma stacked_rows (f : worker row Info Ag -> list row) (states : list row) :
  forall ws from,
    contiguous from (map scope ws) (length states) ->
    Forall (fun w => length (f w) = length (own w states)) ws ->
    from <= length states /\
    length (vstack (map f ws)) = length states - from /\
    forall i, from <= i < length states ->
      exists k w, ws !! k = Some w /\
                  fst (scope w) <= i < snd (scope w) /\
                  vstack (map f ws) !! (i - from) = f w !! (i - fst (scope w)).
Proof.
  induction ws as [|w ws IH]; intros from Hc Hl; cbn [map contiguous] in Hc.
  - subst from. cbn. split; [lia|]. split; [lia|]. intros i Hi. lia.
  - destruct Hc as (Hf & Hle & Hc). apply Forall_cons in Hl as [Hw Hl].
    destruct (IH _ Hc Hl) as (Hb & Hlen & Hrows).
    assert (Hfw : length (f w) = snd (scope w) - from).
    { rewrite Hw. unfold own. rewrite slice_length; lia. }
    unfold vstack in *. cbn [map concat]. rewrite length_app, Hlen, Hfw.
    split; [lia|]. split; [lia|]. intros i Hi.
    destruct (decide (i < snd (scope w))) as [Hlt|Hge].
    + exists 0, w. split; [reflexivity|]. split; [lia|].
      rewrite lookup_app_l by lia. now rewrite Hf.
    + destruct (Hrows i ltac:(lia)) as (k & w' & Hk & Hin & Hrow).
      exists (S k), w'. split; [exact Hk|]. split; [lia|].
      rewrite lookup_app_r by lia. rewrite <- Hrow. f_equal. lia.
Qed.

Lemma rows_by_scope_stacked (f : worker row Info Ag -> list row) states ws :
  contiguous 0 (map scope ws) (length states) ->
  Forall (fun w => length (f w) = length (own w states)) ws ->
  rows_by_scope f ws states (vstack (map f ws)).
Proof.
  intros Hc Hl. destruct (stacked_rows f states ws 0 Hc Hl) as (_ & Hlen & Hr).
  split; [lia|]. intros i Hi.
  destruct (Hr i ltac:(lia)) as (k & w & ? & ? & Hrow).
  exists k, w. rewrite Nat.sub_0_r in Hrow. auto.
Qed.

Lemma filter_none {X} (p : X -> bool) (l : list X) :
  Forall (fun x => p x = false) l -> List.filter p l = [].
Proof.
  induction 1 as [|x l Hx _ IH]; [reflexivity|].
  cbn [List.filter]. now rewrite Hx.
Qed.

Lemma sends_no_step n m os :
  Forall (fun ev : cevent row Info Ag => is_step ev = false) (sends n m os).
Proof. apply sends_Forall; reflexivity. Qed.

Lemma act_events_one_step n ts tss (states actions : list row) :
  List.filter is_step
    (act_events (Info := Info) (Ag := Ag) n ts tss states actions)
  = [EnvStep actions].
Proof.
  unfold act_events. rewrite !List.filter_app.
  rewrite (filter_none _ _ (sends_no_step _ _ _)).
  rewrite (filter_none _ (map _ _)); [reflexivity|].
  apply Forall_map, Forall_true. reflexivity.
Qed.

Lemma tail_events_no_step nonzero hl (dn : list row) :
  List.filter is_step (render_events (row := row) (Info := Info) (Ag := Ag) hl)
  = [] /\
  List.filter is_step
    (reset_events (Info := Info) (Ag := Ag) nonzero dn) = [].
Proof.
  unfold render_events, reset_events.
  destruct hl, (any nonzero dn); split; reflexivity.
Qed.

Lemma train_events_one_step nonzero n ts tss hl
    (states actions rw ns dn : list row) (inf : Info) :
  List.filter is_step
    (train_events (Ag := Ag) nonzero n ts tss hl states actions rw ns dn inf)
  = [EnvStep actions].
Proof.
  unfold train_events. rewrite !List.filter_app.
  rewrite !(filter_none _ _ (sends_no_step _ _ _)).
  rewrite act_events_one_step.
  destruct (tail_events_no_step nonzero hl dn) as [-> ->]. reflexivity.
Qed.

Lemma eval_events_one_step nonzero n ts tss hl
    (states actions rw ns dn : list row) (inf : Info) :
  List.filter is_step
    (eval_events (Ag := Ag) nonzero n ts tss hl states actions rw ns dn inf)
  = [EnvStep actions].
Proof.
  unfold eval_events. rewrite !List.filter_app.
  rewrite !(filter_none _ _ (sends_no_step _ _ _)).
  rewrite act_events_one_step.
  destruct (tail_events_no_step nonzero hl dn) as [-> ->]. reflexivity.
Qed.

Lemma scopes_after_pre g ts tss ws :
  Forall (ready g) ws ->
  map scope (map (after_pre ts tss) ws) = map scope ws.
Proof.
  intros Hr. rewrite map_map. apply map_ext_Forall.
  eapply Forall_impl; [exact Hr|]. intros w Hw. ready_worker Hw. reflexivity.
Qed.

(** C1: in every timestep of [train] and of [eval] with at least two
    workers, the tensor given to [env.step] is the [vstack] of the
    workers' actions in worker order.  When the scopes, in that order,
    cut the batch into consecutive ranges and every agent returns one
    action row per state row, the tensor has the batch's row count and
    row [i] comes from the worker whose scope holds [i]. *)
Theorem actions_stacked_in_worker_order nonzero ags scs n T t0 (hl : bool) ts
    (sid : nat) (states : list row) (e : E) ws g tr :
  Forall (ready g) ws -> n = length ws -> 2 <= n ->
  let c := Coord e ags scs n T t0 hl ws g tr in
  let ws1 := map (after_pre ts T) ws in
  let f := actions_of ts T states in
  (exists s' c' d,
     train_step nonzero ts (sid, states) c = (inr s', c') /\
     trace c' = tr ++ d /\
     List.filter is_step d = [EnvStep (vstack (map f ws1))]) /\
  (exists s' c' d,
     eval_step nonzero ts (sid, states) c = (inr s', c') /\
     trace c' = tr ++ d /\
     List.filter is_step d = [EnvStep (vstack (map f ws))]) /\
  (contiguous 0 (map scope ws) (length states) ->
   (Forall (fun w => length (f w) = length (own w states)) ws1 ->
    rows_by_scope f ws1 states (vstack (map f ws1))) /\
   (Forall (fun w => length (f w) = length (own w states)) ws ->
    rows_by_scope f ws states (vstack (map f ws)))).
Proof.
  intros Hr Hn Hpos c ws1 f. split; [|split].
  - destruct (step e (train_actions ts T states ws))
      as [[[[ns rw] dn] inf] e1] eqn:Hstep.
    do 3 eexists. split; [|split].
    + apply (train_step_run nonzero ags scs n T t0 hl ts sid states e e1 ws
               g tr ns rw dn inf Hr Hn ltac:(lia) Hstep).
    + reflexivity.
    + apply train_events_one_step.
  - destruct (step e (eval_actions ts T states ws))
      as [[[[ns rw] dn] inf] e1] eqn:Hstep.
    do 3 eexists. split; [|split].
    + apply (eval_step_run nonzero ags scs n T t0 hl ts sid states e e1 ws
               g tr ns rw dn inf Hr Hn ltac:(lia) Hstep).
    + reflexivity.
    + apply eval_events_one_step.
  - intros Hc. split; intros Hl.
    + apply rows_by_scope_stacked; [|exact Hl].
      unfold ws1. now rewrite (scopes_after_pre g).
    + now apply rows_by_scope_stacked.
Qed.

(** ** The reset check *)

Lemma sends_no_reset n m os :
  Forall (fun ev : cevent row Info Ag => is_reset ev = false) (sends n m os).
Proof. apply sends_Forall; reflexivity. Qed.

Lemma act_events_no_reset n ts tss (states actions : list row) :
  Forall (fun ev : cevent row Info Ag => is_reset ev = false)
         (act_events n ts tss states actions).
Proof.
  unfold act_events. rewrite !Forall_app.
  repeat split; try (repeat constructor; fail).
  - apply sends_no_reset.
  - apply Forall_map, Forall_true. reflexivity.
Qed.

Lemma render_events_no_reset hl :
  Forall (fun ev : cevent row Info Ag => is_reset ev = false)
         (render_events hl).
Proof. destruct hl; repeat constructor. Qed.

Lemma any_spec nonzero (dn : list row) :
  any nonzero dn = true <-> exists r, In r dn /\ nonzero r = true.
Proof. unfold any. apply existsb_exists. Qed.

Lemma train_events_split nonzero n ts tss hl (states actions rw ns dn : list row)
    (inf : Info) :
  exists before : list (cevent row Info Ag),
    train_events nonzero n ts tss hl states actions rw ns dn inf
    = before ++ reset_events nonzero dn /\
    count is_reset before = 0.
Proof.
  eexists. split.
  - unfold train_events. rewrite !app_assoc. reflexivity.
  - apply count_none. rewrite !Forall_app.
    repeat split; try (repeat constructor; fail);
      auto using sends_no_reset, act_events_no_reset, render_events_no_reset.
Qed.

Lemma eval_events_split nonzero n ts tss hl (states actions rw ns dn : list row)
    (inf : Info) :
  exists before : list (cevent row Info Ag),
    eval_events nonzero n ts tss hl states actions rw ns dn inf
    = before ++ reset_events nonzero dn /\
    count is_reset before = 0.
Proof.
  eexists. split.
  - unfold eval_events. rewrite !app_assoc. reflexivity.
  - apply count_none. rewrite !Forall_app.
    repeat split; try (repeat constructor; fail);
      auto using sends_no_reset, act_events_no_reset, render_events_no_reset.
Qed.

(** C5: at the end of each timestep of [train] and of [eval],
    [env.reset()] is called, and its result replaces [states], exactly
    when some element of [dones] is true; otherwise [next_states] is
    copied into [states] in place and there is no reset. *)
Theorem reset_iff_any_done nonzero ags scs n T t0 (hl : bool) ts
    (sid : nat) (states : list row) (e e1 : E) ws g tr ns rw dn inf :
  Forall (ready g) ws -> n = length ws -> 0 < n ->
  let e2 := if hl then e1 else render e1 in
  let c := Coord e ags scs n T t0 hl ws g tr in
  (any nonzero dn = true <-> exists r, In r dn /\ nonzero r = true) /\
  (step e (train_actions ts T states ws) = ((ns, rw, dn, inf), e1) ->
   reset_checked nonzero tr (sid, states) dn ns e2
                 (train_step nonzero ts (sid, states) c)) /\
  (step e (eval_actions ts T states ws) = ((ns, rw, dn, inf), e1) ->
   reset_checked nonzero tr (sid, states) dn ns e2
                 (eval_step nonzero ts (sid, states) c)).
Proof.
  intros Hr Hn Hpos e2 c. split; [apply any_spec|]. split; intros Hstep.
  - unfold c. rewrite (train_step_run nonzero ags scs n T t0 hl ts sid states
                         e e1 ws g tr ns rw dn inf Hr Hn Hpos Hstep).
    fold e2.
    destruct (train_events_split nonzero n ts T hl states
                (train_actions ts T states ws) rw ns dn inf)
      as (before & Hsplit & Hb).
    rewrite Hsplit.
    exists before. cbn [fst snd trace env]. split; [reflexivity|].
    split; [exact Hb|]. unfold reset_events.
    destruct (any nonzero dn); auto.
  - unfold c. rewrite (eval_step_run nonzero ags scs n T t0 hl ts sid states
                         e e1 ws g tr ns rw dn inf Hr Hn Hpos Hstep).
    fold e2.
    destruct (eval_events_split nonzero n ts T hl states
                (eval_actions ts T states ws) rw ns dn inf)
      as (before & Hsplit & Hb).
    rewrite Hsplit.
    exists before. cbn [fst snd trace env]. split; [reflexivity|].
    split; [exact Hb|]. unfold reset_events.
    destruct (any nonzero dn); auto.
Qed.

(** * Further properties of [parallel.py] *)

(** ** A run without timesteps *)

Lemma bind_ret {St X Y} (x : X) (k : X -> M St Y) s :
  bind (ret x) k s = k x s.
Proof. reflexivity. Qed.

Lemma range_empty a b : b <= a -> range a b = [].
Proof. intros Hle. unfold range. now replace (b - a) with 0 by lia. Qed.

(** X1: when [timesteps <= initial_timestep] the loop body never runs, but
    a run with several workers still starts the processes, hands the
    agents over and initialises them, resets the environment once, and
    tears everything down: no [step], one [reset], one [close].  [eval]
    does so for all agents, [train] when no value of an [agent.models]
    is [None]. *)
Theorem no_timesteps_boot_and_teardown nonzero sat sae (e : E) ags scs n T t0
    hl tr :
  2 <= n -> n <= length scs -> n <= length ags -> T <= t0 ->
  let final :=
    Coord (close (snd (reset e))) ags scs n T t0 hl
          (map after_terminate (boot_workers n scs ags)) 2
          (tr ++ boot_events n ags ++ [EnvReset] ++ teardown_events n) in
  (every_model_set ags ->
   train nonzero sat (Coord e ags scs n T t0 hl [] 0 tr) = (inr tt, final)) /\
  eval nonzero sae (Coord e ags scs n T t0 hl [] 0 tr) = (inr tt, final).
Proof.
  intros Hn Hs Ha HT final.
  assert (Hlen : n = length (boot_workers n scs ags)).
  { symmetry. now apply boot_workers_length. }
  split.
  - intros Hm. unfold train. rewrite bind_gets. cbn [num_agents].
    destruct (decide (n = 1)) as [?|_]; [lia|].
    rewrite (bind_ok _ _ _ _ _
               (bootstrap_run ags scs n T t0 hl _ e tr
                  (fun e ws g tr =>
                     share_memory_train_run ags scs n T t0 hl e ws g tr Hm)
                  Hs Ha)).
    rewrite (bind_ok _ _ _ _ _ (env_reset_run _ _ _ _ _ _ _ _ _ _)).
    rewrite !bind_gets. cbn [initial_timestep timesteps].
    rewrite (range_empty _ _ HT). cbn [for_acc].
    rewrite bind_ret.
    rewrite (teardown_run ags scs n T t0 hl _ _ _ _
               (boot_workers_ready ags scs n) Hlen).
    unfold final. now rewrite <- !app_assoc.
  - unfold eval. rewrite bind_gets. cbn [num_agents].
    destruct (decide (n = 1)) as [?|_]; [lia|].
    rewrite (bind_ok _ _ _ _ _
               (bootstrap_run ags scs n T t0 hl _ e tr
                  (share_memory_eval_run ags scs n T t0 hl) Hs Ha)).
    rewrite (bind_ok _ _ _ _ _ (env_reset_run _ _ _ _ _ _ _ _ _ _)).
    rewrite !bind_gets. cbn [initial_timestep timesteps].
    rewrite (range_empty _ _ HT). cbn [for_acc].
    rewrite bind_ret.
    rewrite (teardown_run ags scs n T t0 hl _ _ _ _
               (boot_workers_ready ags scs n) Hlen).
    unfold final. now rewrite <- !app_assoc.
Qed.

(** ** How often the environment is called *)

Lemma chain_count {X} (P : nat -> list X -> Prop) (p : X -> bool) k tsl :
  (forall t b, P t b -> count p b = k) ->
  forall d, chain P tsl d -> count p d = k * length tsl.
Proof.
  intros HP. induction tsl as [|t tsl IH]; intros d; cbn [chain length].
  - intros ->. cbn. lia.
  - intros (b & rest & Hb & -> & Hr).
    rewrite count_app, (HP _ _ Hb), (IH _ Hr). lia.
Qed.

Lemma chain_count_le {X} (P : nat -> list X -> Prop) (p : X -> bool) k tsl :
  (forall t b, P t b -> count p b <= k) ->
  forall d, chain P tsl d -> count p d <= k * length tsl.
Proof.
  intros HP. induction tsl as [|t tsl IH]; intros d; cbn [chain length].
  - intros ->. cbn. lia.
  - intros (b & rest & Hb & -> & Hr).
    rewrite count_app. specialize (HP _ _ Hb). specialize (IH _ Hr). lia.
Qed.

Lemma boot_events_Forall (Q : cevent row Info Ag -> Prop) n (ags : list Ag) :
  (forall k, Q (MkBarrier k)) -> Q MkPipe -> Q MkQueue ->
  Q ShareMemory -> Q ShareModel ->
  (forall i, Q (Spawn i)) -> Q Wait ->
  (forall i m, Q (Send i m)) -> (forall i o, Q (QPut i o)) ->
  Forall Q (boot_events n ags).
Proof.
  intros. unfold boot_events. rewrite !Forall_app.
  repeat split; try (repeat constructor; auto; fail).
  - generalize (range 0 n) as l.
    induction l; cbn [flat_map app]; repeat constructor; auto.
  - now apply share_events_Forall.
  - apply Forall_map, Forall_true. auto.
  - generalize (zip (range 0 n) ags) as l.
    induction l; cbn [flat_map app]; repeat constructor; auto.
Qed.

Lemma teardown_events_Forall (Q : cevent row Info Ag -> Prop) n :
  (forall i m, Q (Send i m)) -> (forall i o, Q (QPut i o)) ->
  (forall i, Q (Join i)) -> Q EnvClose ->
  Forall Q (teardown_events n).
Proof.
  intros. unfold teardown_events. rewrite !Forall_app.
  repeat split; try (repeat constructor; auto; fail).
  - apply sends_Forall; auto.
  - apply Forall_map, Forall_true. auto.
Qed.

Section EventCounts.
Variable p : cevent row Info Ag -> bool.
Hypothesis p_send : forall i m, p (Send i m) = false.
Hypothesis p_put : forall i o, p (QPut i o) = false.
Hypothesis p_get : forall i, p (QGet i) = false.
Hypothesis p_wait : p Wait = false.

Lemma sends_count0 n m os : count p (sends n m os) = 0.
Proof. apply count_none, sends_Forall; auto. Qed.

Lemma act_events_count n ts tss (states actions : list row) :
  count p (act_events n ts tss states actions) = count p [EnvStep actions].
Proof.
  unfold act_events. rewrite !count_app, sends_count0.
  rewrite (count_none p (map _ _)) by (apply Forall_map, Forall_true; auto).
  unfold count at 1. cbn [List.filter]. rewrite p_wait. reflexivity.
Qed.

Lemma wait_count0 : count p [Wait] = 0.
Proof. unfold count. cbn [List.filter]. now rewrite p_wait. Qed.

Lemma train_events_count nonzero n ts tss hl
    (states actions rw ns dn : list row) (inf : Info) :
  count p (train_events nonzero n ts tss hl states actions rw ns dn inf)
  = count p [EnvStep actions] + count p (render_events hl)
    + count p (reset_events nonzero dn).
Proof.
  unfold train_events.
  rewrite !count_app, !sends_count0, act_events_count, !wait_count0. lia.
Qed.

Lemma eval_events_count nonzero n ts tss hl
    (states actions rw ns dn : list row) (inf : Info) :
  count p (eval_events nonzero n ts tss hl states actions rw ns dn inf)
  = count p [EnvStep actions] + count p (render_events hl)
    + count p (reset_events nonzero dn).
Proof.
  unfold eval_events.
  rewrite !count_app, !sends_count0, act_events_count, !wait_count0. lia.
Qed.

End EventCounts.

Lemma block_env_calls nonzero n ts tss (hl : bool)
    (states actions rw ns dn : list row) (inf : Info) b :
  b = train_events (Ag := Ag) nonzero n ts tss hl states actions rw ns dn inf \/
  b = eval_events (Ag := Ag) nonzero n ts tss hl states actions rw ns dn inf ->
  count is_step b = 1 /\
  count is_render b = (if hl then 0 else 1) /\
  count is_reset b <= 1.
Proof.
  intros [-> | ->];
    rewrite ?train_events_count, ?eval_events_count by reflexivity;
    unfold render_events, reset_events;
    destruct hl, (any nonzero dn); cbn; repeat split; lia.
Qed.

Lemma run_env_calls tasks n (ags : list Ag) (hl : bool)
    (P : nat -> list (cevent row Info Ag) -> Prop) tsl d :
  (forall t b, P t b ->
     Forall (loop_event tasks) b /\
     count is_step b = 1 /\
     count is_render b = (if hl then 0 else 1) /\
     count is_reset b <= 1) ->
  chain P tsl d ->
  env_calls (length tsl) hl
            (boot_events n ags ++ [EnvReset] ++ d ++ teardown_events n).
Proof.
  intros HP Hc. unfold env_calls.
  assert (Hboot : forall p : cevent row Info Ag -> bool,
             (forall k, p (MkBarrier k) = false) -> p MkPipe = false ->
             p MkQueue = false -> p ShareMemory = false ->
             p ShareModel = false -> (forall i, p (Spawn i) = false) ->
             p Wait = false -> (forall i m, p (Send i m) = false) ->
             (forall i o, p (QPut i o) = false) ->
             count p (boot_events n ags) = 0).
  { intros. apply count_none. now apply boot_events_Forall. }
  assert (Htear : forall p : cevent row Info Ag -> bool,
             (forall i m, p (Send i m) = false) ->
             (forall i o, p (QPut i o) = false) ->
             (forall i, p (Join i) = false) -> p EnvClose = false ->
             count p (teardown_events n) = 0).
  { intros. apply count_none. now apply teardown_events_Forall. }
  pose proof (chain_count P is_step 1 tsl
                (fun t b H => proj1 (proj2 (HP t b H))) d Hc) as Hst.
  pose proof (chain_count P is_render (if hl then 0 else 1) tsl
                (fun t b H => proj1 (proj2 (proj2 (HP t b H)))) d Hc) as Hrn.
  pose proof (chain_count_le P is_reset 1 tsl
                (fun t b H => proj2 (proj2 (proj2 (HP t b H)))) d Hc) as Hre.
  split; [|split; [|split]].
  - rewrite !count_app, Hboot, Htear, Hst by reflexivity. cbn. lia.
  - rewrite !count_app, Hboot, Htear, Hrn by reflexivity.
    destruct hl; cbn; lia.
  - rewrite !count_app, Hboot, Htear by reflexivity. cbn. lia.
  - eapply run_closes_once; [|exact Hc]. intros t b Hb. apply (HP t b Hb).
Qed.

Lemma tracked_from_start c c' :
  tracked c c' -> trace c = [] -> env c' = replay (trace c') (env c).
Proof. intros (d & Ht & He) Hc. rewrite Hc in Ht. now rewrite Ht, He. Qed.

(** X2: a run of [train] or [eval] with several workers over
    [k = timesteps - initial_timestep] timesteps calls [env.step] exactly
    [k] times, [env.render] [k] times (never when headless), [env.reset]
    once before the loop and at most once per timestep, and [env.close]
    once; the environment it ends with is the one these calls, in the
    order of the trace, make of the one it started with.  [eval] gets
    there for all agents, [train] when no value of an [agent.models] is
    [None]. *)
Theorem env_calls_per_run nonzero sat sae (e : E) ags scs n T t0 (hl : bool) :
  2 <= n -> n <= length scs -> n <= length ags ->
  (every_model_set ags ->
   exists c',
     train nonzero sat (Coord e ags scs n T t0 hl [] 0 []) = (inr tt, c') /\
     env_calls (T - t0) hl (trace c') /\
     env c' = replay (trace c') e) /\
  (exists c',
     eval nonzero sae (Coord e ags scs n T t0 hl [] 0 []) = (inr tt, c') /\
     env_calls (T - t0) hl (trace c') /\
     env c' = replay (trace c') e).
Proof.
  intros Hn Hs Ha.
  assert (Hk : length (range t0 T) = T - t0) by apply length_seq.
  assert (Hne : n <> 1) by lia.
  split.
  - intros Hm.
    destruct (train_run nonzero sat ags scs n T t0 hl Hn Hs Ha Hm e [])
      as (e' & ws' & d & Hr & Hc & _).
    pose proof (tracked_from_start _ _
                  (train_tracked nonzero sat
                     (Coord e ags scs n T t0 hl [] 0 []) Hne) eq_refl) as Ht.
    rewrite Hr in Ht.
    eexists. split; [exact Hr|]. split; [|exact Ht].
    cbn [trace app]. rewrite <- Hk.
    apply (run_env_calls train_tasks _ _ _ _ _ _ ltac:(
             intros t b Hb; split; [eapply train_events_loop; exact Hb|];
             destruct Hb as (? & ? & ? & ? & ? & ? & ->);
             eapply block_env_calls; left; reflexivity) Hc).
  - destruct (eval_run nonzero sae ags scs n T t0 hl Hn Hs Ha e [])
      as (e' & ws' & d & Hr & Hc & _).
    pose proof (tracked_from_start _ _
                  (eval_tracked nonzero sae
                     (Coord e ags scs n T t0 hl [] 0 []) Hne) eq_refl) as Ht.
    rewrite Hr in Ht.
    eexists. split; [exact Hr|]. split; [|exact Ht].
    cbn [trace app]. rewrite <- Hk.
    apply (run_env_calls eval_tasks _ _ _ _ _ _ ltac:(
             intros t b Hb; split; [eapply eval_events_loop; exact Hb|];
             destruct Hb as (? & ? & ? & ? & ? & ? & ->);
             eapply block_env_calls; right; reflexivity) Hc).
Qed.

(** ** What the workers have done at the end of a run *)

Lemma boot_workers_log n scs (ags : list Ag) :
  Forall (fun w : worker row Info Ag => log w = boot_log)
         (boot_workers n scs ags).
Proof.
  unfold boot_workers. generalize (take n scs) as l. intros l.
  generalize ags as ys.
  induction l as [|sc l IH]; intros [|y ys]; cbn [zip_with];
    try constructor; [reflexivity|apply IH].
Qed.

(** The log of a worker at the end of a run over the timesteps [tsl]. *)
Lemma final_logs (P : nat -> list (wevent row Info Ag) -> Prop) tsl g n scs
    (ags : list Ag) ws' :
  Forall2 (grown (chain P tsl) g) (boot_workers n scs ags) ws' ->
  Forall (fun w => pipe w = [] /\ queue w = [] /\
                   exists dl, chain P tsl dl /\
                     log w = boot_log ++ dl ++ [Recv (mk_task "terminate")])
         (map after_terminate ws').
Proof.
  intros Hg. apply Forall_map, Forall_lookup. intros i w' Hw'.
  destruct (Forall2_lookup_r _ _ _ _ _ Hg Hw') as (w0 & Hw0 & Hgr).
  destruct Hgr as ((_ & _ & _ & Hq & _) & _ & dl & Hl & Hdl & _).
  pose proof (boot_workers_log n scs ags) as Hb.
  rewrite Forall_lookup in Hb. specialize (Hb _ _ Hw0). cbn in Hb.
  unfold after_terminate. cbn [pipe queue log].
  split; [reflexivity|]. split; [exact Hq|].
  exists dl. split; [exact Hdl|]. rewrite Hl, Hb. now rewrite <- app_assoc.
Qed.





(** ** Commands sent and commands received *)

Lemma count_flat_map {X Y} (p : Y -> bool) (h : X -> list Y) k (l : list X) :
  (forall x, count p (h x) = k) -> count p (flat_map h l) = k * length l.
Proof.
  intros Hh. induction l as [|x l IH]; cbn [flat_map length]; [cbn; lia|].
  rewrite count_app, Hh, IH. lia.
Qed.

Lemma count_puts i os :
  count is_send (map (QPut (row := row) (Info := Info) (Ag := Ag) i) os) = 0.
Proof. apply count_none, Forall_map, Forall_true. reflexivity. Qed.

Lemma sends_send_count n m os :
  count is_send (sends (row := row) (Info := Info) (Ag := Ag) n m os) = n.
Proof.
  unfold sends. rewrite (count_flat_map _ _ 1).
  - unfold range. rewrite length_seq. lia.
  - intros i. change (Send i m :: map (QPut i) os)
      with ([Send i m] ++ map (QPut i) os).
    now rewrite count_app, count_puts.
Qed.

Lemma boot_send_count n (ags : list Ag) :
  n <= length ags ->
  count is_send (boot_events (row := row) (Info := Info) n ags) = n.
Proof.
  intros Ha. unfold boot_events. rewrite !count_app.
  rewrite (count_flat_map _ _ 0) by reflexivity.
  rewrite (count_none _ (share_events _)) by now apply share_events_Forall.
  rewrite (count_none _ (map Spawn _)) by (apply Forall_map, Forall_true; done).
  rewrite (count_flat_map _ _ 1) by reflexivity.
  rewrite length_zip. unfold range. rewrite length_seq. cbn. lia.
Qed.

Lemma teardown_send_count n :
  count is_send (teardown_events (row := row) (Info := Info) (Ag := Ag) n) = n.
Proof.
  unfold teardown_events. rewrite !count_app, sends_send_count.
  rewrite (count_none _ (map Join _)) by (apply Forall_map, Forall_true; done).
  cbn. lia.
Qed.

Lemma act_send_count n ts tss (states actions : list row) :
  count is_send (act_events (Info := Info) (Ag := Ag) n ts tss states actions)
  = n.
Proof.
  unfold act_events. rewrite !count_app, sends_send_count.
  rewrite (count_none _ (map QGet _)) by (apply Forall_map, Forall_true; done).
  cbn. lia.
Qed.

Lemma tail_send_count nonzero hl (dn : list row) :
  count is_send (render_events (row := row) (Info := Info) (Ag := Ag) hl) = 0 /\
  count is_send (reset_events (Info := Info) (Ag := Ag) nonzero dn) = 0.
Proof.
  unfold render_events, reset_events.
  destruct hl, (any nonzero dn); split; reflexivity.
Qed.

Lemma train_send_count nonzero n tss hl ts (b : list (cevent row Info Ag)) :
  is_train_events nonzero n tss hl ts b -> count is_send b = 4 * n.
Proof.
  intros (states & actions & rw & ns & dn & inf & ->).
  destruct (tail_send_count nonzero hl dn) as [Hr Hd].
  unfold train_events.
  rewrite !count_app, !sends_send_count, act_send_count, Hr, Hd. cbn. lia.
Qed.

Lemma eval_send_count nonzero n tss hl ts (b : list (cevent row Info Ag)) :
  is_eval_events nonzero n tss hl ts b -> count is_send b = 2 * n.
Proof.
  intros (states & actions & rw & ns & dn & inf & ->).
  destruct (tail_send_count nonzero hl dn) as [Hr Hd].
  unfold eval_events.
  rewrite !count_app, !sends_send_count, act_send_count, Hr, Hd. cbn. lia.
Qed.

Lemma final_drained (P : nat -> list (wevent row Info Ag) -> Prop)
    (cmds : nat -> list msg) (k : nat) tsl (w : worker row Info Ag) :
  (forall t b, P t b -> received b = cmds t) ->
  (forall t, length (cmds t) = k) ->
  pipe w = [] /\ queue w = [] /\
  (exists dl, chain P tsl dl /\
     log w = boot_log ++ dl ++ [Recv (mk_task "terminate")]) ->
  drained (k * length tsl + 2) w.
Proof.
  intros HP Hk (Hp & Hq & dl & Hdl & Hl). unfold drained.
  split; [exact Hp|]. split; [exact Hq|].
  rewrite Hl, !received_app, !length_app.
  rewrite (received_chain P cmds tsl HP dl Hdl).
  assert (Hf : length (flat_map cmds tsl) = k * length tsl).
  { clear -Hk. induction tsl as [|t tsl IH]; cbn [flat_map length]; [lia|].
    rewrite length_app, Hk, IH. lia. }
  rewrite Hf. cbn. lia.
Qed.

(** X4: in a run with several workers no command is lost or left over.
    [train] sends [4 k + 2] commands to each of the [n] workers ([init],
    four per timestep, [terminate]), [eval] sends [2 k + 2]; every worker
    has received exactly that many when the run ends, and its pipe and its
    queue are empty.  [eval] gets there for all agents, [train] when no
    value of an [agent.models] is [None]. *)
Theorem commands_all_consumed nonzero sat sae (e : E) ags scs n T t0 hl :
  2 <= n -> n <= length scs -> n <= length ags ->
  let k := T - t0 in
  (every_model_set ags ->
   exists c',
     train nonzero sat (Coord e ags scs n T t0 hl [] 0 []) = (inr tt, c') /\
     count is_send (trace c') = n * (4 * k + 2) /\
     Forall (drained (4 * k + 2)) (workers c')) /\
  (exists c',
     eval nonzero sae (Coord e ags scs n T t0 hl [] 0 []) = (inr tt, c') /\
     count is_send (trace c') = n * (2 * k + 2) /\
     Forall (drained (2 * k + 2)) (workers c')).
Proof.
  intros Hn Hs Ha k.
  assert (Hk : length (range t0 T) = k) by apply length_seq.
  split.
  - intros Hm.
    destruct (train_run nonzero sat ags scs n T t0 hl Hn Hs Ha Hm e [])
      as (e' & ws' & d & Hr & Hc & Hg).
    eexists. split; [exact Hr|]. cbn [workers trace]. rewrite app_nil_l. split.
    + rewrite !count_app, boot_send_count, teardown_send_count by assumption.
      rewrite (chain_count _ is_send (4 * n) _
                 (train_send_count nonzero n T hl) d Hc), Hk. cbn. lia.
    + eapply Forall_impl; [apply (final_logs _ _ _ _ _ _ _ Hg)|].
      intros w Hw. rewrite <- Hk.
      apply (final_drained (is_train_block T) (train_commands T));
        [apply received_train_block|reflexivity|exact Hw].
  - destruct (eval_run nonzero sae ags scs n T t0 hl Hn Hs Ha e [])
      as (e' & ws' & d & Hr & Hc & Hg).
    eexists. split; [exact Hr|]. cbn [workers trace]. rewrite app_nil_l. split.
    + rewrite !count_app, boot_send_count, teardown_send_count by assumption.
      rewrite (chain_count _ is_send (2 * n) _
                 (eval_send_count nonzero n T hl) d Hc), Hk. cbn. lia.
    + eapply Forall_impl; [apply (final_logs _ _ _ _ _ _ _ Hg)|].
      intros w Hw. rewrite <- Hk.
      apply (final_drained (is_eval_block T) (eval_commands T));
        [apply received_eval_block|reflexivity|exact Hw].
Qed.

(** ** Runs that never get going *)

Section Stuck.
Variables (ags : list Ag) (scs : list (nat * nat)) (n T t0 : nat) (hl : bool).
Abbreviation st e ws g tr := (Coord e ags scs n T t0 hl ws g tr).

Lemma cbarrier_stuck (e : E) ws ws' g tr :
  map (run_until (S g)) ws = ws' ->
  Exists (fun w => waits w < S g) ws' ->
  cbarrier_wait (st e ws g tr) = (inl Deadlock, st e ws' g (tr ++ [Wait])).
Proof.
  intros Hm Hw.
  cbv [cbarrier_wait bind cnote modify gets note set_workers set_gen
       workers env agents agents_scope num_agents timesteps initial_timestep
       headless gen trace].
  rewrite Hm.
  assert (Ha : forallb (fun w => bool_decide (S g <= waits w)) ws' = false).
  { apply not_true_is_false. intros Hall.
    rewrite forallb_forall in Hall. apply Exists_exists in Hw as (w & Hin & Hlt).
    apply list_elem_of_In, Hall, bool_decide_eq_true in Hin. lia. }
  now rewrite Ha.
Qed.

Lemma spawned_short :
  length scs <= n ->
  (map (fun i => fn_processor_start i scs) (seq 0 n)
   : list (worker row Info Ag))
  = map started scs ++ replicate (n - length scs) dead.
Proof.
  intros Hle.
  assert (Hsq : seq 0 n
                = seq 0 (length scs) ++ seq (length scs) (n - length scs)).
  { rewrite <- seq_app. f_equal. lia. }
  rewrite Hsq, map_app. f_equal.
  - rewrite (started_workers scs (length scs) 0) by lia.
    now rewrite drop_0, firstn_all.
  - cbn [Nat.add]. generalize (n - length scs) as k. intros k.
    assert (Hd : forall i0, length scs <= i0 ->
               (map (fun i => fn_processor_start i scs) (seq i0 k)
                : list (worker row Info Ag)) = replicate k dead).
    { induction k as [|k IH]; intros i0 Hi; [reflexivity|].
      cbn [seq map replicate]. rewrite IH by lia. f_equal.
      unfold fn_processor_start. now rewrite lookup_ge_None_2 by lia. }
    now apply Hd.
Qed.

Variable share : C (row := row) (Info := Info) (Ag := Ag) (E := E) unit.
Hypothesis share_run : forall (e : E) ws g tr,
  share (st e ws g tr) = (inr tt, st e ws g (tr ++ share_events ags)).

Lemma bootstrap_spawns (e : E) tr :
  bootstrap share (st e [] 0 tr)
  = (cbarrier_wait ;;
     let* ags := gets agents in
     for_each (zip (range 0 n) ags) (fun ia =>
       send (fst ia) (mk_task "init") ;;
       cput (fst ia) (OAgent (snd ia))) ;;
     cbarrier_wait)
      (st e (map (fun i => fn_processor_start i scs) (seq 0 n)) 0
          (tr ++ [MkBarrier (n + 1)]
              ++ flat_map (fun _ => [MkPipe; MkQueue]) (range 0 n)
              ++ share_events ags
              ++ map Spawn (range 0 n))).
Proof.
  unfold bootstrap.
  rewrite bind_gets. cbn [num_agents]. unfold range. rewrite Nat.sub_0_r.
  rewrite (bind_ok _ _ _ _ _ (cnote_run ags scs n T t0 hl _ _ _ _ _)).
  assert (Hp : forall (x : nat) (e : E) ws g tr,
             (cnote MkPipe ;; cnote MkQueue) (st e ws g tr)
             = (inr tt, st e ws g (tr ++ [MkPipe; MkQueue]))).
  { intros. cbv [bind cnote modify note trace env agents agents_scope
                 num_agents timesteps initial_timestep headless workers gen].
    now rewrite <- app_assoc. }
  rewrite (bind_ok _ _ _ _ _
             (for_each_notes ags scs n T t0 hl (seq 0 n)
                (fun _ => [MkPipe; MkQueue])
                (fun _ => cnote MkPipe ;; cnote MkQueue) Hp _ _ _ _)).
  rewrite (bind_ok _ _ _ _ _ (share_run _ _ _ _)).
  rewrite bind_gets. cbn [agents_scope].
  rewrite (bind_ok _ _ _ _ _ (spawn_all ags scs n T t0 hl e 0 n [] _ 0)).
  cbn [app]. now rewrite <- !app_assoc.
Qed.

Lemma bootstrap_few_scopes (e : E) tr :
  length scs < n ->
  bootstrap share (st e [] 0 tr)
  = (inl Deadlock,
     st e (map started scs ++ replicate (n - length scs) dead) 0
        (tr ++ spawn_events n ags)).
Proof.
  intros Hlt. rewrite bootstrap_spawns.
  rewrite spawned_short by lia.
  assert (Hm : map (run_until 1)
                 (map started scs ++ replicate (n - length scs) dead
                  : list (worker row Info Ag))
               = map started scs ++ replicate (n - length scs) dead).
  { rewrite map_app, map_map.
    change (map (run_until 1) (replicate (n - length scs) dead))
      with (run_until 1 <$> replicate (n - length scs)
                              (dead : worker row Info Ag)).
    rewrite fmap_replicate.
    f_equal; apply map_ext, run_until_started. }
  assert (Hw : Exists (fun w : worker row Info Ag => waits w < 1)
                 (map started scs ++ replicate (n - length scs) dead)).
  { apply Exists_app. right.
    destruct (n - length scs) as [|k] eqn:Hk; [lia|].
    cbn [replicate]. constructor. cbn. lia. }
  rewrite (bind_stop _ _ _ _ _ (cbarrier_stuck e _ _ 0 _ Hm Hw)).
  unfold spawn_events. now rewrite <- !app_assoc.
Qed.

End Stuck.

(** X5: when [agents_scope] holds fewer entries than [num_agents], the
    processes whose index has no entry die of an [IndexError] on
    [args[3][process_index]] before they reach the barrier.  The other
    processes and the main process then wait at the first
    [barrier.wait()] for good: no command is sent, no agent is handed
    over, and the environment is neither reset nor closed.  [eval] gets
    there for all agents, [train] when no value of an [agent.models] is
    [None]. *)
Theorem too_few_scopes_block_at_first_barrier nonzero sat sae (e : E) ags scs
    n T t0 hl tr :
  length scs < n -> n <> 1 ->
  let stuck :=
    Coord e ags scs n T t0 hl
          (map started scs ++ replicate (n - length scs) dead) 0
          (tr ++ spawn_events n ags) in
  (every_model_set ags ->
   train nonzero sat (Coord e ags scs n T t0 hl [] 0 tr)
   = (inl Deadlock, stuck)) /\
  eval nonzero sae (Coord e ags scs n T t0 hl [] 0 tr) = (inl Deadlock, stuck).
Proof.
  intros Hlt Hn stuck. split.
  - intros Hm. unfold train. rewrite bind_gets. cbn [num_agents].
    destruct (decide (n = 1)) as [?|_]; [contradiction|].
    now rewrite (bind_stop _ _ _ _ _
                   (bootstrap_few_scopes ags scs n T t0 hl _
                      (fun e ws g tr =>
                         share_memory_train_run ags scs n T t0 hl e ws g tr Hm)
                      e tr Hlt)).
  - unfold eval. rewrite bind_gets. cbn [num_agents].
    destruct (decide (n = 1)) as [?|_]; [contradiction|].
    now rewrite (bind_stop _ _ _ _ _
                   (bootstrap_few_scopes ags scs n T t0 hl _
                      (share_memory_eval_run ags scs n T t0 hl) e tr Hlt)).
Qed.

(** ** Faults in a worker *)

Lemma serve_stops g m (p : list msg) w w' e :
  stat w = Running -> waits w < g ->
  dispatch m (emit (Recv m) (set_pipe p w)) = (inl e, w') ->
  serve g (m :: p) w = set_pipe p (set_stat (Stopped e) w').
Proof.
  intros Hs Hg Hd. cbn [serve]. rewrite Hs.
  destruct (decide (g <= waits w)); [lia|].
  unfold recv_one. rewrite Hd. now destruct p.
Qed.

Lemma serve_breaks g m (p : list msg) w w' :
  stat w = Running -> waits w < g ->
  dispatch m (emit (Recv m) (set_pipe p w)) = (inr Break, w') ->
  serve g (m :: p) w = set_pipe p (set_stat Exited w').
Proof.
  intros Hs Hg Hd. cbn [serve]. rewrite Hs.
  destruct (decide (g <= waits w)); [lia|].
  unfold recv_one. rewrite Hd. now destruct p.
Qed.

(** X6: a command that needs the agent, received while [agent] is still
    [None], ends the worker with an [AttributeError].  It reaches no
    barrier and leaves the rest of its pipe unread.  For
    [pre_interaction], [record_transition], [post_interaction] and the
    evaluation command the queue is untouched, because the method is
    looked up first; for [act] the states tensor has already been taken
    from the queue and its slice is cached in [_states]. *)
Theorem agent_command_before_init_faults m v (p : list msg) w g :
  stat w = Running -> waits w < g -> agent w = None ->
  m !! "task" = Some v ->
  (v ∈ agent_first_tasks ->
   serve g (m :: p) w = faulted AttributeError m p w) /\
  (v = VStr "act" -> forall t q, queue w = OTensor t :: q ->
   serve g (m :: p) w
   = faulted AttributeError m p
       (set_states (Some (own w t)) (set_queue q w))).
Proof.
  intros Hs Hg Ha Hm.
  destruct w as [p0 q0 sc ag s0 a0 n0 lg s]. cbn in Hs, Hg, Ha. subst ag s.
  split.
  - intros Hv. erewrite serve_stops; [|reflexivity|exact Hg|].
    2:{ rewrite (dispatch_task _ _ _ Hm).
        unfold agent_first_tasks in Hv. rewrite !elem_of_cons in Hv.
        destruct Hv as [->|[->|[->|[->|Hv]]]];
          [| | | |now apply not_elem_of_nil in Hv];
          pick_branch; reflexivity. }
    reflexivity.
  - intros -> t q Hq. cbn in Hq. subst q0.
    erewrite serve_stops; [|reflexivity|exact Hg|].
    2:{ rewrite (dispatch_task _ _ _ Hm). pick_branch. reflexivity. }
    reflexivity.
Qed.

(** X7: a message without the key its branch reads ends the worker with
    a [KeyError].  Without [task] nothing else happens.  A
    [pre_interaction] or [post_interaction] command without [timestep]
    or [timesteps] finds the agent's method but fails on the arguments:
    the agent is not called and the barrier is not reached.  In both
    cases the rest of the pipe stays unread. *)
Theorem missing_key_is_a_key_error m (p : list msg) w g :
  stat w = Running -> waits w < g ->
  (m !! "task" = None -> serve g (m :: p) w = faulted KeyError m p w) /\
  (forall v, m !! "task" = Some v -> v ∈ no_data_tasks ->
     is_Some (agent w) ->
     m !! "timestep" = None \/ m !! "timesteps" = None ->
     serve g (m :: p) w = faulted KeyError m p w).
Proof.
  intros Hs Hg.
  destruct w as [p0 q0 sc ag s0 a0 n0 lg s]. cbn in Hs, Hg. subst s.
  split.
  - intros Hm. erewrite serve_stops; [|reflexivity|exact Hg|].
    2:{ unfold dispatch, bind, getitem. rewrite Hm. reflexivity. }
    reflexivity.
  - intros v Hm Hv [a Ha] Hk. cbn in Ha. subst ag.
    erewrite serve_stops; [|reflexivity|exact Hg|].
    2:{ rewrite (dispatch_task _ _ _ Hm).
        unfold no_data_tasks in Hv. rewrite !elem_of_cons in Hv.
        destruct Hv as [->|[->|Hv]]; [| |now apply not_elem_of_nil in Hv];
          pick_branch;
          unfold on_pre_interaction, on_post_interaction, bind, the_agent,
                 getitem;
          cbn [agent emit set_pipe];
          (destruct Hk as [Hk|Hk];
           [rewrite Hk; reflexivity
           |destruct (m !! "timestep"); rewrite ?Hk; reflexivity]). }
    reflexivity.
Qed.

(** X8: on [terminate] the worker leaves its loop at once.  It calls
    nothing on the agent, does not wait on the barrier, and whatever is
    still in its pipe or queue stays there.  A worker that has left the
    loop never runs again, whatever barrier generation the others go
    on to. *)
Theorem terminate_exits_at_once m (p : list msg) w g :
  stat w = Running -> waits w < g ->
  m !! "task" = Some (VStr "terminate") ->
  serve g (m :: p) w = exited m p w /\
  forall g', run_until g' (exited m p w) = exited m p w.
Proof.
  intros Hs Hg Hm.
  destruct w as [p0 q0 sc ag s0 a0 n0 lg s]. cbn in Hs, Hg. subst s.
  split.
  - erewrite serve_breaks; [|reflexivity|exact Hg|].
    2:{ rewrite (dispatch_task _ _ _ Hm). pick_branch. reflexivity. }
    reflexivity.
  - intros g'. unfold run_until, exited. cbn [pipe]. now destruct p.
Qed.

(** ** A worker that is gone *)

Lemma run_until_not_running g w : stat w <> Running -> run_until g w = w.
Proof.
  intros Hs. unfold run_until. destruct w as [p q sc ag s0 a0 n0 lg s].
  cbn in *. destruct p, s; try reflexivity; contradiction.
Qed.

Lemma cbarrier_dead ags scs n T t0 hl (e : E) ws g tr :
  Exists (fun w => stat w <> Running /\ waits w <= g) ws ->
  cbarrier_wait (Coord e ags scs n T t0 hl ws g tr)
  = (inl Deadlock,
     Coord e ags scs n T t0 hl (map (run_until (S g)) ws) g (tr ++ [Wait])).
Proof.
  intros Hd. apply cbarrier_stuck; [reflexivity|].
  apply Exists_exists in Hd as (w & Hin & Hs & Hw).
  apply Exists_exists. exists (run_until (S g) w). split.
  - now apply list_elem_of_fmap_2.
  - rewrite run_until_not_running by exact Hs. lia.
Qed.

Lemma dead_after_push m os g ws :
  Exists (fun w => stat w <> Running /\ waits w <= g) ws ->
  Exists (fun w => stat w <> Running /\ waits w <= g) (map (push m os) ws).
Proof.
  intros Hd. apply Exists_exists in Hd as (w & Hin & Hs & Hw).
  apply Exists_exists. exists (push m os w). split.
  - now apply list_elem_of_fmap_2.
  - now destruct w.
Qed.

(** X9: when some worker has died or left its loop, the next timestep of
    [train] and of [eval] sends its first command to every worker and
    then waits at the barrier for good.  [env.step] is not called and no
    exception reaches the caller. *)
Theorem dead_worker_blocks_the_timestep nonzero ags scs n T t0 hl ts
    (states : tobj row) (e : E) ws g tr :
  n = length ws ->
  Exists (fun w => stat w <> Running /\ waits w <= g) ws ->
  (exists ws1,
     train_step nonzero ts states (Coord e ags scs n T t0 hl ws g tr)
     = (inl Deadlock,
        Coord e ags scs n T t0 hl ws1 g
              (tr ++ sends n (mk_msg "pre_interaction" ts T) [] ++ [Wait]))) /\
  (exists ws1,
     eval_step nonzero ts states (Coord e ags scs n T t0 hl ws g tr)
     = (inl Deadlock,
        Coord e ags scs n T t0 hl ws1 g
              (tr ++ sends n (mk_msg "act" ts T) [OTensor (snd states)]
                  ++ [Wait]))).
Proof.
  intros Hn Hd. split; eexists.
  - unfold train_step.
    erewrite bind_stop; [reflexivity|].
    unfold broadcast. rewrite !bind_gets. cbn [num_agents timesteps].
    rewrite (bind_ok _ _ _ _ _
               (for_each_push (fun i => send i (mk_msg "pre_interaction" ts T))
                  (mk_msg "pre_interaction" ts T) [] _ e ags scs n T t0 hl g
                  (fun i ws tr => send_body e ags scs n T t0 hl g _ i ws tr)
                  ws tr Hn)).
    rewrite (cbarrier_dead _ _ _ _ _ _ _ _ _ _
               (dead_after_push _ _ _ _ Hd)).
    unfold sends. now rewrite <- app_assoc.
  - unfold eval_step.
    erewrite bind_stop; [reflexivity|].
    unfold compute_actions. rewrite !bind_gets. cbn [num_agents timesteps].
    rewrite (bind_ok _ _ _ _ _
               (for_each_push
                  (fun i => send i (mk_msg "act" ts T) ;;
                            cput i (OTensor (snd states)))
                  (mk_msg "act" ts T) [OTensor (snd states)] _
                  e ags scs n T t0 hl g
                  (fun i ws tr => send_put_body e ags scs n T t0 hl g _ _ i ws tr)
                  ws tr Hn)).
    rewrite (bind_stop _ _ _ _ _
               (cbarrier_dead _ _ _ _ _ _ _ _ _ _
                  (dead_after_push _ _ _ _ Hd))).
    unfold sends. now rewrite <- app_assoc.
Qed.

(** ** A loop in which no environment is ever done *)

Section KeepLoop.
Variables (ags : list Ag) (scs : list (nat * nat)) (n T t0 : nat) (hl : bool).
Variable stepf : nat -> tobj row -> C (row := row) (Info := Info) (Ag := Ag)
                                      (E := E) (tobj row).
Variable k : nat.
Abbreviation st e ws g tr := (Coord e ags scs n T t0 hl ws g tr).

Hypothesis step_keeps : forall t sid states (e : E) ws g tr,
  Forall (ready g) ws -> n = length ws ->
  exists rows e' ws' d,
    stepf t (sid, states) (st e ws g tr)
    = (inr (sid, rows), st e' ws' (k + g) (tr ++ d))
    /\ count is_reset d = 0 /\ count is_copy d = 1
    /\ Forall (ready (k + g)) ws' /\ n = length ws'.

Lemma loop_keeps tsl : forall sid states (e : E) ws g tr,
  Forall (ready g) ws -> n = length ws ->
  exists rows c' d,
    for_acc tsl stepf (sid, states) (st e ws g tr) = (inr (sid, rows), c')
    /\ trace c' = tr ++ d
    /\ count is_reset d = 0 /\ count is_copy d = length tsl.
Proof.
  induction tsl as [|t tsl IH]; intros sid states e ws g tr Hr Hn.
  - exists states, (st e ws g tr), []. cbn [for_acc length trace].
    now rewrite app_nil_r.
  - destruct (step_keeps t sid states e ws g tr Hr Hn)
      as (rows1 & e1 & ws1 & d1 & Hs & Hre1 & Hcp1 & Hr1 & Hn1).
    destruct (IH sid rows1 e1 ws1 (k + g) (tr ++ d1) Hr1 Hn1)
      as (rows & c' & d & Hl & Htr & Hre & Hcp).
    exists rows, c', (d1 ++ d). cbn [for_acc length].
    rewrite (bind_ok _ _ _ _ _ Hs), Hl, Htr, <- app_assoc, !count_app.
    repeat split; lia.
Qed.

End KeepLoop.

Lemma never_done_step nonzero (e e1 : E) actions ns rw dn inf :
  (forall (e : E) a, any nonzero (dones_of (fst (step e a))) = false) ->
  step e actions = ((ns, rw, dn, inf), e1) ->
  any nonzero dn = false.
Proof. intros Hnd Hstep. specialize (Hnd e actions). now rewrite Hstep in Hnd. Qed.

(** X10: as long as [env.step] reports no environment as done, the
    timestep loop of [train] and of [eval] never calls [env.reset], and
    its variable [states] stays bound to the tensor object it started
    with: the object is overwritten in place by [copy_] once per
    timestep. *)
Theorem no_done_keeps_the_states_object nonzero ags scs n T t0 (hl : bool) tsl
    (sid : nat) (states : list row) (e : E) ws g tr :
  Forall (ready g) ws -> n = length ws -> 0 < n ->
  (forall (e : E) a, any nonzero (dones_of (fst (step e a))) = false) ->
  (exists rows c' d,
     for_acc tsl (train_step nonzero) (sid, states)
             (Coord e ags scs n T t0 hl ws g tr) = (inr (sid, rows), c') /\
     trace c' = tr ++ d /\
     count is_reset d = 0 /\ count is_copy d = length tsl) /\
  (exists rows c' d,
     for_acc tsl (eval_step nonzero) (sid, states)
             (Coord e ags scs n T t0 hl ws g tr) = (inr (sid, rows), c') /\
     trace c' = tr ++ d /\
     count is_reset d = 0 /\ count is_copy d = length tsl).
Proof.
  intros Hr Hn Hpos Hnd. split.
  - apply (loop_keeps ags scs n T t0 hl (train_step nonzero) 4); try assumption.
    clear - Hpos Hnd. intros t sid states e ws g tr Hr Hn.
    destruct (step e (train_actions t T states ws))
      as [[[[ns rw] dn] inf] e1] eqn:Hstep.
    pose proof (never_done_step _ _ _ _ _ _ _ _ Hnd Hstep) as Hany.
    rewrite (train_step_run nonzero ags scs n T t0 hl t sid states e e1 ws g
               tr ns rw dn inf Hr Hn Hpos Hstep).
    rewrite Hany. do 4 eexists. split; [reflexivity|].
    rewrite !train_events_count by reflexivity.
    unfold reset_events, render_events. rewrite Hany.
    split; [now destruct hl|]. split; [now destruct hl|]. split.
    + apply (ready_map g); [|exact Hr].
      intros w Hw. now apply train_worker_spec.
    + now rewrite length_map.
  - apply (loop_keeps ags scs n T t0 hl (eval_step nonzero) 2); try assumption.
    clear - Hpos Hnd. intros t sid states e ws g tr Hr Hn.
    destruct (step e (eval_actions t T states ws))
      as [[[[ns rw] dn] inf] e1] eqn:Hstep.
    pose proof (never_done_step _ _ _ _ _ _ _ _ Hnd Hstep) as Hany.
    rewrite (eval_step_run nonzero ags scs n T t0 hl t sid states e e1 ws g
               tr ns rw dn inf Hr Hn Hpos Hstep).
    rewrite Hany. do 4 eexists. split; [reflexivity|].
    rewrite !eval_events_count by reflexivity.
    unfold reset_events, render_events. rewrite Hany.
    split; [now destruct hl|]. split; [now destruct hl|]. split.
    + apply (ready_map g); [|exact Hr].
      intros w Hw. now apply eval_worker_spec.
    + now rewrite length_map.
Qed.

(** ** Slicing and stacking *)

Lemma contiguous_le scs : forall from to, contiguous from scs to -> from <= to.
Proof.
  induction scs as [|sc scs IH]; intros from to; cbn [contiguous].
  - lia.
  - intros (Hf & Hle & Hc). apply IH in Hc. lia.
Qed.

Lemma slices_from (t : list row) scs : forall from,
  contiguous from scs (length t) ->
  vstack (map (fun sc => slice (fst sc) (snd sc) t) scs) = drop from t.
Proof.
  unfold vstack.
  induction scs as [|sc scs IH]; intros from; cbn [contiguous map concat].
  - intros ->. now rewrite drop_all.
  - intros (Hf & Hle & Hc). rewrite (IH _ Hc).
    pose proof (contiguous_le _ _ _ Hc) as Hb.
    unfold slice. rewrite <- drop_app_le by (rewrite length_take; lia).
    now rewrite take_drop, Hf.
Qed.

(** X11: when the scopes, in worker order, cut the batch into consecutive
    ranges, stacking the slices [t[start:end]] the workers take gives the
    tensor [t] back: every row is in exactly one slice, at its place. *)
Theorem slices_stack_back_to_the_batch (t : list row) ws :
  contiguous 0 (map scope ws) (length t) ->
  vstack (map (fun w => own w t) ws) = t.
Proof.
  intros Hc. transitivity (drop 0 t); [|apply drop_0].
  rewrite <- (slices_from t (map scope ws) 0 Hc). now rewrite map_map.
Qed.

(** ** A model that is [None] *)

Section NoneModel.
Variables (ags : list Ag) (scs : list (nat * nat)) (n T t0 : nat) (hl : bool).
Abbreviation st e ws g tr := (Coord e ags scs n T t0 hl ws g tr).

Lemma share_models_none (e : E) ws g : forall mos tr,
  NoModel ∈ mos ->
  exists d,
    for_each mos (fun mo =>
      match mo with
      | NoModel => raise (Fault AttributeError)
      | Model _ => cnote ShareModel
      end) (st e ws g tr)
    = (inl (Fault AttributeError), st e ws g (tr ++ d)) /\
    Forall (fun ev => ev = ShareModel) d.
Proof.
  induction mos as [|mo mos IH]; intros tr Hin.
  - now apply not_elem_of_nil in Hin.
  - destruct mo as [|b].
    + exists []. cbn. rewrite app_nil_r. split; [reflexivity|constructor].
    + apply elem_of_cons in Hin as [Hin|Hin]; [discriminate|].
      destruct (IH (tr ++ [ShareModel]) Hin) as (d & Hd & Hf).
      exists (ShareModel :: d). cbn [for_each].
      rewrite (bind_ok _ _ _ _ _ (cnote_run ags scs n T t0 hl ShareModel e ws g tr)).
      rewrite Hd, <- app_assoc. split; [reflexivity|now constructor].
Qed.

Lemma share_memory_train_none (e : E) ws g tr :
  Exists (fun a => NoModel ∈ models a) ags ->
  exists d,
    share_memory_train (st e ws g tr)
    = (inl (Fault AttributeError), st e ws g (tr ++ d)) /\
    Forall (fun ev => ev = ShareMemory \/ ev = ShareModel) d.
Proof.
  intros Hex. unfold share_memory_train. rewrite bind_gets. cbn [agents].
  revert tr.
  assert (Hl : forall l : list Ag,
             Exists (fun a => NoModel ∈ models a) l ->
             forall tr, exists d,
               for_each l (fun a =>
                 share_memory_of a ;;
                 for_each (models a) (fun mo =>
                   match mo with
                   | NoModel => raise (Fault AttributeError)
                   | Model _ => cnote ShareModel
                   end)) (st e ws g tr)
               = (inl (Fault AttributeError), st e ws g (tr ++ d)) /\
               Forall (fun ev => ev = ShareMemory \/ ev = ShareModel) d).
  { induction l as [|a l IH]; intros Hl tr; [now apply Exists_nil in Hl|].
    cbn [for_each].
    destruct (decide (NoModel ∈ models a)) as [Hin|Hno].
    - destruct (share_models_none e ws g (models a)
                  (tr ++ if has_memory a then [ShareMemory] else []) Hin)
        as (d & Hd & Hf).
      exists ((if has_memory a then [ShareMemory] else []) ++ d).
      erewrite bind_stop;
        [|rewrite (bind_ok _ _ _ _ _
                     (share_memory_of_run ags scs n T t0 hl a e ws g tr));
          exact Hd].
      rewrite app_assoc. split; [reflexivity|].
      apply Forall_app. split.
      + destruct (has_memory a); repeat constructor.
      + eapply Forall_impl; [exact Hf|]. intros ev ->. now right.
    - apply Exists_cons in Hl as [Hl|Hl]; [contradiction|].
      rewrite (bind_ok _ _ _ _ _
                 (share_agent_train ags scs n T t0 hl a e ws g tr Hno)).
      destruct (IH Hl (tr ++ (if has_memory a then [ShareMemory] else [])
                          ++ flat_map model_events (models a)))
        as (d & Hd & Hf).
      exists (((if has_memory a then [ShareMemory] else [])
               ++ flat_map model_events (models a)) ++ d).
      rewrite Hd, <- !app_assoc. split; [reflexivity|].
      rewrite !Forall_app. split; [|split; [|exact Hf]].
      + destruct (has_memory a); repeat constructor.
      + clear. generalize (models a) as mos.
        induction mos as [|[|b] mos IHm]; cbn [flat_map model_events app];
          repeat constructor; solve [auto]. }
  exact (Hl ags Hex).
Qed.

End NoneModel.

(** X13: when some value of an [agent.models] is [None], [train] with
    several workers stops with an [AttributeError] in its [share_memory]
    loop: the barrier, the pipes and the queues exist, but no process has
    been started, nothing has been sent and the environment has not been
    touched.  [eval], whose loop skips [None], runs to its end with the
    same agents. *)
Theorem none_model_stops_train_before_spawn nonzero sat sae (e : E) ags scs
    n T t0 hl tr :
  2 <= n -> n <= length scs -> n <= length ags ->
  Exists (fun a => NoModel ∈ models a) ags ->
  (exists d,
     train nonzero sat (Coord e ags scs n T t0 hl [] 0 tr)
     = (inl (Fault AttributeError),
        Coord e ags scs n T t0 hl [] 0
              (tr ++ [MkBarrier (n + 1)]
                  ++ flat_map (fun _ => [MkPipe; MkQueue]) (range 0 n) ++ d)) /\
     Forall (fun ev => ev = ShareMemory \/ ev = ShareModel) d) /\
  fst (eval nonzero sae (Coord e ags scs n T t0 hl [] 0 tr)) = inr tt.
Proof.
  intros Hn Hs Ha Hex. split.
  - destruct (share_memory_train_none ags scs n T t0 hl e [] 0
                ((tr ++ [MkBarrier (n + 1)])
                 ++ flat_map (fun _ => [MkPipe; MkQueue]) (seq 0 n)) Hex)
      as (d & Hd & Hf).
    exists d. split; [|exact Hf].
    unfold train. rewrite bind_gets. cbn [num_agents].
    destruct (decide (n = 1)) as [?|_]; [lia|].
    erewrite bind_stop; [reflexivity|].
    unfold bootstrap.
    rewrite bind_gets. cbn [num_agents]. unfold range. rewrite Nat.sub_0_r.
    rewrite (bind_ok _ _ _ _ _ (cnote_run ags scs n T t0 hl _ _ _ _ _)).
    assert (Hp : forall (x : nat) (e : E) ws g tr,
               (cnote MkPipe ;; cnote MkQueue) (Coord e ags scs n T t0 hl ws g tr)
               = (inr tt, Coord e ags scs n T t0 hl ws g (tr ++ [MkPipe; MkQueue]))).
    { intros. cbv [bind cnote modify note trace env agents agents_scope
                   num_agents timesteps initial_timestep headless workers gen].
      now rewrite <- app_assoc. }
    rewrite (bind_ok _ _ _ _ _
               (for_each_notes ags scs n T t0 hl (seq 0 n)
                  (fun _ => [MkPipe; MkQueue])
                  (fun _ => cnote MkPipe ;; cnote MkQueue) Hp _ _ _ _)).
    rewrite (bind_stop _ _ _ _ _ Hd). now rewrite <- !app_assoc.
  - destruct (eval_run nonzero sae ags scs n T t0 hl Hn Hs Ha e tr)
      as (e' & ws' & d & Hr & _). now rewrite Hr.
Qed.

(** ** Who gets which agent *)


End Facts.

(** * The evaluation command and the class of the agent *)

Section Super.
Import Hierarchy.
Context {row Info St E : Type} `{Environment row Info E}.


End Super.

(** * The configuration of a trainer *)

Section Config.
Implicit Types (h : store) (ucfg : dict).

Lemma fresh_loc h l : is_Some (h !! l) -> fresh (dom h) <> l.
Proof.
  intros Hl Heq. apply (is_fresh (dom h)). rewrite Heq.
  now apply elem_of_dom.
Qed.

(** C9: constructing a [ParallelTrainer] copies the default configuration
    into a new dict and updates the copy with [cfg].  In the result every
    key of [cfg] has the user's value and every other key has its
    default; the module-level default dict, like every other object, is
    as it was. *)
Theorem init_cfg_merges_over_defaults h cfg ucfg :
  h !! default_loc = Some PARALLEL_TRAINER_DEFAULT_CONFIG ->
  h !! cfg = Some ucfg ->
  exists h' _cfg merged,
    init_cfg h cfg = Some (h', _cfg) /\
    h !! _cfg = None /\
    h' !! _cfg = Some merged /\
    (forall k, merged !! k = match ucfg !! k with
                             | Some v => Some v
                             | None => PARALLEL_TRAINER_DEFAULT_CONFIG !! k
                             end) /\
    (forall k, ucfg !! k = None -> k <> "timesteps" -> k <> "headless" ->
               merged !! k = None) /\
    (ucfg !! "timesteps" = None -> merged !! "timesteps" = Some (VInt 100000)) /\
    (ucfg !! "headless" = None -> merged !! "headless" = Some (VBool false)) /\
    h' !! default_loc = Some PARALLEL_TRAINER_DEFAULT_CONFIG /\
    (forall l, l <> _cfg -> h' !! l = h !! l).
Proof.
  intros Hd Hc. set (l := fresh (dom h)).
  assert (Hld : l <> default_loc) by (apply fresh_loc; eauto).
  assert (Hlc : l <> cfg) by (apply fresh_loc; eauto).
  assert (Hl : h !! l = None).
  { apply not_elem_of_dom. apply is_fresh. }
  exists (<[l := ucfg ∪ PARALLEL_TRAINER_DEFAULT_CONFIG]>
            (<[l := PARALLEL_TRAINER_DEFAULT_CONFIG]> h)),
         l, (ucfg ∪ PARALLEL_TRAINER_DEFAULT_CONFIG).
  assert (Hm : forall k,
             (ucfg ∪ PARALLEL_TRAINER_DEFAULT_CONFIG) !! k
             = match ucfg !! k with
               | Some v => Some v
               | None => PARALLEL_TRAINER_DEFAULT_CONFIG !! k
               end).
  { intros k. rewrite lookup_union. destruct (ucfg !! k) as [v|] eqn:Hk.
    - now destruct (PARALLEL_TRAINER_DEFAULT_CONFIG !! k).
    - now destruct (PARALLEL_TRAINER_DEFAULT_CONFIG !! k). }
  split.
  { unfold init_cfg, deepcopy, update. rewrite Hd. cbn. fold l.
    rewrite lookup_insert_eq. cbn.
    rewrite lookup_insert_ne by congruence. rewrite Hc. reflexivity. }
  split; [exact Hl|]. split; [apply lookup_insert_eq|].
  split; [exact Hm|]. split; [|split; [|split; [|split]]].
  - intros k Hk H1 H2. rewrite Hm, Hk. unfold PARALLEL_TRAINER_DEFAULT_CONFIG.
    now rewrite !lookup_insert_ne by congruence.
  - intros Hk. now rewrite Hm, Hk.
  - intros Hk. now rewrite Hm, Hk.
  - rewrite !lookup_insert_ne by congruence. exact Hd.
  - intros l0 Hl0. now rewrite !lookup_insert_ne by congruence.
Qed.

End Config.

(** * Validation of the scopes *)

Section Validation.
Implicit Types (scopes : list (nat * nat)) (sc : nat * nat).

Lemma tiles_spec scopes b : tiles scopes b = true <-> exact_tiling scopes b.
Proof.
  unfold tiles, exact_tiling. rewrite andb_true_iff, !forallb_forall.
  rewrite Forall_forall. split; intros [Hw Hc]; split.
  - intros sc Hin. apply list_elem_of_In, Hw in Hin.
    unfold well_formed in Hin. apply andb_true_iff in Hin as [H1 H2].
    apply Nat.ltb_lt in H1. apply Nat.leb_le in H2. lia.
  - intros i Hi. apply Nat.eqb_eq, Hc, in_seq. lia.
  - intros sc Hin. apply list_elem_of_In, Hw in Hin.
    unfold well_formed. apply andb_true_iff.
    rewrite Nat.ltb_lt, Nat.leb_le. lia.
  - intros i Hi. apply in_seq in Hi. apply Nat.eqb_eq, Hc. lia.
Qed.

Lemma covering_none scopes i :
  Forall (fun sc => covers sc i = false) scopes -> covering scopes i = 0.
Proof.
  intros Hf. unfold covering. now rewrite filter_none.
Qed.

Lemma covering_app l1 l2 i :
  covering (l1 ++ l2) i = covering l1 i + covering l2 i.
Proof. unfold covering. now rewrite List.filter_app, length_app. Qed.

Lemma covering_member scopes k sc i :
  scopes !! k = Some sc -> covers sc i = true -> 1 <= covering scopes i.
Proof.
  intros Hk Hc. rewrite <- (take_drop_middle _ _ _ Hk).
  rewrite covering_app. unfold covering at 2. cbn [List.filter].
  rewrite Hc. cbn [length]. lia.
Qed.

Lemma covering_twice scopes i j k sc1 sc2 :
  j < k -> scopes !! j = Some sc1 -> scopes !! k = Some sc2 ->
  covers sc1 i = true -> covers sc2 i = true ->
  2 <= covering scopes i.
Proof.
  intros Hjk Hj Hk H1 H2. rewrite <- (take_drop_middle _ _ _ Hj).
  rewrite covering_app. unfold covering at 2. cbn [List.filter].
  rewrite H1. cbn [length].
  assert (Hd : drop (S j) scopes !! (k - S j) = Some sc2).
  { rewrite lookup_drop. rewrite <- Hk. f_equal. lia. }
  pose proof (covering_member _ _ _ i Hd H2) as Hm.
  unfold covering in *. lia.
Qed.

Lemma gap_no_tiling scopes b : has_gap scopes b -> ~ exact_tiling scopes b.
Proof.
  intros (i & Hi & Hf) [_ Hc]. specialize (Hc i Hi).
  rewrite covering_none in Hc by assumption. discriminate.
Qed.

Lemma overlap_no_tiling scopes b : has_overlap scopes -> ~ exact_tiling scopes b.
Proof.
  intros (i & j & k & sc1 & sc2 & Hjk & Hj & Hk & H1 & H2) [Hw Hc].
  pose proof (covering_twice _ _ _ _ _ _ Hjk Hj Hk H1 H2) as H2c.
  destruct (decide (i < b)) as [Hi|Hi].
  - rewrite (Hc i Hi) in H2c. lia.
  - rewrite Forall_forall in Hw.
    assert (Hin : sc1 ∈ scopes) by (eapply list_elem_of_lookup_2; eassumption).
    specialize (Hw _ Hin). unfold covers in H1.
    apply andb_true_iff in H1 as [_ H1]. apply Nat.ltb_lt in H1. lia.
Qed.

(** C7: when the number of scopes differs from the number of agents, or
    the scopes leave a gap in [[0, batch_size)], or overlap, or fail in any
    other way to partition it exactly once, [ConfigurationError] is raised
    and no process has been spawned; when they do partition it, nothing is
    raised and one process per agent is spawned. *)
Theorem bad_scopes_raise_before_spawn num_agents scopes batch_size :
  let r := validate_and_spawn num_agents scopes batch_size in
  (num_agents <> length scopes \/ has_gap scopes batch_size \/
   has_overlap scopes \/ ~ exact_tiling scopes batch_size ->
   r = ([], Some ConfigurationError)) /\
  (num_agents = length scopes /\ exact_tiling scopes batch_size ->
   r = (range 0 num_agents, None)).
Proof.
  cbv zeta. unfold validate_and_spawn. split.
  - intros Hbad.
    destruct (num_agents =? length scopes) eqn:Hn; [|reflexivity].
    apply Nat.eqb_eq in Hn. cbn [negb].
    destruct (tiles scopes batch_size) eqn:Ht; [|reflexivity].
    apply tiles_spec in Ht. exfalso.
    destruct Hbad as [Hne|[Hg|[Ho|Hnt]]].
    + contradiction.
    + now apply (gap_no_tiling _ _ Hg).
    + now apply (overlap_no_tiling _ batch_size Ho).
    + contradiction.
  - intros [Hn Ht]. apply Nat.eqb_eq in Hn. apply tiles_spec in Ht.
    now rewrite Hn, Ht.
Qed.

End Validation.

(** * Instances on the concrete system *)

Import Stub.

Lemma unknown_task_is_skipped_witness :
  let m : msg := {["task" := VStr "shutdown"]} in
  log (recv_one m [] idle_worker) = [Recv m] /\
  waits (recv_one m [] idle_worker) = 1 /\
  stat (recv_one m [] idle_worker) = Running.
Proof.
  intros m.
  assert (Hm : m !! "task" = Some (VStr "shutdown")) by reflexivity.
  assert (Hv : VStr "shutdown" ∉ known_tasks).
  { unfold known_tasks. rewrite !not_elem_of_cons.
    repeat split; try discriminate. apply not_elem_of_nil. }
  destruct (unknown_task_is_skipped m _ [] idle_worker 2 Hm Hv)
    as (Hs & _ & _ & _ & Hw & _ & Hl & _).
  split; [exact Hl | split; [exact Hw | exact Hs]].
Defined.


Lemma workers3_ready : Forall (ready 2) workers3.
Proof. repeat constructor; unfold ready; cbn; eauto 10. Qed.

Lemma actions_stacked_in_worker_order_witness :
  rows_by_scope (actions_of 0 5 states6) workers3 states6
                (vstack (map (actions_of 0 5 states6) workers3)) /\
  vstack (map (actions_of 0 5 states6) workers3)
  = [110; 111; 212; 213; 314; 315].
Proof.
  split; [|reflexivity].
  refine (proj2 (proj2 (proj2
            (actions_stacked_in_worker_order nonzero agents3 scopes3 3 5 0
               true 0 1 states6 (StubEnv 6 3 0 1 0) workers3 2 []
               workers3_ready eq_refl _)) _) _).
  - lia.
  - cbn. repeat split; lia.
  - repeat constructor.
Defined.

Lemma agents3_models : every_model_set agents3.
Proof.
  unfold every_model_set. repeat constructor;
    cbn; rewrite !not_elem_of_cons; repeat split;
    try discriminate; apply not_elem_of_nil.
Qed.

Lemma train_phases_in_lockstep_witness :
  exists c',
    train nonzero id (sys 3 scopes3 6 5) = (inr tt, c') /\ gen c' = 22.
Proof.
  destruct (train_phases_in_lockstep nonzero id (StubEnv 6 3 0 0 0)
              agents3 scopes3 3 5 0 true)
    as (c' & d & H1 & _ & _ & H4 & _);
    [cbn; lia|cbn; lia|cbn; lia|exact agents3_models|].
  exists c'. split; [exact H1|exact H4].
Defined.

Import Hierarchy.


Example tuned_agent_after_eval_command :
  (attrs <$> agent (recv_one (mk_msg "eval-record_transition-post_interaction"
                                     0 5) [] tuned_worker))
  = Some (StubAgent 2 0 100).
Proof. vm_compute. reflexivity. Qed.


Lemma reset_iff_any_done_witness :
  reset_checked nonzero [] (1, states6) [1; 1; 1; 1; 1; 1]
                [110; 111; 212; 213; 314; 315] (StubEnv 6 3 4 1 0)
                (train_step nonzero 3 (1, states6) at_timestep3) /\
  fst (train_step nonzero 3 (1, states6) at_timestep3)
  = inr (2, [0; 1; 2; 3; 4; 5]) /\
  fst (train_step nonzero 2 (1, states6) at_timestep2)
  = inr (1, [110; 111; 212; 213; 314; 315]).
Proof.
  split; [|split; vm_compute; reflexivity].
  refine (proj1 (proj2
            (reset_iff_any_done nonzero agents3 scopes3 3 5 0 true 3 1
               states6 (StubEnv 6 3 3 1 0) (StubEnv 6 3 4 1 0) workers3 2 []
               [110; 111; 212; 213; 314; 315] [1; 1; 1; 1; 1; 1]
               [1; 1; 1; 1; 1; 1] tt workers3_ready eq_refl _)) _).
  - lia.
  - reflexivity.
Defined.

(** The scenario of the spec: five timesteps, [dones] all-true at
    timestep 3 only; one reset in the loop, at timestep 3. *)
Example scenario_resets_train :
  loop_resets share_memory_train (train_step nonzero) scenario
  = [0; 0; 0; 1; 0].
Proof. vm_compute. reflexivity. Qed.

Example scenario_resets_eval :
  loop_resets share_memory_eval (eval_step nonzero) scenario
  = [0; 0; 0; 1; 0].
Proof. vm_compute. reflexivity. Qed.

Lemma single_agent_stays_in_process_witness :
  trace (snd (train nonzero id (sys 1 [(0, 6)] 6 5)))
  = [AgentsInit; SingleAgentTrain] /\
  workers (snd (eval nonzero id (sys 1 [(0, 6)] 6 5))) = [].
Proof.
  destruct (single_agent_stays_in_process nonzero id id
              (sys 1 [(0, 6)] 6 5) eq_refl)
    as (_ & H2 & _ & _ & _ & _ & _ & H8 & _).
  split; [exact H2|exact H8].
Defined.

Lemma bad_scopes_raise_before_spawn_witness :
  validate_and_spawn 2 [(0, 10); (15, 30)] 30 = ([], Some ConfigurationError) /\
  validate_and_spawn 2 [(0, 20); (10, 30)] 30 = ([], Some ConfigurationError) /\
  validate_and_spawn 3 [(0, 10); (10, 30)] 30 = ([], Some ConfigurationError) /\
  validate_and_spawn 3 [(0, 10); (10, 20); (20, 30)] 30 = ([0; 1; 2], None).
Proof.
  split; [|split; [|split]].
  - apply (proj1 (bad_scopes_raise_before_spawn 2 [(0, 10); (15, 30)] 30)).
    right. left. exists 12. split; [lia|]. repeat constructor.
  - apply (proj1 (bad_scopes_raise_before_spawn 2 [(0, 20); (10, 30)] 30)).
    right. right. left. exists 15, 0, 1, (0, 20), (10, 30).
    repeat split; lia.
  - apply (proj1 (bad_scopes_raise_before_spawn 3 [(0, 10); (10, 30)] 30)).
    left. cbn. lia.
  - apply (proj2 (bad_scopes_raise_before_spawn 3
                    [(0, 10); (10, 20); (20, 30)] 30)).
    split; [reflexivity|]. apply tiles_spec. reflexivity.
Defined.

Lemma terminate_join_close_witness :
  torn_down 3 (StubEnv 6 3 0 0 0) (train nonzero id (sys 3 scopes3 6 5)) /\
  torn_down 3 (StubEnv 6 3 0 0 0) (eval nonzero id (sys 3 scopes3 6 5)) /\
  closes (env (snd (train nonzero id (sys 3 scopes3 6 5)))) = 1.
Proof.
  destruct (terminate_join_close nonzero id id (StubEnv 6 3 0 0 0)
              agents3 scopes3 3 5 0 true)
    as (_ & Ht & He); [cbn; lia..|].
  split; [exact (Ht agents3_models)|]. split; [exact He|].
  vm_compute. reflexivity.
Defined.

Lemma init_cfg_merges_over_defaults_witness :
  exists h' _cfg merged,
    init_cfg store2 1 = Some (h', _cfg) /\
    h' !! _cfg = Some merged /\
    merged !! "timesteps" = Some (VInt 5) /\
    merged !! "headless" = Some (VBool false) /\
    h' !! default_loc = Some PARALLEL_TRAINER_DEFAULT_CONFIG.
Proof.
  destruct (init_cfg_merges_over_defaults store2 1
              {["timesteps" := VInt 5]} eq_refl eq_refl)
    as (h' & l & merged & H1 & _ & H3 & H4 & _ & _ & H7 & H8 & _).
  exists h', l, merged. split; [exact H1|]. split; [exact H3|].
  split; [|split; [|exact H8]].
  - rewrite H4. reflexivity.
  - apply H7. reflexivity.
Defined.

(** A worker that dies leaves the others at the barrier for good: with one
    scope too few, worker 2 fails on [args[3][process_index]] and the
    first [barrier.wait()] of the coordinator never returns. *)
Example dead_worker_stalls_the_run :
  fst (train nonzero id (sys 3 [(0, 2); (2, 4)] 6 5)) = inl Deadlock /\
  map stat (workers (snd (train nonzero id (sys 3 [(0, 2); (2, 4)] 6 5))))
  = [Running; Running; Stopped (Fault IndexError)].
Proof. split; vm_compute; reflexivity. Qed.

(** A command that needs the agent, received before [init], is an
    [AttributeError] on [None]. *)
Example act_before_init_faults :
  stat (recv_one (mk_msg "pre_interaction" 0 5) [] (started (0, 2)
                    : worker nat unit stub_agent))
  = Stopped (Fault AttributeError).
Proof. vm_compute. reflexivity. Qed.

(** ** Further instances *)

Import Calm.

Lemma no_timesteps_boot_and_teardown_witness :
  exists c',
    train nonzero id (sys 3 scopes3 6 0) = (inr tt, c') /\
    gen c' = 2 /\ env c' = StubEnv 6 3 0 1 1.
Proof.
  destruct (no_timesteps_boot_and_teardown nonzero id id (StubEnv 6 3 0 0 0)
              agents3 scopes3 3 0 0 true [])
    as [H1 _]; [cbn; lia..|].
  eexists. split; [exact (H1 agents3_models)|]. split; reflexivity.
Defined.

Lemma env_calls_per_run_witness :
  exists c',
    train nonzero id (sys 3 scopes3 6 5) = (inr tt, c') /\
    env_calls 5 true (trace c') /\
    env c' = replay (trace c') (StubEnv 6 3 0 0 0) /\
    env c' = StubEnv 6 3 5 2 1.
Proof.
  destruct (env_calls_per_run nonzero id id (StubEnv 6 3 0 0 0)
              agents3 scopes3 3 5 0 true)
    as [Ht _]; [cbn; lia..|].
  destruct (Ht agents3_models) as (c' & H1 & H2 & H3).
  exists c'. split; [exact H1|]. split; [exact H2|]. split; [exact H3|].
  assert (Hc : c' = snd (train nonzero id (sys 3 scopes3 6 5)))
    by (change (sys 3 scopes3 6 5)
          with (Coord (StubEnv 6 3 0 0 0) agents3 scopes3 3 5 0 true
                      [] 0 ([] : list (cevent nat unit stub_agent)));
        now rewrite H1).
  rewrite Hc. vm_compute. reflexivity.
Defined.


Lemma commands_all_consumed_witness :
  exists c',
    train nonzero id (sys 3 scopes3 6 5) = (inr tt, c') /\
    count is_send (trace c') = 66 /\
    Forall (drained 22) (workers c').
Proof.
  destruct (commands_all_consumed nonzero id id (StubEnv 6 3 0 0 0)
              agents3 scopes3 3 5 0 true)
    as [Ht _]; [cbn; lia..|].
  destruct (Ht agents3_models) as (c' & H1 & H2 & H3).
  exists c'. split; [exact H1|]. split; [exact H2|exact H3].
Defined.

Lemma too_few_scopes_block_at_first_barrier_witness :
  fst (train nonzero id (sys 3 [(0, 2); (2, 4)] 6 5)) = inl Deadlock /\
  trace (snd (eval nonzero id (sys 3 [(0, 2); (2, 4)] 6 5)))
  = spawn_events 3 agents3.
Proof.
  destruct (too_few_scopes_block_at_first_barrier nonzero id id
              (StubEnv 6 3 0 0 0) agents3 [(0, 2); (2, 4)] 3 5 0 true [])
    as [H1 H2]; [cbn; lia|lia|].
  split; [exact (f_equal fst (H1 agents3_models))
         |exact (f_equal (fun r => trace (snd r)) H2)].
Defined.

Lemma agent_command_before_init_faults_witness :
  let m := mk_msg "record_transition" 0 5 in
  let w : worker nat unit stub_agent :=
    set_queue [OTensor [1; 1]; OTensor [20; 21]; OTensor [0; 0]; OInfos tt]
              (started (0, 2)) in
  serve 2 [m] w = faulted AttributeError m [] w.
Proof.
  intros m w.
  refine (proj1 (agent_command_before_init_faults m (VStr "record_transition")
                   [] w 2 eq_refl _ eq_refl _) _).
  - cbn. lia.
  - vm_compute. reflexivity.
  - unfold agent_first_tasks. rewrite !elem_of_cons. right. left. reflexivity.
Defined.

Lemma missing_key_is_a_key_error_witness :
  let m : msg := {["job" := VStr "act"]} in
  serve 2 [m; mk_task "terminate"] idle_worker
  = faulted KeyError m [mk_task "terminate"] idle_worker.
Proof.
  intros m.
  refine (proj1 (missing_key_is_a_key_error m [mk_task "terminate"]
                   idle_worker 2 eq_refl _) _).
  - cbn. lia.
  - vm_compute. reflexivity.
Defined.

Lemma terminate_exits_at_once_witness :
  let m := mk_task "terminate" in
  let p := [mk_msg "act" 0 5] in
  serve 2 [m; mk_msg "act" 0 5] idle_worker = exited m p idle_worker /\
  run_until 7 (exited m p idle_worker) = exited m p idle_worker.
Proof.
  intros m p.
  destruct (terminate_exits_at_once m p idle_worker 2 eq_refl) as [H1 H2].
  - cbn. lia.
  - vm_compute. reflexivity.
  - split; [exact H1|exact (H2 7)].
Defined.

Lemma dead_worker_blocks_the_timestep_witness :
  exists ws1,
    train_step nonzero 0 (1, states6)
      (Coord (StubEnv 6 3 0 1 0) agents3 scopes3 4 5 0 true
             (workers3 ++ [dead]) 2 [])
    = (inl Deadlock,
       Coord (StubEnv 6 3 0 1 0) agents3 scopes3 4 5 0 true ws1 2
             (sends 4 (mk_msg "pre_interaction" 0 5) [] ++ [Wait])).
Proof.
  refine (proj1 (dead_worker_blocks_the_timestep nonzero agents3 scopes3 4 5 0
                   true 0 (1, states6) (StubEnv 6 3 0 1 0)
                   (workers3 ++ [dead]) 2 [] eq_refl _)).
  apply Exists_app. right. constructor. split; [discriminate|cbn; lia].
Defined.

Lemma no_done_keeps_the_states_object_witness :
  exists rows c',
    for_acc [0; 1; 2] (train_step nonzero) (1, states6)
            (Coord (CalmEnv 6 1) agents3 scopes3 3 5 0 true workers3 2 [])
    = (inr (1, rows), c') /\
    count is_reset (trace c') = 0 /\ count is_copy (trace c') = 3.
Proof.
  destruct (no_done_keeps_the_states_object nonzero agents3 scopes3 3 5 0 true
              [0; 1; 2] 1 states6 (CalmEnv 6 1) workers3 2 []
              workers3_ready eq_refl)
    as [(rows & c' & d & H1 & H2 & H3 & H4) _].
  - lia.
  - intros e a. cbn. induction (size e) as [|k IH]; [reflexivity|exact IH].
  - exists rows, c'. split; [exact H1|]. rewrite H2. split; [exact H3|exact H4].
Defined.

Lemma slices_stack_back_to_the_batch_witness :
  vstack (map (fun w => own w states6) workers3) = states6.
Proof.
  apply slices_stack_back_to_the_batch. cbn. repeat split; lia.
Defined.


Lemma none_model_stops_train_before_spawn_witness :
  fst (train nonzero id
         (Coord (StubEnv 6 3 0 0 0) bare_agents scopes3 3 5 0 true [] 0 []))
  = inl (Fault AttributeError) /\
  fst (eval nonzero id
         (Coord (StubEnv 6 3 0 0 0) bare_agents scopes3 3 5 0 true [] 0 []))
  = inr tt.
Proof.
  destruct (none_model_stops_train_before_spawn nonzero id id
              (StubEnv 6 3 0 0 0) bare_agents scopes3 3 5 0 true [])
    as [(d & H1 & _) H2]; [cbn; lia..| |].
  - apply Exists_cons. right. apply Exists_cons. left.
    cbn. rewrite !elem_of_cons. right. left. reflexivity.
  - split; [exact (f_equal fst H1)|exact H2].
Defined.
